(** * MonoTrack: the page/block store of [App.tsx] and the generation client
      of [services/geminiService.ts], embedded as Rocq functions.

    The React component state ([pages], [selectedPageId], [isGenerating]) is a
    record that every handler transforms; [Date.now()] and [generateId()]
    read an explicit [World]; JavaScript numbers that the code divides and
    rounds are IEEE-754 binary64 values ([spec_float] with precision 53). *)

From Stdlib Require Import ZArith List String Ascii Bool Lia Arith Permutation.
From Stdlib Require Import DecimalString DecimalNat.
From Stdlib Require Import Floats.SpecFloat.
From Stdlib Require Import QArith Qpower Lqa.
Import ListNotations.
Close Scope Q_scope.
Open Scope string_scope.

(** ** JavaScript numbers *)

Module Num.

Definition prec : Z := 53.
Definition emax : Z := 1024.

Definition Number := spec_float.

(** An integer literal or an array length, as a double. *)
Definition of_Z (z : Z) : Number := binary_normalize prec emax z 0 false.
Definition of_nat (n : nat) : Number := of_Z (Z.of_nat n).

Definition div : Number -> Number -> Number := SFdiv prec emax.
Definition mul : Number -> Number -> Number := SFmul prec emax.

(** [Math.round]: the nearest integer, ties towards plus infinity, that is
    [floor (x + 1/2)] taken exactly; zeros, infinities and NaN are
    returned as they are. *)
Definition Math_round (x : Number) : Number :=
  match x with
  | S754_finite s m e =>
      let n := cond_Zopp s (Zpos m) in
      let r := if (0 <=? e)%Z then (n * 2 ^ e)%Z
               else ((2 * n + 2 ^ (- e)) / 2 ^ (1 - e))%Z in
      binary_normalize prec emax r 0 s
  | _ => x
  end.

(** Truthiness of a number: every number but the zeros and NaN. *)
Definition truthy (x : Number) : bool :=
  match x with
  | S754_zero _ | S754_nan => false
  | _ => true
  end.

End Num.

(** ** JavaScript values, as far as [JSON.parse] can produce them *)

#[local] Unset Elimination Schemes.
Inductive JsVal : Type :=
| VUndefined
| VNull
| VBool (b : bool)
| VNum (x : Num.Number)
| VStr (s : string)
| VArr (items : list JsVal)
| VObj (fields : list (string * JsVal)).
#[local] Set Elimination Schemes.

Definition truthy (v : JsVal) : bool :=
  match v with
  | VUndefined | VNull => false
  | VBool b => b
  | VNum x => Num.truthy x
  | VStr s => negb (s =? "")
  | VArr _ | VObj _ => true
  end.

(** [a || b] *)
Definition js_or (a b : JsVal) : JsVal := if truthy a then a else b.

(** [v === 'lit'] for a string literal. *)
Definition strict_eq_str (v : JsVal) (lit : string) : bool :=
  match v with
  | VStr s => s =? lit
  | _ => false
  end.

(** Whether [ToString(v)], as a template literal applies it, completes
    normally.  A primitive always converts.  An object converts through
    [Object.prototype.toString] unless it has an own [toString] key: no
    parsed value is callable, [valueOf] returns no primitive either, and the
    conversion is a [TypeError].  An array converts through [join], which
    converts every element ([null] and [undefined] to the empty string). *)
Fixpoint ToString_ok (v : JsVal) : bool :=
  match v with
  | VArr items => forallb ToString_ok items
  | VObj fields => negb (existsb (fun kv => fst kv =? "toString") fields)
  | _ => true
  end.

(** ** types.ts *)

Inductive PageType := project | work | paper | daily_log.

Inductive BlockType := text | h1 | h2 | todo | bullet.

Definition BlockType_str (t : BlockType) : string :=
  match t with
  | text => "text" | h1 => "h1" | h2 => "h2" | todo => "todo" | bullet => "bullet"
  end.

(** The string of a block kind as a value, the way it sits in a block. *)
Definition kind (t : BlockType) : JsVal := VStr (BlockType_str t).

(** Membership of a run-time value in the closed set [BlockType]. *)
Definition is_BlockType (v : JsVal) : bool :=
  strict_eq_str v "text" || strict_eq_str v "h1" || strict_eq_str v "h2"
  || strict_eq_str v "todo" || strict_eq_str v "bullet".

(** A [Block] at run time.  The interface types [type] as [BlockType],
    [content] as [string] and [checked] as an optional [boolean]; blocks
    built from a parsed reply carry whatever the reply held, so the three
    fields hold values. *)
Module Block.
Record t := mk {
  id : string;
  type : JsVal;
  content : JsVal;
  checked : JsVal
}.
End Block.

(** [Partial<Block>]: a field is [None] when the key is absent. *)
Module PartialBlock.
Record t := mk {
  id : option string;
  type : option JsVal;
  content : option JsVal;
  checked : option JsVal
}.
Definition empty : t := mk None None None None.
End PartialBlock.

Module Page.
Record t := mk {
  id : string;
  type : PageType;
  title : string;
  emoji : string;
  createdAt : Z;
  updatedAt : Z;
  blocks : list Block.t;
  progress : Num.Number
}.
End Page.

(** [Partial<Page>] *)
Module PartialPage.
Record t := mk {
  id : option string;
  type : option PageType;
  title : option string;
  emoji : option string;
  createdAt : option Z;
  updatedAt : option Z;
  blocks : option (list Block.t);
  progress : option Num.Number
}.
Definition empty : t := mk None None None None None None None None.
Definition of_blocks (bs : list Block.t) : t :=
  mk None None None None None None (Some bs) None.
Definition of_title (s : string) : t :=
  mk None None (Some s) None None None None None.
End PartialPage.

(** One key of [{ ...old, ...updates }]: the later object wins when it has
    the key. *)
Definition over {A} (u : option A) (old : A) : A :=
  match u with Some a => a | None => old end.

(** [{ ...b, ...updates }] *)
Definition spread_block (b : Block.t) (u : PartialBlock.t) : Block.t :=
  Block.mk (over (PartialBlock.id u) (Block.id b))
           (over (PartialBlock.type u) (Block.type b))
           (over (PartialBlock.content u) (Block.content b))
           (over (PartialBlock.checked u) (Block.checked b)).

(** ** The world: the clock behind [Date.now()] and the generator behind
       [generateId()] *)

Record World := mkWorld {
  clock : nat -> Z;      (* the successive readings of Date.now() *)
  ticks : nat;           (* readings taken so far *)
  idgen : nat -> string; (* the successive results of generateId() *)
  drawn : nat            (* identifiers drawn so far *)
}.

Definition M (A : Type) : Type := World -> A * World.

Definition ret {A} (a : A) : M A := fun w => (a, w).

Definition bind {A B} (m : M A) (k : A -> M B) : M B :=
  fun w => let (a, w') := m w in k a w'.

Declare Scope store_scope.
Delimit Scope store_scope with store.
Notation "x <- m ;; k" := (bind m (fun x => k))
  (at level 100, m at next level, right associativity) : store_scope.
Open Scope store_scope.

Definition Date_now : M Z :=
  fun w => (clock w (ticks w), mkWorld (clock w) (S (ticks w)) (idgen w) (drawn w)).

Definition generateId : M string :=
  fun w => (idgen w (drawn w), mkWorld (clock w) (ticks w) (idgen w) (S (drawn w))).

(** [xs.map(f)] with an effectful callback, left to right. *)
Fixpoint mapM {A B} (f : A -> M B) (xs : list A) : M (list B) :=
  match xs with
  | [] => ret []
  | x :: r => y <- f x ;; ys <- mapM f r ;; ret (y :: ys)
  end.

(** ** App.tsx: the component state *)

Record Store := mkStore {
  pages : list Page.t;
  selectedPageId : option string;
  isGenerating : bool
}.

Definition setPages (ps : list Page.t) (st : Store) : Store :=
  mkStore ps (selectedPageId st) (isGenerating st).
Definition setSelectedPageId (s : option string) (st : Store) : Store :=
  mkStore (pages st) s (isGenerating st).
Definition setIsGenerating (g : bool) (st : Store) : Store :=
  mkStore (pages st) (selectedPageId st) g.

(** [pages.find(p => p.id === id)] *)
Definition find_page (id : string) (ps : list Page.t) : option Page.t :=
  find (fun p => Page.id p =? id) ps.

(** [selectedPage] *)
Definition selectedPage (st : Store) : option Page.t :=
  match selectedPageId st with
  | Some id => find_page id (pages st)
  | None => None
  end.

(** The two mock pages the component starts from, as functions of the
    readings of [Date.now()] taken when the module is loaded. *)
Definition mock_page1 (created updated : Z) : Page.t :=
  Page.mk "1" project "Website Redesign" "ðŸŽ¨" created updated
    [ Block.mk "b1" (kind h1) (VStr "Project Goals") VUndefined;
      Block.mk "b2" (kind text)
        (VStr "We need to modernize the look and feel of the landing page.")
        VUndefined;
      Block.mk "b3" (kind h2) (VStr "Tasks") VUndefined;
      Block.mk "b4" (kind todo) (VStr "Research competitors") (VBool true);
      Block.mk "b5" (kind todo) (VStr "Draft wireframes") (VBool false) ]
    (Num.of_Z 35).

Definition mock_page2 (now updated : Z) : Page.t :=
  Page.mk "2" daily_log "March 15, 2024" "ðŸ“…" (now - 86400000) updated
    [ Block.mk "l1" (kind h1) (VStr "Morning Reflection") VUndefined;
      Block.mk "l2" (kind text)
        (VStr "Started the day with a clear mind. Focused on the API integration.")
        VUndefined;
      Block.mk "l3" (kind todo) (VStr "Gym session") (VBool true) ]
    (Num.of_Z 100).

Definition INITIAL_PAGES : M (list Page.t) :=
  c1 <- Date_now ;; u1 <- Date_now ;; c2 <- Date_now ;; u2 <- Date_now ;;
  ret [ mock_page1 c1 u1; mock_page2 c2 u2 ].

Definition initial_store : M Store :=
  ps <- INITIAL_PAGES ;; ret (mkStore ps None false).

(** *** Handlers

    A handler runs against the state of the latest render: the [pages] it
    closed over and the [prev] its [setPages] updater receives are the same
    list, [pages st]. *)

Definition createPage (type : PageType) (st : Store) : M Store :=
  id <- generateId ;;
  created <- Date_now ;;
  updated <- Date_now ;;
  bid <- generateId ;;
  let newPage :=
    Page.mk id type ""
            (match type with daily_log => "ðŸ“…" | _ => "ðŸ“„" end)
            created updated
            [ Block.mk bid (kind h1) (VStr "") VUndefined ]
            (Num.of_Z 0) in
  ret (setSelectedPageId (Some (Page.id newPage))
         (setPages (newPage :: pages st) st)).

Definition is_todo (b : Block.t) : bool := strict_eq_str (Block.type b) "todo".
Definition is_checked (b : Block.t) : bool := truthy (Block.checked b).

(** The percentage the updater computes:
    [Math.round((completed / todos.length) * 100)]. *)
Definition percent (completed total : nat) : Num.Number :=
  Num.Math_round (Num.mul (Num.div (Num.of_nat completed) (Num.of_nat total))
                          (Num.of_Z 100)).

(** The body of the updater for the page that matches. *)
Definition updated_page (p : Page.t) (updates : PartialPage.t) (now : Z) : Page.t :=
  let blocks' := over (PartialPage.blocks updates) (Page.blocks p) in
  let progress' := over (PartialPage.progress updates) (Page.progress p) in
  let progress'' :=
    match PartialPage.blocks updates with
    | Some _ =>
        let todos := filter is_todo blocks' in
        if (0 <? List.length todos)%nat then
          let completed := List.length (filter is_checked todos) in
          percent completed (List.length todos)
        else progress'
    | None => progress'
    end in
  Page.mk (over (PartialPage.id updates) (Page.id p))
          (over (PartialPage.type updates) (Page.type p))
          (over (PartialPage.title updates) (Page.title p))
          (over (PartialPage.emoji updates) (Page.emoji p))
          (over (PartialPage.createdAt updates) (Page.createdAt p))
          now
          blocks'
          progress''.

Definition update_one (id : string) (updates : PartialPage.t) (p : Page.t) : M Page.t :=
  if negb (Page.id p =? id) then ret p
  else now <- Date_now ;; ret (updated_page p updates now).

Definition updatePage (id : string) (updates : PartialPage.t) (st : Store) : M Store :=
  ps <- mapM (update_one id updates) (pages st) ;;
  ret (setPages ps st).

Definition deletePage (id : string) (st : Store) : M Store :=
  let st1 := setPages (filter (fun p => negb (Page.id p =? id)) (pages st)) st in
  ret (match selectedPageId st with
       | Some sel => if sel =? id then setSelectedPageId None st1 else st1
       | None => st1
       end).

Definition updateBlock (pageId blockId : string) (updates : PartialBlock.t)
    (st : Store) : M Store :=
  match find_page pageId (pages st) with
  | None => ret st
  | Some page =>
      let newBlocks :=
        map (fun b => if Block.id b =? blockId then spread_block b updates else b)
            (Page.blocks page) in
      updatePage pageId (PartialPage.of_blocks newBlocks) st
  end.

(** [blocks.findIndex(b => b.id === afterBlockId)], [-1] when none matches. *)
Fixpoint findIndex (afterBlockId : string) (bs : list Block.t) : Z :=
  match bs with
  | [] => -1
  | b :: r =>
      if Block.id b =? afterBlockId then 0
      else let i := findIndex afterBlockId r in
           if (i <? 0)%Z then -1 else (i + 1)%Z
  end.

(** [xs.splice(start, 0, x)] on a copy: a negative [start] counts from the
    end and stops at [0], a [start] past the end stops at the length. *)
Definition splice_insert {A} (start : Z) (x : A) (xs : list A) : list A :=
  let len := Z.of_nat (List.length xs) in
  let k := if (start <? 0)%Z then Z.max (len + start) 0 else Z.min start len in
  firstn (Z.to_nat k) xs ++ x :: skipn (Z.to_nat k) xs.

Definition addBlock (pageId afterBlockId : string) (st : Store) : M Store :=
  match find_page pageId (pages st) with
  | None => ret st
  | Some page =>
      let index := findIndex afterBlockId (Page.blocks page) in
      id <- generateId ;;
      let newBlock := Block.mk id (kind text) (VStr "") VUndefined in
      let newBlocks := splice_insert (index + 1) newBlock (Page.blocks page) in
      updatePage pageId (PartialPage.of_blocks newBlocks) st
  end.

Definition deleteBlock (pageId blockId : string) (st : Store) : M Store :=
  match find_page pageId (pages st) with
  | None => ret st
  | Some page =>
      if (List.length (Page.blocks page) <=? 1)%nat then ret st
      else updatePage pageId
             (PartialPage.of_blocks
                (filter (fun b => negb (Block.id b =? blockId)) (Page.blocks page)))
             st
  end.

(** ** services/geminiService.ts *)

(** How a piece of code ends: with a value, or by throwing. *)
Inductive Completion (A : Type) : Type :=
| Normal (a : A)
| Throw.
Arguments Normal {A} a.
Arguments Throw {A}.

Definition ME (A : Type) : Type := M (Completion A).

Definition retE {A} (a : A) : ME A := ret (Normal a).

Definition bindE {A B} (m : ME A) (k : A -> ME B) : ME B :=
  r <- m ;; match r with Normal a => k a | Throw => ret Throw end.

Notation "x <-! m ;; k" := (bindE m (fun x => k))
  (at level 100, m at next level, right associativity) : store_scope.

(** [try { body } catch (error) { handler }] *)
Definition try_catch {A} (body handler : ME A) : ME A :=
  r <- body ;; match r with Normal a => retE a | Throw => handler end.

(** [xs.map(f)] with a callback that may throw: the first throw ends it. *)
Fixpoint mapME {A B} (f : A -> ME B) (xs : list A) : ME (list B) :=
  match xs with
  | [] => retE []
  | x :: r => y <-! f x ;; ys <-! mapME f r ;; retE (y :: ys)
  end.

(** [rawBlocks.map(f)]: only an array has [map]; on anything else the call
    is a [TypeError]. *)
Definition array_map {B} (f : JsVal -> ME B) (rawBlocks : JsVal) : ME (list B) :=
  match rawBlocks with
  | VArr items => mapME f items
  | _ => ret Throw
  end.

Fixpoint lookup (k : string) (fields : list (string * JsVal)) : JsVal :=
  match fields with
  | [] => VUndefined
  | (k', v) :: r => if k' =? k then v else lookup k r
  end.

(** [b.k] for the keys the client reads ([type], [content], [checked]):
    a [TypeError] on [null] and [undefined], the field of an object,
    [undefined] on every other value. *)
Definition prop (b : JsVal) (k : string) : ME JsVal :=
  match b with
  | VUndefined | VNull => ret Throw
  | VObj fields => retE (lookup k fields)
  | _ => retE VUndefined
  end.

(** What the awaited [ai.models.generateContent] call and the [JSON.parse]
    after it come to.  The prompt only travels to the service; the reply is
    an input of the model. *)
Inductive Reply :=
| Rejected                (* the request fails: network, quota *)
| NoText                  (* [response.text] is empty: ['[]'] is parsed *)
| BadText                 (* [JSON.parse] throws a [SyntaxError] *)
| Parsed (v : JsVal).     (* [JSON.parse] returns [v] *)

(** [const rawBlocks = JSON.parse(response.text || '[]')], after the await. *)
Definition rawBlocks_of (r : Reply) : ME JsVal :=
  match r with
  | Rejected => ret Throw
  | NoText => retE (VArr [])
  | BadText => ret Throw
  | Parsed v => retE v
  end.

Definition notice (id : string) (msg : string) : Block.t :=
  Block.mk id (kind text) (VStr msg) VUndefined.

(** Whether [`${b.type}: ${b.content}`] can be built for every block. *)
Definition context_ok (currentBlocks : list Block.t) : bool :=
  forallb (fun b => ToString_ok (Block.type b) && ToString_ok (Block.content b))
          currentBlocks.

(** [const context = currentBlocks.map(b => `${b.type}: ${b.content}`).join('\n')].
    The text only travels to the service, inside the prompt; what the caller
    sees of this statement is whether a conversion throws. *)
Definition context_of (currentBlocks : list Block.t) : ME unit :=
  if context_ok currentBlocks then retE tt else ret Throw.

Section Client.

(** [process.env.API_KEY] *)
Variable API_KEY : option string.

Definition has_key : bool :=
  match API_KEY with Some k => negb (k =? "") | None => false end.

Definition breakdown_block (b : JsVal) : ME Block.t :=
  id <- generateId ;;
  type <-! prop b "type" ;;
  content <-! prop b "content" ;;
  checked <-! prop b "checked" ;;
  retE (Block.mk id type content (js_or checked (VBool false))).

Definition generatePageBreakdown (title context : string) (reply : Reply)
  : ME (list Block.t) :=
  if negb has_key then
    id <- generateId ;;
    retE [ notice id "API Key missing. Please configure your environment." ]
  else
    try_catch
      (rawBlocks <-! rawBlocks_of reply ;;
       array_map breakdown_block rawBlocks)
      (id <- generateId ;;
       retE [ notice id "Failed to generate plan. Please try again." ]).

Definition suggestion_block (b : JsVal) : ME Block.t :=
  id <- generateId ;;
  content <-! prop b "content" ;;
  retE (Block.mk id (kind todo) content (VBool false)).

Definition suggestNextSteps (currentBlocks : list Block.t) (reply : Reply)
  : ME (list Block.t) :=
  if negb has_key then retE []
  else
    context <-! context_of currentBlocks ;;
    try_catch
      (rawBlocks <-! rawBlocks_of reply ;;
       array_map suggestion_block rawBlocks)
      (retE []).

(** *** The two handlers of App.tsx that call the client.

    [sel] is the [selectedPage] the handler closed over when it was
    started, [st] the state its [setPages] updater is applied to.  The
    [finally] clause runs on both ways out. *)

Definition handleAiBreakdown (sel : option Page.t) (reply : Reply) (st : Store)
  : M (Store * Completion unit) :=
  match sel with
  | None => ret (st, Normal tt)
  | Some sp =>
      let st1 := setIsGenerating true st in
      r <- generatePageBreakdown
             (if Page.title sp =? "" then "Untitled" else Page.title sp)
             "General project breakdown" reply ;;
      match r with
      | Normal generatedBlocks =>
          st2 <- updatePage (Page.id sp)
                   (PartialPage.of_blocks (Page.blocks sp ++ generatedBlocks)) st1 ;;
          ret (setIsGenerating false st2, Normal tt)
      | Throw => ret (setIsGenerating false st1, Throw)
      end
  end.

Definition handleAiSuggest (sel : option Page.t) (reply : Reply) (st : Store)
  : M (Store * Completion unit) :=
  match sel with
  | None => ret (st, Normal tt)
  | Some sp =>
      let st1 := setIsGenerating true st in
      r <- suggestNextSteps (Page.blocks sp) reply ;;
      match r with
      | Normal suggestions =>
          if (0 <? List.length suggestions)%nat then
            id <- generateId ;;
            let header := Block.mk id (kind h2) (VStr "AI Suggestions") VUndefined in
            st2 <- updatePage (Page.id sp)
                     (PartialPage.of_blocks
                        (Page.blocks sp ++ header :: suggestions)) st1 ;;
            ret (setIsGenerating false st2, Normal tt)
          else ret (setIsGenerating false st1, Normal tt)
      | Throw => ret (setIsGenerating false st1, Throw)
      end
  end.

(** *** What the interface can ask of the store, one event at a time *)

Inductive Op :=
| OpCreatePage (type : PageType)
| OpUpdatePage (id : string) (updates : PartialPage.t)
| OpDeletePage (id : string)
| OpSelect (id : option string)
| OpUpdateBlock (pageId blockId : string) (updates : PartialBlock.t)
| OpAddBlock (pageId afterBlockId : string)
| OpDeleteBlock (pageId blockId : string)
| OpAiBreakdown (reply : Reply)
| OpAiSuggest (reply : Reply).

Definition step (op : Op) (st : Store) : M Store :=
  match op with
  | OpCreatePage type => createPage type st
  | OpUpdatePage id updates => updatePage id updates st
  | OpDeletePage id => deletePage id st
  | OpSelect id => ret (setSelectedPageId id st)
  | OpUpdateBlock pageId blockId updates => updateBlock pageId blockId updates st
  | OpAddBlock pageId afterBlockId => addBlock pageId afterBlockId st
  | OpDeleteBlock pageId blockId => deleteBlock pageId blockId st
  | OpAiBreakdown reply =>
      r <- handleAiBreakdown (selectedPage st) reply st ;; ret (fst r)
  | OpAiSuggest reply =>
      r <- handleAiSuggest (selectedPage st) reply st ;; ret (fst r)
  end.

Fixpoint run (ops : list Op) (st : Store) : M Store :=
  match ops with
  | [] => ret st
  | op :: rest => st' <- step op st ;; run rest st'
  end.

End Client.

(** ** A concrete world for the examples *)

(** A clock that starts at [1000] and advances one millisecond per reading,
    and a generator whose [n]-th identifier is [g] followed by the digits of
    [n]. *)
Definition world0 : World :=
  mkWorld (fun n => 1000 + Z.of_nat n)%Z 0
          (fun n => "g" ++ NilEmpty.string_of_uint (Nat.to_uint n)) 0.

Definition store0 : Store := fst (initial_store world0).
Definition world1 : World := snd (initial_store world0).

(** * Properties *)

(** ** The updater of [updatePage], page by page *)

(** What [updatePage id updates] makes of one page. *)
Definition upd_rel (id : string) (updates : PartialPage.t) (p p' : Page.t) : Prop :=
  if Page.id p =? id then exists now, p' = updated_page p updates now
  else p' = p.

(** The parts of the world a handler never rewinds or rewrites. *)
Definition world_le (w w' : World) : Prop :=
  clock w' = clock w /\ idgen w' = idgen w /\
  ticks w <= ticks w' /\ drawn w <= drawn w'.

Lemma world_le_refl w : world_le w w.
Proof. unfold world_le; auto. Qed.

Lemma world_le_trans w1 w2 w3 : world_le w1 w2 -> world_le w2 w3 -> world_le w1 w3.
Proof.
  unfold world_le; intros (-> & -> & ? & ?) (-> & -> & ? & ?).
  repeat split; lia.
Qed.

Definition tick (w : World) : World :=
  mkWorld (clock w) (S (ticks w)) (idgen w) (drawn w).

Definition draw (w : World) : World :=
  mkWorld (clock w) (ticks w) (idgen w) (S (drawn w)).

Lemma world_le_tick w : world_le w (tick w).
Proof. unfold world_le, tick; simpl; repeat split; lia. Qed.

Lemma world_le_draw w : world_le w (draw w).
Proof. unfold world_le, draw; simpl; repeat split; lia. Qed.

Lemma update_one_eq id updates p w :
  update_one id updates p w =
  if Page.id p =? id then (updated_page p updates (clock w (ticks w)), tick w)
  else (p, w).
Proof. unfold update_one. destruct (Page.id p =? id); reflexivity. Qed.

Lemma mapM_cons {A B} (f : A -> M B) x r w :
  mapM f (x :: r) w =
  (fst (f x w) :: fst (mapM f r (snd (f x w))), snd (mapM f r (snd (f x w)))).
Proof.
  simpl. unfold bind. destruct (f x w) as [y w1]; simpl.
  destruct (mapM f r w1); reflexivity.
Qed.

Lemma mapM_update_one id updates ps w :
  Forall2 (upd_rel id updates) ps (fst (mapM (update_one id updates) ps w)) /\
  world_le w (snd (mapM (update_one id updates) ps w)) /\
  drawn (snd (mapM (update_one id updates) ps w)) = drawn w.
Proof.
  revert w; induction ps as [|p ps IH]; intro w.
  - simpl. split; [constructor | split; [apply world_le_refl | reflexivity]].
  - rewrite mapM_cons, update_one_eq. simpl fst; simpl snd.
    destruct (Page.id p =? id) eqn:E; simpl fst; simpl snd.
    + destruct (IH (tick w)) as (F & L & D).
      split; [|split].
      * constructor; [|exact F]. unfold upd_rel. rewrite E. eauto.
      * apply world_le_trans with (tick w); [apply world_le_tick | exact L].
      * rewrite D. reflexivity.
    + destruct (IH w) as (F & L & D).
      split; [|split]; auto.
      constructor; [|exact F]. unfold upd_rel. rewrite E. reflexivity.
Qed.

Lemma updatePage_spec id updates st w :
  Forall2 (upd_rel id updates) (pages st) (pages (fst (updatePage id updates st w))) /\
  selectedPageId (fst (updatePage id updates st w)) = selectedPageId st /\
  isGenerating (fst (updatePage id updates st w)) = isGenerating st /\
  world_le w (snd (updatePage id updates st w)) /\
  drawn (snd (updatePage id updates st w)) = drawn w.
Proof.
  unfold updatePage, bind.
  pose proof (mapM_update_one id updates (pages st) w) as H.
  destruct (mapM (update_one id updates) (pages st) w) as [ps' w']; simpl in *.
  tauto.
Qed.

(** [find_page] after an update that leaves identifiers alone. *)
Lemma find_page_upd id updates ps ps' page :
  Forall2 (upd_rel id updates) ps ps' ->
  find_page id ps = Some page ->
  PartialPage.id updates = None ->
  exists now, find_page id ps' = Some (updated_page page updates now).
Proof.
  intros F Hf0 Hid; revert Hf0; induction F as [|p p' ps ps' R F IH]; simpl; [discriminate|].
  unfold upd_rel in R. intro Hf.
  destruct (Page.id p =? id) eqn:E.
  - injection Hf as <-. destruct R as [now ->]. exists now.
    unfold updated_page at 1; simpl. rewrite Hid; simpl. rewrite E. reflexivity.
  - subst p'. rewrite E. auto.
Qed.

Lemma find_page_id id ps page : find_page id ps = Some page -> Page.id page = id.
Proof.
  unfold find_page; intro H. apply find_some in H. apply String.eqb_eq, H.
Qed.

Lemma find_page_In id ps page : find_page id ps = Some page -> In page ps.
Proof. unfold find_page; intro H. apply find_some in H. apply H. Qed.

(** ** createPage *)

(** C9 (as the code has it).  [createPage type] puts in front of the page
    collection a new page whose progress is [0] and whose block list is
    exactly one [h1] block with empty content, and selects it.  The call
    reads the clock twice: [createdAt] is the first reading and [updatedAt]
    the second.  The two are equal exactly when the clock shows the same
    time at both readings, and [createdAt] is not after [updatedAt] when the
    clock has not gone back in between. *)
Theorem createPage_spec (type : PageType) (st : Store) (w : World) :
  let st' := fst (createPage type st w) in
  let w' := snd (createPage type st w) in
  let now1 := fst (Date_now w) in
  let now2 := fst (Date_now (snd (Date_now w))) in
  exists newPage bid,
    pages st' = newPage :: pages st /\
    selectedPageId st' = Some (Page.id newPage) /\
    Page.type newPage = type /\
    Page.progress newPage = Num.of_Z 0 /\
    Page.createdAt newPage = now1 /\
    Page.updatedAt newPage = now2 /\
    now1 = clock w (ticks w) /\
    now2 = clock w (S (ticks w)) /\
    ticks w' = ticks w + 2 /\
    (Page.createdAt newPage = Page.updatedAt newPage <->
     clock w (ticks w) = clock w (S (ticks w))) /\
    ((clock w (ticks w) <= clock w (S (ticks w)))%Z ->
     (Page.createdAt newPage <= Page.updatedAt newPage)%Z) /\
    Page.blocks newPage = [ Block.mk bid (kind h1) (VStr "") VUndefined ] /\
    List.length (Page.blocks newPage) = 1.
Proof.
  simpl. eexists. eexists.
  repeat match goal with |- _ /\ _ => split end;
    try reflexivity; simpl; try tauto; lia.
Qed.

(** C9, two different timestamps: [createdAt] and [updatedAt] of a new page
    need not be one and the same time.  With the clock of the examples,
    which moves on by one at every reading, the page gets [1004] and
    [1005]. *)
Lemma createPage_timestamps_differ :
  exists newPage,
    pages (fst (createPage project store0 world1)) = newPage :: pages store0 /\
    Page.createdAt newPage = 1004%Z /\
    Page.updatedAt newPage = 1005%Z /\
    (Page.createdAt newPage <? Page.updatedAt newPage)%Z = true.
Proof. eexists. split; [reflexivity|]. repeat split. Qed.

(** ** addBlock with an anchor that is not in the page *)

Lemma findIndex_nonneg a bs : (-1 <= findIndex a bs)%Z.
Proof.
  induction bs as [|b bs IH]; simpl; [lia|].
  destruct (Block.id b =? a); [lia|].
  destruct (findIndex a bs <? 0)%Z; lia.
Qed.

Lemma findIndex_absent a bs :
  (forall b, In b bs -> Block.id b <> a) -> findIndex a bs = (-1)%Z.
Proof.
  induction bs as [|b bs IH]; simpl; intro H; [reflexivity|].
  destruct (Block.id b =? a) eqn:E.
  - apply String.eqb_eq in E. exfalso. apply (H b); auto.
  - rewrite IH by auto. reflexivity.
Qed.

Lemma splice_insert_0 {A} (x : A) xs : splice_insert 0 x xs = x :: xs.
Proof.
  unfold splice_insert. simpl.
  replace (Z.to_nat (Z.min 0 (Z.of_nat (List.length xs)))) with 0%nat by lia.
  reflexivity.
Qed.

(** C1 (what the code does).  When [afterBlockId] matches no block of the
    page, [findIndex] is [-1], [splice(0, 0, newBlock)] runs, and the page
    comes out with the new paragraph in front of all its former blocks. *)
Theorem addBlock_unknown_anchor_prepends
    (pageId afterBlockId : string) (st : Store) (w : World) (page : Page.t) :
  find_page pageId (pages st) = Some page ->
  (forall b, In b (Page.blocks page) -> Block.id b <> afterBlockId) ->
  exists page',
    find_page pageId (pages (fst (addBlock pageId afterBlockId st w))) = Some page' /\
    Page.blocks page' =
      Block.mk (idgen w (drawn w)) (kind text) (VStr "") VUndefined :: Page.blocks page /\
    List.length (Page.blocks page') = S (List.length (Page.blocks page)).
Proof.
  intros Hf Habs. unfold addBlock. rewrite Hf.
  unfold bind, generateId. cbv beta iota.
  rewrite (findIndex_absent _ _ Habs). change (-1 + 1)%Z with 0%Z.
  rewrite splice_insert_0.
  match goal with |- context [updatePage ?i ?u ?s ?w'] =>
    destruct (updatePage_spec i u s w') as (F & _);
    destruct (find_page_upd _ _ _ _ _ F Hf eq_refl) as [now Hn]
  end.
  eexists. split; [exact Hn|]. simpl. split; reflexivity.
Qed.

Lemma addBlock_unknown_anchor_witness :
  exists page',
    find_page "1" (pages (fst (addBlock "1" "nope" store0 world1))) = Some page' /\
    map Block.id (Page.blocks page') = ["g0"; "b1"; "b2"; "b3"; "b4"; "b5"].
Proof.
  destruct (addBlock_unknown_anchor_prepends "1" "nope" store0 world1
              (mock_page1 1000 1001))
    as (page' & Hf & Hb & _).
  - reflexivity.
  - simpl. intros b [<-|[<-|[<-|[<-|[<-|[]]]]]]; discriminate.
  - exists page'. split; [exact Hf|]. rewrite Hb. reflexivity.
Defined.

(** ** Handlers that touch a page only through [updatePage] *)

(** [p'] is [p], or [p] after an updater run with partial fields in [P]. *)
Definition touched (P : PartialPage.t -> Prop) (p p' : Page.t) : Prop :=
  p' = p \/ exists updates now, P updates /\ p' = updated_page p updates now.

Definition only_blocks (updates : PartialPage.t) : Prop :=
  exists bs, updates = PartialPage.of_blocks bs.

Lemma Forall2_impl {A B} (R S : A -> B -> Prop) xs ys :
  (forall x y, R x y -> S x y) -> Forall2 R xs ys -> Forall2 S xs ys.
Proof. intros H F; induction F; constructor; auto. Qed.

Lemma Forall2_refl {A} (R : A -> A -> Prop) xs :
  (forall x, R x x) -> Forall2 R xs xs.
Proof. intro H; induction xs; constructor; auto. Qed.

Lemma upd_rel_touched (P : PartialPage.t -> Prop) id updates p p' :
  P updates -> upd_rel id updates p p' -> touched P p p'.
Proof.
  unfold upd_rel, touched. intros HP H.
  destruct (Page.id p =? id); [|auto].
  destruct H as [now ->]. right. eauto.
Qed.

Lemma updatePage_touched (P : PartialPage.t -> Prop) id updates st w :
  P updates ->
  Forall2 (touched P) (pages st) (pages (fst (updatePage id updates st w))).
Proof.
  intro HP. destruct (updatePage_spec id updates st w) as (F & _).
  eapply Forall2_impl; [|exact F]. intros x y. apply upd_rel_touched, HP.
Qed.

Lemma touched_refl P st : Forall2 (touched P) (pages st) (pages st).
Proof. apply Forall2_refl. intro; left; reflexivity. Qed.

Lemma updateBlock_touched pageId blockId updates st w :
  Forall2 (touched only_blocks) (pages st)
          (pages (fst (updateBlock pageId blockId updates st w))).
Proof.
  unfold updateBlock. destruct (find_page pageId (pages st)).
  - apply updatePage_touched. eexists; reflexivity.
  - apply touched_refl.
Qed.

Lemma addBlock_touched pageId afterBlockId st w :
  Forall2 (touched only_blocks) (pages st)
          (pages (fst (addBlock pageId afterBlockId st w))).
Proof.
  unfold addBlock. destruct (find_page pageId (pages st)).
  - unfold bind, generateId. apply updatePage_touched. eexists; reflexivity.
  - apply touched_refl.
Qed.

Lemma deleteBlock_touched pageId blockId st w :
  Forall2 (touched only_blocks) (pages st)
          (pages (fst (deleteBlock pageId blockId st w))).
Proof.
  unfold deleteBlock. destruct (find_page pageId (pages st)).
  - destruct (List.length (Page.blocks t) <=? 1)%nat.
    + apply touched_refl.
    + apply updatePage_touched. eexists; reflexivity.
  - apply touched_refl.
Qed.

(** ** The generation client *)

(** A raw entry whose fields can be read: anything but [null] and
    [undefined]. *)
Definition has_props (b : JsVal) : bool :=
  match b with
  | VUndefined | VNull => false
  | _ => true
  end.

(** The field a read gives on such an entry. *)
Definition get (b : JsVal) (k : string) : JsVal :=
  match b with
  | VObj fields => lookup k fields
  | _ => VUndefined
  end.

Definition draws (k : nat) (w : World) : World :=
  mkWorld (clock w) (ticks w) (idgen w) (drawn w + k).

Lemma world_le_draws k w : world_le w (draws k w).
Proof. unfold world_le, draws; simpl; repeat split; lia. Qed.

Lemma draws_draw k w : draws k (draw w) = draws (S k) w.
Proof. unfold draws, draw; simpl. f_equal. lia. Qed.

Lemma prop_ok b k w : has_props b = true -> prop b k w = (Normal (get b k), w).
Proof. destruct b; simpl; intro H; try discriminate; reflexivity. Qed.

Lemma prop_throw b k w : has_props b = false -> prop b k w = (Throw, w).
Proof. destruct b; simpl; intro H; try discriminate; reflexivity. Qed.

(** The blocks [map] builds from entries that can all be read, the [i]-th
    with the [i]-th identifier drawn from [n] on. *)
Fixpoint breakdown_blocks (g : nat -> string) (n : nat) (l : list JsVal) : list Block.t :=
  match l with
  | [] => []
  | b :: r =>
      Block.mk (g n) (get b "type") (get b "content")
               (js_or (get b "checked") (VBool false))
      :: breakdown_blocks g (S n) r
  end.

Fixpoint suggestion_blocks (g : nat -> string) (n : nat) (l : list JsVal) : list Block.t :=
  match l with
  | [] => []
  | b :: r =>
      Block.mk (g n) (kind todo) (get b "content") (VBool false)
      :: suggestion_blocks g (S n) r
  end.

Lemma breakdown_block_eq b w :
  breakdown_block b w =
  if has_props b
  then (Normal (Block.mk (idgen w (drawn w)) (get b "type") (get b "content")
                         (js_or (get b "checked") (VBool false))), draw w)
  else (Throw, draw w).
Proof.
  unfold breakdown_block, bindE, bind, generateId, retE, ret.
  destruct (has_props b) eqn:E.
  - rewrite !prop_ok by exact E. reflexivity.
  - rewrite prop_throw by exact E. reflexivity.
Qed.

Lemma suggestion_block_eq b w :
  suggestion_block b w =
  if has_props b
  then (Normal (Block.mk (idgen w (drawn w)) (kind todo) (get b "content")
                         (VBool false)), draw w)
  else (Throw, draw w).
Proof.
  unfold suggestion_block, bindE, bind, generateId, retE, ret.
  destruct (has_props b) eqn:E.
  - rewrite !prop_ok by exact E. reflexivity.
  - rewrite prop_throw by exact E. reflexivity.
Qed.

Lemma mapME_cons {A B} (f : A -> ME B) x r w :
  mapME f (x :: r) w =
  match f x w with
  | (Normal y, w1) =>
      match mapME f r w1 with
      | (Normal ys, w2) => (Normal (y :: ys), w2)
      | (Throw, w2) => (Throw, w2)
      end
  | (Throw, w1) => (Throw, w1)
  end.
Proof.
  simpl. unfold bindE, bind, retE, ret.
  destruct (f x w) as [[y|] w1]; [|reflexivity].
  destruct (mapME f r w1) as [[ys|] w2]; reflexivity.
Qed.

(** The shape of every run of [map] over raw entries: either all entries can
    be read and the blocks are the expected ones, or one cannot and the call
    throws after drawing some identifiers. *)
Section MapRaw.

Variable f : JsVal -> ME Block.t.
Variable blocks_of : (nat -> string) -> nat -> list JsVal -> list Block.t.
Variable mk1 : string -> JsVal -> Block.t.
Hypothesis f_eq : forall b w,
  f b w = if has_props b then (Normal (mk1 (idgen w (drawn w)) b), draw w)
          else (Throw, draw w).
Hypothesis blocks_of_nil : forall g n, blocks_of g n [] = [].
Hypothesis blocks_of_cons : forall g n b r,
  blocks_of g n (b :: r) = mk1 (g n) b :: blocks_of g (S n) r.

Lemma mapME_raw_ok l w :
  forallb has_props l = true ->
  mapME f l w = (Normal (blocks_of (idgen w) (drawn w) l), draws (List.length l) w).
Proof.
  revert w; induction l as [|b r IH]; intros w H.
  - simpl. rewrite blocks_of_nil. unfold retE, ret, draws.
    destruct w; simpl. rewrite Nat.add_0_r. reflexivity.
  - simpl in H. apply andb_prop in H as [Hb Hr].
    rewrite mapME_cons, f_eq, Hb, (IH (draw w) Hr), blocks_of_cons.
    rewrite draws_draw. reflexivity.
Qed.

Lemma mapME_raw_throw l w :
  forallb has_props l = false ->
  exists k, mapME f l w = (Throw, draws k w).
Proof.
  revert w; induction l as [|b r IH]; intros w H; [discriminate|].
  simpl in H. rewrite mapME_cons, f_eq.
  destruct (has_props b) eqn:Hb; simpl in H.
  - destruct (IH (draw w) H) as [k Hk]. rewrite Hk, draws_draw. eauto.
  - exists 1. unfold draws, draw. rewrite Nat.add_1_r. reflexivity.
Qed.

End MapRaw.

Definition mapME_breakdown_ok :=
  mapME_raw_ok breakdown_block breakdown_blocks
    (fun id b => Block.mk id (get b "type") (get b "content")
                          (js_or (get b "checked") (VBool false)))
    breakdown_block_eq (fun _ _ => eq_refl) (fun _ _ _ _ => eq_refl).

Definition mapME_breakdown_throw :=
  mapME_raw_throw breakdown_block
    (fun id b => Block.mk id (get b "type") (get b "content")
                          (js_or (get b "checked") (VBool false)))
    breakdown_block_eq.

Definition mapME_suggestion_ok :=
  mapME_raw_ok suggestion_block suggestion_blocks
    (fun id b => Block.mk id (kind todo) (get b "content") (VBool false))
    suggestion_block_eq (fun _ _ => eq_refl) (fun _ _ _ _ => eq_refl).

Definition mapME_suggestion_throw :=
  mapME_raw_throw suggestion_block
    (fun id b => Block.mk id (kind todo) (get b "content") (VBool false))
    suggestion_block_eq.

(** The array a reply hands to [map], when it hands one whose entries can
    all be read. *)
Definition usable_items (reply : Reply) : option (list JsVal) :=
  match reply with
  | NoText => Some []
  | Parsed (VArr l) => if forallb has_props l then Some l else None
  | _ => None
  end.


Definition msg_no_key : string := "API Key missing. Please configure your environment.".
Definition msg_failed : string := "Failed to generate plan. Please try again.".

Lemma draws_0 w : draws 0 w = w.
Proof. unfold draws. destruct w; simpl. rewrite Nat.add_0_r. reflexivity. Qed.

Lemma draw_draws k w : draw (draws k w) = draws (S k) w.
Proof. unfold draws, draw; simpl. f_equal. lia. Qed.

Lemma generatePageBreakdown_shape key title context reply w :
  (has_key key = false /\
   generatePageBreakdown key title context reply w =
     (Normal [notice (idgen w (drawn w)) msg_no_key], draws 1 w)) \/
  (has_key key = true /\ exists l,
     usable_items reply = Some l /\
     generatePageBreakdown key title context reply w =
       (Normal (breakdown_blocks (idgen w) (drawn w) l), draws (List.length l) w)) \/
  (has_key key = true /\ usable_items reply = None /\ exists k,
     generatePageBreakdown key title context reply w =
       (Normal [notice (idgen w (drawn w + k)) msg_failed], draws (S k) w)).
Proof.
  unfold generatePageBreakdown. destruct (has_key key) eqn:K; simpl negb; cbv iota.
  2:{ left. split; [reflexivity|]. unfold bind, generateId, retE, ret, draws.
      rewrite Nat.add_1_r. reflexivity. }
  right.
  assert (Hthrow : forall k body,
            body w = (Throw, draws k w) ->
            try_catch body
              (id <- generateId ;; retE [notice id "Failed to generate plan. Please try again."]) w
            = (Normal [notice (idgen w (drawn w + k)) msg_failed], draws (S k) w)).
  { intros k body Hb. unfold try_catch, bind. rewrite Hb.
    unfold generateId, retE, ret. simpl. rewrite <- draw_draws. reflexivity. }
  assert (Hok : forall l,
            forallb has_props l = true ->
            try_catch (rawBlocks <-! retE (VArr l) ;; array_map breakdown_block rawBlocks)
              (id <- generateId ;; retE [notice id "Failed to generate plan. Please try again."]) w
            = (Normal (breakdown_blocks (idgen w) (drawn w) l), draws (List.length l) w)).
  { intros l Hl. unfold try_catch, bindE, bind, retE, ret. simpl array_map.
    rewrite (mapME_breakdown_ok l w Hl). reflexivity. }
  destruct reply as [| | |v]; simpl rawBlocks_of.
  - right. split; [reflexivity|]. split; [reflexivity|]. exists 0.
    apply Hthrow. unfold bindE, bind, ret. rewrite draws_0. reflexivity.
  - left. split; [reflexivity|]. exists []. split; [reflexivity|]. apply (Hok []). reflexivity.
  - right. split; [reflexivity|]. split; [reflexivity|]. exists 0.
    apply Hthrow. unfold bindE, bind, ret. rewrite draws_0. reflexivity.
  - destruct v as [| | b | x | s | l | fs];
      try (right; split; [reflexivity|]; split; [reflexivity|]; exists 0;
           apply Hthrow; unfold bindE, bind, retE, ret; simpl; rewrite draws_0; reflexivity).
    simpl usable_items. destruct (forallb has_props l) eqn:Hl.
    + left. split; [reflexivity|]. exists l. split; [reflexivity|]. apply Hok, Hl.
    + right. split; [reflexivity|]. split; [reflexivity|].
      destruct (mapME_breakdown_throw l w Hl) as [k Hk]. exists k.
      apply Hthrow. unfold bindE, bind, retE, ret. simpl. exact Hk.
Qed.

Lemma suggestNextSteps_context key currentBlocks reply w :
  has_key key = true ->
  suggestNextSteps key currentBlocks reply w =
  if context_ok currentBlocks
  then try_catch (rawBlocks <-! rawBlocks_of reply ;;
                  array_map suggestion_block rawBlocks) (retE []) w
  else (Throw, w).
Proof.
  intro K. unfold suggestNextSteps. rewrite K. simpl negb. cbv iota.
  unfold bindE at 1, bind at 1, context_of.
  destruct (context_ok currentBlocks); reflexivity.
Qed.

Lemma suggestNextSteps_shape key currentBlocks reply w :
  (has_key key = true /\ context_ok currentBlocks = true /\ exists l,
     usable_items reply = Some l /\
     suggestNextSteps key currentBlocks reply w =
       (Normal (suggestion_blocks (idgen w) (drawn w) l), draws (List.length l) w)) \/
  ((has_key key = false \/
    (context_ok currentBlocks = true /\ usable_items reply = None)) /\ exists k,
     suggestNextSteps key currentBlocks reply w = (Normal [], draws k w)) \/
  (has_key key = true /\ context_ok currentBlocks = false /\
   suggestNextSteps key currentBlocks reply w = (Throw, w)).
Proof.
  destruct (has_key key) eqn:K.
  2:{ right; left. split; [left; reflexivity|]. exists 0. rewrite draws_0.
      unfold suggestNextSteps. rewrite K. reflexivity. }
  rewrite (suggestNextSteps_context key currentBlocks reply w K).
  destruct (context_ok currentBlocks) eqn:C.
  2:{ right; right. auto. }
  assert (Hthrow : forall k body,
            body w = (Throw, draws k w) ->
            try_catch body (retE []) w = (Normal (@nil Block.t), draws k w)).
  { intros k body Hb. unfold try_catch, bind. rewrite Hb. reflexivity. }
  assert (Hok : forall l,
            forallb has_props l = true ->
            try_catch (rawBlocks <-! retE (VArr l) ;; array_map suggestion_block rawBlocks)
              (retE []) w
            = (Normal (suggestion_blocks (idgen w) (drawn w) l), draws (List.length l) w)).
  { intros l Hl. unfold try_catch, bindE, bind, retE, ret. simpl array_map.
    rewrite (mapME_suggestion_ok l w Hl). reflexivity. }
  destruct reply as [| | |v]; simpl rawBlocks_of.
  - right; left. split; [right; auto|]. exists 0.
    apply Hthrow. unfold bindE, bind, ret. rewrite draws_0. reflexivity.
  - left. split; [reflexivity|]. split; [reflexivity|].
    exists []. split; [reflexivity|]. apply (Hok []). reflexivity.
  - right; left. split; [right; auto|]. exists 0.
    apply Hthrow. unfold bindE, bind, ret. rewrite draws_0. reflexivity.
  - destruct v as [| | b | x | s | l | fs];
      try (right; left; split; [right; auto|]; exists 0;
           apply Hthrow; unfold bindE, bind, retE, ret; simpl; rewrite draws_0; reflexivity).
    simpl usable_items. destruct (forallb has_props l) eqn:Hl.
    + left. split; [reflexivity|]. split; [reflexivity|].
      exists l. split; [reflexivity|]. apply Hok, Hl.
    + right; left. split; [right; auto|].
      destruct (mapME_suggestion_throw l w Hl) as [k Hk]. exists k.
      apply Hthrow. unfold bindE, bind, retE, ret. simpl. exact Hk.
Qed.

(** The call either resolves, having drawn some identifiers, or rejects
    before anything is drawn. *)
Lemma suggestNextSteps_cases key currentBlocks reply w :
  (exists suggestions k,
      suggestNextSteps key currentBlocks reply w = (Normal suggestions, draws k w)) \/
  suggestNextSteps key currentBlocks reply w = (Throw, w).
Proof.
  destruct (suggestNextSteps_shape key currentBlocks reply w)
    as [(_ & _ & l & _ & E) | [(_ & k & E) | (_ & _ & E)]]; rewrite E; eauto.
Qed.

(** What [updatePage id { blocks }] makes of one page, as far as the block
    list goes. *)
Definition sets_blocks (id : string) (bs : list Block.t) (p p' : Page.t) : Prop :=
  if Page.id p =? id then Page.blocks p' = bs else p' = p.

Lemma updatePage_sets_blocks id bs st w :
  Forall2 (sets_blocks id bs) (pages st)
          (pages (fst (updatePage id (PartialPage.of_blocks bs) st w))).
Proof.
  destruct (updatePage_spec id (PartialPage.of_blocks bs) st w) as (F & _).
  eapply Forall2_impl; [|exact F]. intros p p'. unfold upd_rel, sets_blocks.
  destruct (Page.id p =? id); [|auto]. intros [now ->]. reflexivity.
Qed.

Lemma handleAiBreakdown_eq key sp reply st w generated w1 :
  generatePageBreakdown key
    (if Page.title sp =? "" then "Untitled" else Page.title sp)
    "General project breakdown" reply w = (Normal generated, w1) ->
  handleAiBreakdown key (Some sp) reply st w =
  ((setIsGenerating false
      (fst (updatePage (Page.id sp)
              (PartialPage.of_blocks (Page.blocks sp ++ generated))
              (setIsGenerating true st) w1)),
    Normal tt),
   snd (updatePage (Page.id sp)
          (PartialPage.of_blocks (Page.blocks sp ++ generated))
          (setIsGenerating true st) w1)).
Proof.
  intro H. unfold handleAiBreakdown, bind. rewrite H.
  destruct (updatePage _ _ _ w1); reflexivity.
Qed.

Lemma handleAiSuggest_eq key sp reply st w suggestions w1 :
  suggestNextSteps key (Page.blocks sp) reply w = (Normal suggestions, w1) ->
  handleAiSuggest key (Some sp) reply st w =
  match suggestions with
  | [] => ((setIsGenerating false (setIsGenerating true st), Normal tt), w1)
  | _ :: _ =>
      let header := Block.mk (idgen w1 (drawn w1)) (kind h2) (VStr "AI Suggestions")
                             VUndefined in
      let r := updatePage (Page.id sp)
                 (PartialPage.of_blocks (Page.blocks sp ++ header :: suggestions))
                 (setIsGenerating true st) (draw w1) in
      ((setIsGenerating false (fst r), Normal tt), snd r)
  end.
Proof.
  intro H. unfold handleAiSuggest, bind. rewrite H.
  destruct suggestions as [|s r]; [reflexivity|].
  simpl. unfold generateId, draw. cbv zeta.
  destruct (updatePage _ _ _ _). reflexivity.
Qed.

(** When the call rejects, the [finally] clause still runs and the
    rejection goes on to the caller. *)
Lemma handleAiSuggest_throw key sp reply st w w1 :
  suggestNextSteps key (Page.blocks sp) reply w = (Throw, w1) ->
  handleAiSuggest key (Some sp) reply st w =
  ((setIsGenerating false (setIsGenerating true st), Throw), w1).
Proof. intro H. unfold handleAiSuggest, bind. rewrite H. reflexivity. Qed.

Definition block_ids (bs : list Block.t) : list string := map Block.id bs.

(** The generator never repeats itself from now on. *)
Definition fresh_gen (w : World) : Prop :=
  forall i j, drawn w <= i -> drawn w <= j -> idgen w i = idgen w j -> i = j.

Lemma breakdown_blocks_ids g n l :
  block_ids (breakdown_blocks g n l) = map g (seq n (List.length l)).
Proof. revert n; induction l; intro n; simpl; [|rewrite <- IHl]; reflexivity. Qed.

Lemma suggestion_blocks_ids g n l :
  block_ids (suggestion_blocks g n l) = map g (seq n (List.length l)).
Proof. revert n; induction l; intro n; simpl; [|rewrite <- IHl]; reflexivity. Qed.

(** Identifiers drawn one after the other by such a generator are pairwise
    distinct. *)
Lemma fresh_gen_NoDup w n :
  fresh_gen w -> NoDup (map (idgen w) (seq (drawn w) n)).
Proof.
  intro G. apply NoDup_map_NoDup_ForallPairs; [|apply seq_NoDup].
  intros x y Hx Hy E. apply in_seq in Hx, Hy. apply G; [lia | lia | exact E].
Qed.

(** The page found under an identifier after its blocks were set. *)
Lemma find_page_sets_blocks id bs st w page :
  find_page id (pages st) = Some page ->
  exists page',
    find_page id (pages (fst (updatePage id (PartialPage.of_blocks bs) st w))) = Some page' /\
    Page.blocks page' = bs.
Proof.
  intro Hf.
  destruct (updatePage_spec id (PartialPage.of_blocks bs) st w) as (F & _).
  destruct (find_page_upd id (PartialPage.of_blocks bs) _ _ page F Hf eq_refl)
    as [now E].
  eexists. split; [exact E | reflexivity].
Qed.

Lemma breakdown_blocks_fields g n l :
  Forall2 (fun b blk =>
             Block.type blk = get b "type" /\
             Block.content blk = get b "content" /\
             Block.checked blk = js_or (get b "checked") (VBool false))
          l (breakdown_blocks g n l).
Proof. revert n; induction l; intro n; simpl; constructor; auto. Qed.

Lemma breakdown_blocks_kinds g n l :
  forallb (fun blk => is_BlockType (Block.type blk)) (breakdown_blocks g n l) =
  forallb (fun b => is_BlockType (get b "type")) l.
Proof. revert n; induction l; intro n; simpl; [|rewrite IHl]; reflexivity. Qed.



(** C4 (as the code has it).  The client checks no kind: from an array of
    readable entries it builds one block per entry, in order, with the
    entry's [type], [content] and [checked || false] copied as they are and
    with the identifiers [generateId] gives one after the other (pairwise
    distinct when the generator does not repeat itself).  The handler sets
    the blocks of the page it was started on to the blocks it saw then
    followed by all of these: an append, when the page was not edited in
    between.  The new blocks have kinds of the closed set exactly when the
    entries had. *)
Theorem generated_blocks_copy_raw_kinds
    (key : option string) (sp : Page.t) (l : list JsVal) (st : Store) (w : World) :
  has_key key = true ->
  forallb has_props l = true ->
  let st' := fst (fst (handleAiBreakdown key (Some sp) (Parsed (VArr l)) st w)) in
  exists generated,
    (forall title context,
        generatePageBreakdown key title context (Parsed (VArr l)) w
        = (Normal generated, draws (List.length l) w)) /\
    Forall2 (fun b blk =>
               Block.type blk = get b "type" /\
               Block.content blk = get b "content" /\
               Block.checked blk = js_or (get b "checked") (VBool false))
            l generated /\
    List.length generated = List.length l /\
    block_ids generated = map (idgen w) (seq (drawn w) (List.length l)) /\
    (fresh_gen w -> NoDup (block_ids generated)) /\
    forallb (fun blk => is_BlockType (Block.type blk)) generated =
      forallb (fun b => is_BlockType (get b "type")) l /\
    Forall2 (sets_blocks (Page.id sp) (Page.blocks sp ++ generated))
            (pages st) (pages st') /\
    (forall page,
        find_page (Page.id sp) (pages st) = Some page ->
        exists page',
          find_page (Page.id sp) (pages st') = Some page' /\
          Page.blocks page' = (Page.blocks sp ++ generated)%list /\
          (Page.blocks page = Page.blocks sp ->
           Page.blocks page' = (Page.blocks page ++ generated)%list /\
           List.length (Page.blocks page') =
             List.length (Page.blocks page) + List.length l)).
Proof.
  intros K Hl st'. subst st'.
  assert (Hgen : forall title context,
             generatePageBreakdown key title context (Parsed (VArr l)) w
             = (Normal (breakdown_blocks (idgen w) (drawn w) l), draws (List.length l) w)).
  { intros title context.
    destruct (generatePageBreakdown_shape key title context (Parsed (VArr l)) w)
      as [(K' & _) | [(_ & l' & Hu & E) | (_ & Hu & _)]].
    - congruence.
    - simpl in Hu. rewrite Hl in Hu. injection Hu as <-. exact E.
    - simpl in Hu. rewrite Hl in Hu. discriminate. }
  assert (Hlen : List.length (breakdown_blocks (idgen w) (drawn w) l) = List.length l)
    by (eapply eq_sym, Forall2_length, breakdown_blocks_fields).
  exists (breakdown_blocks (idgen w) (drawn w) l).
  split; [exact Hgen|].
  split; [apply breakdown_blocks_fields|].
  split; [exact Hlen|].
  split; [apply breakdown_blocks_ids|].
  split; [intro G; rewrite breakdown_blocks_ids; apply fresh_gen_NoDup, G|].
  split; [apply breakdown_blocks_kinds|].
  rewrite (handleAiBreakdown_eq key sp _ st w _ _ (Hgen _ _)). simpl fst.
  split; [apply (updatePage_sets_blocks _ _ (setIsGenerating true st))|].
  intros page Hf.
  destruct (find_page_sets_blocks (Page.id sp)
              (Page.blocks sp ++ breakdown_blocks (idgen w) (drawn w) l)
              (setIsGenerating true st) (draws (List.length l) w) page Hf)
    as (page' & Hf' & Hb').
  exists page'. split; [exact Hf'|]. split; [exact Hb'|].
  intro Hsame. rewrite Hb', Hsame. split; [reflexivity|].
  rewrite length_app, Hlen. reflexivity.
Qed.

Definition raw_bogus_todo : JsVal :=
  VArr [ VObj [("type", VStr "bogus"); ("content", VStr "x")];
         VObj [("type", VStr "todo"); ("content", VStr "y")] ].

(** C4, the specification's example: both entries become blocks, the first with
    the kind [bogus]. *)
Lemma bogus_kind_is_appended :
  let st := setSelectedPageId (Some "2") store0 in
  let st' := fst (fst (handleAiBreakdown (Some "key") (selectedPage st)
                         (Parsed raw_bogus_todo) st world1)) in
  exists p',
    find_page "2" (pages st') = Some p' /\
    map Block.type (Page.blocks p') =
      [kind h1; kind text; kind todo; VStr "bogus"; kind todo] /\
    forallb (fun b => is_BlockType (Block.type b)) (Page.blocks p') = false.
Proof. simpl. eexists. split; [reflexivity|]. split; reflexivity. Qed.

Lemma generated_blocks_copy_raw_kinds_witness :
  exists generated,
    fst (generatePageBreakdown (Some "key") "Untitled" "General project breakdown"
           (Parsed raw_bogus_todo) world1) = Normal generated /\
    block_ids generated = ["g0"; "g1"] /\
    map Block.type generated = [VStr "bogus"; kind todo].
Proof.
  destruct (generated_blocks_copy_raw_kinds (Some "key") (mock_page2 1002 1003)
              [ VObj [("type", VStr "bogus"); ("content", VStr "x")];
                VObj [("type", VStr "todo"); ("content", VStr "y")] ]
              store0 world1 eq_refl eq_refl)
    as (generated & Hg & Hf & _ & Hids & _).
  exists generated. split; [apply (f_equal fst (Hg _ _))|]. split; [exact Hids|].
  inversion Hf as [|? b1 ? r1 (T1 & _) Hf1]; subst.
  inversion Hf1 as [|? b2 ? r2 (T2 & _) Hf2]; subst.
  inversion Hf2; subst. simpl. rewrite T1, T2. reflexivity.
Defined.

(** [generatePageBreakdown] never throws: whatever the key and the reply,
    the call ends normally. *)
Lemma generatePageBreakdown_total key title context reply w :
  exists generated k,
    generatePageBreakdown key title context reply w = (Normal generated, draws k w).
Proof.
  destruct (generatePageBreakdown_shape key title context reply w)
    as [(_ & E) | [(_ & l & _ & E) | (_ & _ & k & E)]]; rewrite E; eauto.
Qed.









(** ** Progress and the block handlers *)

Lemma handleAiBreakdown_touched key sel reply st w :
  Forall2 (touched only_blocks) (pages st)
          (pages (fst (fst (handleAiBreakdown key sel reply st w)))).
Proof.
  destruct sel as [sp|]; [|apply touched_refl].
  destruct (generatePageBreakdown_total key
              (if Page.title sp =? "" then "Untitled" else Page.title sp)
              "General project breakdown" reply w) as (generated & k & E).
  rewrite (handleAiBreakdown_eq key sp reply st w _ _ E). simpl.
  apply (updatePage_touched only_blocks _ _ (setIsGenerating true st)).
  eexists; reflexivity.
Qed.

Lemma handleAiSuggest_touched key sel reply st w :
  Forall2 (touched only_blocks) (pages st)
          (pages (fst (fst (handleAiSuggest key sel reply st w)))).
Proof.
  destruct sel as [sp|]; [|apply touched_refl].
  destruct (suggestNextSteps_cases key (Page.blocks sp) reply w)
    as [(suggestions & k & E) | E].
  2:{ rewrite (handleAiSuggest_throw key sp reply st w _ E).
      apply (touched_refl only_blocks st). }
  rewrite (handleAiSuggest_eq key sp reply st w _ _ E).
  destruct suggestions as [|s r]; [apply (touched_refl only_blocks st)|]. simpl.
  apply (updatePage_touched only_blocks _ _ (setIsGenerating true st)).
  eexists; reflexivity.
Qed.

(** The events that rewrite a block list and do not name a progress. *)
Definition block_mutation (op : Op) : bool :=
  match op with
  | OpUpdateBlock _ _ _ | OpAddBlock _ _ | OpDeleteBlock _ _
  | OpAiBreakdown _ | OpAiSuggest _ => true
  | OpUpdatePage _ updates =>
      match PartialPage.blocks updates, PartialPage.progress updates with
      | Some _, None => true
      | _, _ => false
      end
  | _ => false
  end.

Definition no_progress (updates : PartialPage.t) : Prop :=
  PartialPage.progress updates = None.

Lemma touched_weaken (P Q : PartialPage.t -> Prop) xs ys :
  (forall u, P u -> Q u) -> Forall2 (touched P) xs ys -> Forall2 (touched Q) xs ys.
Proof.
  intro H. apply Forall2_impl. intros x y [->|(u & now & HP & ->)].
  - left; reflexivity.
  - right. eauto.
Qed.

Lemma block_mutation_touched key op st w :
  block_mutation op = true ->
  Forall2 (touched no_progress) (pages st) (pages (fst (step key op st w))).
Proof.
  assert (W : forall u, only_blocks u -> no_progress u) by (intros u [bs ->]; reflexivity).
  destruct op; simpl; try discriminate; intros H.
  - destruct (PartialPage.blocks updates) eqn:B; [|discriminate].
    destruct (PartialPage.progress updates) eqn:Pg; [discriminate|].
    apply updatePage_touched. exact Pg.
  - eapply touched_weaken; [exact W | apply updateBlock_touched].
  - eapply touched_weaken; [exact W | apply addBlock_touched].
  - eapply touched_weaken; [exact W | apply deleteBlock_touched].
  - unfold bind. destruct (handleAiBreakdown key (selectedPage st) reply st w) as [r w'] eqn:E.
    simpl. replace r with (fst (handleAiBreakdown key (selectedPage st) reply st w))
      by (rewrite E; reflexivity).
    eapply touched_weaken; [exact W | apply handleAiBreakdown_touched].
  - unfold bind. destruct (handleAiSuggest key (selectedPage st) reply st w) as [r w'] eqn:E.
    simpl. replace r with (fst (handleAiSuggest key (selectedPage st) reply st w))
      by (rewrite E; reflexivity).
    eapply touched_weaken; [exact W | apply handleAiSuggest_touched].
Qed.

Lemma updated_page_keeps_progress p updates now :
  PartialPage.progress updates = None ->
  filter is_todo (Page.blocks (updated_page p updates now)) = [] ->
  Page.progress (updated_page p updates now) = Page.progress p.
Proof.
  unfold updated_page; simpl. intros -> H.
  destruct (PartialPage.blocks updates); simpl in *; [|reflexivity].
  rewrite H. reflexivity.
Qed.

(** C6.  A block mutation that leaves a page without any [todo] block
    leaves the page's progress at the value it had. *)
Theorem progress_kept_without_todos
    (key : option string) (op : Op) (st : Store) (w : World) :
  block_mutation op = true ->
  Forall2 (fun p p' =>
             filter is_todo (Page.blocks p') = [] ->
             Page.progress p' = Page.progress p)
          (pages st) (pages (fst (step key op st w))).
Proof.
  intro H. eapply Forall2_impl; [|apply (block_mutation_touched key op st w H)].
  intros p p' [->|(u & now & Hu & ->)]; [reflexivity|].
  apply updated_page_keeps_progress, Hu.
Qed.

(** A page of notes with no to-do and a progress of 42. *)
Definition store42 : Store :=
  mkStore [ Page.mk "n" paper "Notes" "ðŸ“„" 0 0
              [ Block.mk "a" (kind h1) (VStr "Reading list") VUndefined;
                Block.mk "b" (kind bullet) (VStr "Flocq") VUndefined ]
              (Num.of_Z 42) ]
          (Some "n") false.

Definition edit_b : Op :=
  OpUpdateBlock "n" "b" (PartialBlock.mk None None (Some (VStr "Flocq 4")) None).

Lemma progress_kept_without_todos_witness :
  Forall2 (fun p p' =>
             filter is_todo (Page.blocks p') = [] ->
             Page.progress p' = Page.progress p)
          (pages store42) (pages (fst (step None edit_b store42 world0))).
Proof. exact (progress_kept_without_todos None edit_b store42 world0 eq_refl). Defined.

Example progress_42_stays_42 :
  map Page.progress (pages (fst (step None edit_b store42 world0))) = [Num.of_Z 42] /\
  map Page.progress (pages (fst (step None (OpAddBlock "n" "a") store42 world0)))
    = [Num.of_Z 42] /\
  map Page.progress (pages (fst (step None (OpDeleteBlock "n" "b") store42 world0)))
    = [Num.of_Z 42].
Proof. repeat split. Qed.

(** ** What an update keeps of a page *)

Lemma upd_rel_keeps_id id updates p p' :
  PartialPage.id updates = None -> upd_rel id updates p p' -> Page.id p' = Page.id p.
Proof.
  unfold upd_rel. intros H R. destruct (Page.id p =? id); [|subst; reflexivity].
  destruct R as [now ->]. unfold updated_page; simpl. rewrite H. reflexivity.
Qed.

Lemma upd_rel_keeps_createdAt id updates p p' :
  PartialPage.createdAt updates = None -> upd_rel id updates p p' ->
  Page.createdAt p' = Page.createdAt p.
Proof.
  unfold upd_rel. intros H R. destruct (Page.id p =? id); [|subst; reflexivity].
  destruct R as [now ->]. unfold updated_page; simpl. rewrite H. reflexivity.
Qed.

Lemma upd_rel_keeps_blocks id updates p p' :
  PartialPage.blocks updates = None -> upd_rel id updates p p' ->
  Page.blocks p' = Page.blocks p.
Proof.
  unfold upd_rel. intros H R. destruct (Page.id p =? id); [|subst; reflexivity].
  destruct R as [now ->]. unfold updated_page; simpl. rewrite H. reflexivity.
Qed.

(** The first page that matches is updated with the first reading of the
    clock. *)
Lemma find_page_mapM id updates ps w page :
  find_page id ps = Some page ->
  PartialPage.id updates = None ->
  find_page id (fst (mapM (update_one id updates) ps w)) =
  Some (updated_page page updates (fst (Date_now w))).
Proof.
  intros Hf Hid. revert w Hf; induction ps as [|p ps IH]; intros w Hf; [discriminate|].
  rewrite mapM_cons, update_one_eq. simpl in Hf |- *.
  destruct (Page.id p =? id) eqn:E; simpl.
  - injection Hf as <-. rewrite Hid. simpl. rewrite E. reflexivity.
  - rewrite E. apply IH, Hf.
Qed.

Lemma find_page_updatePage id updates st w page :
  find_page id (pages st) = Some page ->
  PartialPage.id updates = None ->
  find_page id (pages (fst (updatePage id updates st w))) =
  Some (updated_page page updates (fst (Date_now w))).
Proof.
  intros Hf Hid. unfold updatePage, bind.
  pose proof (find_page_mapM id updates (pages st) w page Hf Hid) as H.
  destruct (mapM (update_one id updates) (pages st) w); exact H.
Qed.

Lemma map_id_spread blockId updates bs :
  PartialBlock.id updates = None ->
  map Block.id
      (map (fun b => if Block.id b =? blockId then spread_block b updates else b) bs)
  = map Block.id bs.
Proof.
  intro H. induction bs as [|b bs IH]; simpl; [reflexivity|].
  rewrite IH. destruct (Block.id b =? blockId); simpl; [rewrite H|]; reflexivity.
Qed.

(** C5 (as the code has it).  [updatePage] merges whatever partial fields
    it is given: when these name neither [id] nor [createdAt] both are kept
    on every page, and when they name no [blocks] the block list is kept.
    [updateBlock] keeps every page's [id] and [createdAt], and when its
    partial fields name no [id] the target page keeps its block identifiers
    in their order. *)
Theorem updates_keep_id_and_createdAt :
  (forall id updates st w,
      PartialPage.id updates = None ->
      PartialPage.createdAt updates = None ->
      Forall2 (fun p p' =>
                 Page.id p' = Page.id p /\
                 Page.createdAt p' = Page.createdAt p /\
                 (PartialPage.blocks updates = None -> Page.blocks p' = Page.blocks p))
              (pages st) (pages (fst (updatePage id updates st w)))) /\
  (forall pageId blockId updates st w,
      Forall2 (fun p p' =>
                 Page.id p' = Page.id p /\ Page.createdAt p' = Page.createdAt p)
              (pages st) (pages (fst (updateBlock pageId blockId updates st w))) /\
      (PartialBlock.id updates = None ->
       forall page,
         find_page pageId (pages st) = Some page ->
         exists page',
           find_page pageId (pages (fst (updateBlock pageId blockId updates st w)))
             = Some page' /\
           map Block.id (Page.blocks page') = map Block.id (Page.blocks page))).
Proof.
  split.
  - intros id updates st w Hid Hc.
    destruct (updatePage_spec id updates st w) as (F & _).
    eapply Forall2_impl; [|exact F]. intros p p' R.
    split; [eapply upd_rel_keeps_id; eauto|].
    split; [eapply upd_rel_keeps_createdAt; eauto|].
    intro Hb. eapply upd_rel_keeps_blocks; eauto.
  - intros pageId blockId updates st w. unfold updateBlock.
    destruct (find_page pageId (pages st)) as [page|] eqn:Hf.
    + split.
      * match goal with |- context [updatePage ?i ?u ?s ?w'] =>
          destruct (updatePage_spec i u s w') as (F & _) end.
        eapply Forall2_impl; [|exact F]. intros p p' R.
        split; [eapply upd_rel_keeps_id | eapply upd_rel_keeps_createdAt];
          try exact R; reflexivity.
      * intros Hid page0 [= <-].
        eexists. split; [apply find_page_updatePage; [exact Hf | reflexivity]|].
        simpl. apply map_id_spread, Hid.
    + split; [apply Forall2_refl; auto | intros _ page0 [=]].
Qed.

(** C5, an input the handlers accept by their types: the partial
    fields name an [id] or a [createdAt], and both are rewritten; a block's
    [id] is rewritten the same way. *)
Lemma updatePage_rewrites_id_and_createdAt :
  let updates := PartialPage.mk (Some "zzz") None None None (Some 7%Z) None None None in
  let st' := fst (updatePage "1" updates store0 world1) in
  map Page.id (pages store0) = ["1"; "2"] /\
  map Page.id (pages st') = ["zzz"; "2"] /\
  map Page.createdAt (pages store0) = [1000%Z; (1002 - 86400000)%Z] /\
  map Page.createdAt (pages st') = [7%Z; (1002 - 86400000)%Z] /\
  map (fun p => map Block.id (Page.blocks p))
      (pages (fst (updateBlock "2" "l1" (PartialBlock.mk (Some "l9") None None None)
                     store0 world1)))
  = [["b1"; "b2"; "b3"; "b4"; "b5"]; ["l9"; "l2"; "l3"]].
Proof. repeat split. Qed.

(** ** A block identifier that is not in the page *)

(** The page after an updater run that was handed the page's own blocks. *)
Definition refreshed (page : Page.t) (now : Z) : Page.t :=
  let todos := filter is_todo (Page.blocks page) in
  Page.mk (Page.id page) (Page.type page) (Page.title page) (Page.emoji page)
          (Page.createdAt page) now (Page.blocks page)
          (if (0 <? List.length todos)%nat
           then percent (List.length (filter is_checked todos)) (List.length todos)
           else Page.progress page).

Lemma updated_page_own_blocks page now :
  updated_page page (PartialPage.of_blocks (Page.blocks page)) now = refreshed page now.
Proof. reflexivity. Qed.

Lemma map_spread_absent blockId updates bs :
  (forall b, In b bs -> Block.id b <> blockId) ->
  map (fun b => if Block.id b =? blockId then spread_block b updates else b) bs = bs.
Proof.
  induction bs as [|b bs IH]; simpl; intro H; [reflexivity|].
  rewrite IH by auto. destruct (Block.id b =? blockId) eqn:E; [|reflexivity].
  apply String.eqb_eq in E. exfalso. apply (H b); auto.
Qed.

Lemma filter_absent blockId bs :
  (forall b, In b bs -> Block.id b <> blockId) ->
  filter (fun b => negb (Block.id b =? blockId)) bs = bs.
Proof.
  induction bs as [|b bs IH]; simpl; intro H; [reflexivity|].
  destruct (Block.id b =? blockId) eqn:E; simpl.
  - apply String.eqb_eq in E. exfalso. apply (H b); auto.
  - rewrite IH by auto. reflexivity.
Qed.

(** C7 (as the code has it).  With a [blockId] that is in no block of the
    page, [updateBlock] and [deleteBlock] still run the updater on the
    page's own blocks: identifier, kind, title, emoji, [createdAt] and the
    block list stay, every page with another identifier stays, but
    [updatedAt] becomes the current reading of the clock and the progress
    is computed again when the page has a [todo].  [deleteBlock] on a page
    of at most one block changes nothing at all. *)
Theorem unknown_block_refreshes_page
    (pageId blockId : string) (updates : PartialBlock.t)
    (st : Store) (w : World) (page : Page.t) :
  find_page pageId (pages st) = Some page ->
  (forall b, In b (Page.blocks page) -> Block.id b <> blockId) ->
  let now := fst (Date_now w) in
  (find_page pageId (pages (fst (updateBlock pageId blockId updates st w)))
     = Some (refreshed page now) /\
   Forall2 (fun p p' => (Page.id p =? pageId) = false -> p' = p)
           (pages st) (pages (fst (updateBlock pageId blockId updates st w)))) /\
  (if (List.length (Page.blocks page) <=? 1)%nat
   then deleteBlock pageId blockId st w = (st, w)
   else
     find_page pageId (pages (fst (deleteBlock pageId blockId st w)))
       = Some (refreshed page now) /\
     Forall2 (fun p p' => (Page.id p =? pageId) = false -> p' = p)
             (pages st) (pages (fst (deleteBlock pageId blockId st w)))).
Proof.
  intros Hf Habs now.
  assert (Hother : forall updates' w',
             Forall2 (fun p p' => (Page.id p =? pageId) = false -> p' = p)
                     (pages st) (pages (fst (updatePage pageId updates' st w')))).
  { intros u' w'. destruct (updatePage_spec pageId u' st w') as (F & _).
    eapply Forall2_impl; [|exact F]. unfold upd_rel. intros p p' R E.
    rewrite E in R. exact R. }
  split.
  - unfold updateBlock. rewrite Hf, (map_spread_absent _ _ _ Habs).
    split; [|apply Hother].
    rewrite (find_page_updatePage _ (PartialPage.of_blocks (Page.blocks page)) _ _ _ Hf eq_refl).
    reflexivity.
  - unfold deleteBlock. rewrite Hf.
    destruct (List.length (Page.blocks page) <=? 1)%nat; [reflexivity|].
    rewrite (filter_absent _ _ Habs).
    split; [|apply Hother].
    rewrite (find_page_updatePage _ (PartialPage.of_blocks (Page.blocks page)) _ _ _ Hf eq_refl).
    reflexivity.
Qed.

(** C7, on the first mock page: no block is called [nope], and yet the
    page's [updatedAt] moves and its progress goes from 35 to 50. *)
Lemma updateBlock_unknown_block_changes_page :
  exists p p',
    find_page "1" (pages store0) = Some p /\
    forallb (fun b => negb (Block.id b =? "nope")) (Page.blocks p) = true /\
    find_page "1" (pages (fst (updateBlock "1" "nope" PartialBlock.empty store0 world1)))
      = Some p' /\
    Page.updatedAt p = 1001%Z /\ Page.updatedAt p' = 1004%Z /\
    Page.progress p = Num.of_Z 35 /\ Page.progress p' = Num.of_Z 50 /\
    Num.of_Z 35 <> Num.of_Z 50.
Proof.
  do 2 eexists. repeat split; try reflexivity. discriminate.
Qed.

Lemma unknown_block_refreshes_page_witness :
  find_page "2" (pages (fst (updateBlock "2" "nope" PartialBlock.empty store0 world1)))
  = Some (mock_page2 1002 1004).
Proof.
  refine (proj1 (proj1 (unknown_block_refreshes_page "2" "nope" PartialBlock.empty
                          store0 world1 _ eq_refl _))).
  simpl. intros b [<-|[<-|[<-|[]]]]; discriminate.
Defined.

(** ** Pages never lose their last block *)

(** A block list a page may hold: not empty, identifiers pairwise distinct,
    none of them still to be drawn. *)
Definition blocks_ok (w : World) (bs : list Block.t) : Prop :=
  bs <> [] /\ NoDup (block_ids bs) /\
  forall i, drawn w <= i -> ~ In (idgen w i) (block_ids bs).

Definition Inv (st : Store) (w : World) : Prop :=
  fresh_gen w /\ Forall (fun p => blocks_ok w (Page.blocks p)) (pages st).

(** What an event must respect: blocks handed to [updatePage] form such a
    list, and [updateBlock] is not handed an [id]. *)
Definition op_ok (w : World) (op : Op) : Prop :=
  match op with
  | OpUpdatePage _ updates =>
      match PartialPage.blocks updates with
      | Some bs => blocks_ok w bs
      | None => True
      end
  | OpUpdateBlock _ _ updates => PartialBlock.id updates = None
  | _ => True
  end.

Fixpoint ops_ok (key : option string) (ops : list Op) (st : Store) (w : World) : Prop :=
  match ops with
  | [] => True
  | op :: rest =>
      op_ok w op /\
      ops_ok key rest (fst (step key op st w)) (snd (step key op st w))
  end.

Lemma fresh_gen_le w w' : world_le w w' -> fresh_gen w -> fresh_gen w'.
Proof.
  intros (_ & Hg & _ & Hd) H i j Hi Hj. rewrite Hg. apply H; lia.
Qed.

Lemma blocks_ok_le w w' bs : world_le w w' -> blocks_ok w bs -> blocks_ok w' bs.
Proof.
  intros (_ & Hg & _ & Hd) (Hn & Hnd & Hf). repeat split; auto.
  intros i Hi. rewrite Hg. apply Hf. lia.
Qed.

Lemma Inv_le st w w' : world_le w w' -> Inv st w -> Inv st w'.
Proof.
  intros L (G & F). split; [eapply fresh_gen_le; eauto|].
  eapply Forall_impl; [|exact F]. intros p. apply blocks_ok_le, L.
Qed.

Lemma Forall2_Forall_r {A} (R : A -> A -> Prop) (P Q : A -> Prop) xs ys :
  (forall x y, P x -> R x y -> Q y) -> Forall P xs -> Forall2 R xs ys -> Forall Q ys.
Proof.
  intros H FP F; induction F; inversion FP; subst; constructor; eauto.
Qed.

(** [updatePage] keeps the invariant when the blocks it is handed, if any,
    form a list a page may hold. *)
Lemma updatePage_Inv id updates st w :
  Inv st w ->
  match PartialPage.blocks updates with
  | Some bs => blocks_ok w bs
  | None => True
  end ->
  Inv (fst (updatePage id updates st w)) (snd (updatePage id updates st w)).
Proof.
  intros (G & F) Hb.
  destruct (updatePage_spec id updates st w) as (R & _ & _ & L & _).
  split; [eapply fresh_gen_le; eauto|].
  eapply Forall2_Forall_r; [| exact F | exact R].
  intros p p' Hp Hr. unfold upd_rel in Hr.
  destruct (Page.id p =? id).
  - destruct Hr as [now ->]. unfold updated_page; simpl.
    destruct (PartialPage.blocks updates); simpl; eapply blocks_ok_le; eauto.
  - subst p'. eapply blocks_ok_le; eauto.
Qed.

Lemma find_page_blocks_ok id st w page :
  Inv st w -> find_page id (pages st) = Some page -> blocks_ok w (Page.blocks page).
Proof.
  intros (_ & F) Hf. apply find_page_In in Hf.
  rewrite Forall_forall in F. apply F, Hf.
Qed.

Lemma splice_insert_perm {A} start (x : A) xs :
  Permutation (x :: xs) (splice_insert start x xs).
Proof.
  unfold splice_insert.
  set (k := Z.to_nat _).
  rewrite <- (firstn_skipn k xs) at 1. apply Permutation_middle.
Qed.

Lemma addBlock_blocks_ok w start bs :
  fresh_gen w -> blocks_ok w bs ->
  blocks_ok (draw w)
    (splice_insert start (Block.mk (idgen w (drawn w)) (kind text) (VStr "") VUndefined) bs).
Proof.
  intros G (Hn & Hnd & Hf).
  set (nb := Block.mk _ _ _ _).
  pose proof (splice_insert_perm start nb bs) as P.
  assert (P' : Permutation (block_ids (nb :: bs)) (block_ids (splice_insert start nb bs)))
    by (apply Permutation_map, P).
  repeat split.
  - intro E. rewrite E in P. apply Permutation_sym, Permutation_nil in P. discriminate.
  - eapply Permutation_NoDup; [exact P'|]. simpl. constructor; [|exact Hnd].
    apply Hf. lia.
  - intros i Hi Hin. simpl in Hi.
    eapply Permutation_in in Hin; [|apply Permutation_sym, P'].
    simpl in Hin. destruct Hin as [E|Hin].
    + apply G in E; lia.
    + revert Hin. apply Hf. lia.
Qed.

Lemma filter_keeps_one blockId bs :
  NoDup (block_ids bs) -> 1 < List.length bs ->
  filter (fun b => negb (Block.id b =? blockId)) bs <> [].
Proof.
  destruct bs as [|b1 [|b2 r]]; simpl; intros Hnd Hl; try lia.
  inversion Hnd as [|? ? Hnotin _]; subst.
  destruct (Block.id b1 =? blockId) eqn:E1; simpl; [|discriminate].
  destruct (Block.id b2 =? blockId) eqn:E2; simpl; [|discriminate].
  apply String.eqb_eq in E1, E2. exfalso. apply Hnotin. left. congruence.
Qed.

Lemma block_ids_filter_incl f bs x :
  In x (block_ids (filter f bs)) -> In x (block_ids bs).
Proof.
  unfold block_ids. rewrite !in_map_iff. intros (b & <- & Hb).
  apply filter_In in Hb. exists b. tauto.
Qed.

Lemma NoDup_block_ids_filter f bs :
  NoDup (block_ids bs) -> NoDup (block_ids (filter f bs)).
Proof.
  unfold block_ids. induction bs as [|b bs IH]; simpl; intro H; [constructor|].
  inversion H as [|? ? Hn Hr]; subst.
  destruct (f b); simpl; [constructor|]; auto.
  intro Hin. apply Hn. eapply block_ids_filter_incl, Hin.
Qed.

Lemma deleteBlock_blocks_ok w blockId bs :
  blocks_ok w bs -> 1 < List.length bs ->
  blocks_ok w (filter (fun b => negb (Block.id b =? blockId)) bs).
Proof.
  intros (Hn & Hnd & Hf) Hl. repeat split.
  - apply filter_keeps_one; assumption.
  - apply NoDup_block_ids_filter, Hnd.
  - intros i Hi Hin. apply (Hf i Hi). eapply block_ids_filter_incl, Hin.
Qed.

Lemma updateBlock_blocks_ok w blockId updates bs :
  PartialBlock.id updates = None -> blocks_ok w bs ->
  blocks_ok w
    (map (fun b => if Block.id b =? blockId then spread_block b updates else b) bs).
Proof.
  intros Hid (Hn & Hnd & Hf). unfold blocks_ok, block_ids.
  rewrite map_id_spread by exact Hid. repeat split; auto.
  destruct bs; [congruence | discriminate].
Qed.

Lemma block_ids_app bs cs :
  block_ids (bs ++ cs) = (block_ids bs ++ block_ids cs)%list.
Proof. apply map_app. Qed.

(** Blocks whose identifiers were drawn between [w] and [w1], at pairwise
    distinct draws [js], can follow the blocks of a page. *)
Lemma generated_blocks_ok w w1 bs generated js :
  fresh_gen w -> blocks_ok w bs -> world_le w w1 ->
  NoDup js -> (forall j, In j js -> drawn w <= j < drawn w1) ->
  block_ids generated = map (idgen w) js ->
  blocks_ok w1 (bs ++ generated).
Proof.
  intros G (Hn & Hnd & Hf) (_ & Hg & _ & Hd) Hjs Hrange Hids.
  repeat split.
  - destruct bs; [congruence | discriminate].
  - rewrite block_ids_app, Hids. apply NoDup_app; [exact Hnd | |].
    + apply NoDup_map_NoDup_ForallPairs; [|exact Hjs].
      intros x y Hx Hy E. apply G; auto; apply Hrange; assumption.
    + intros a Ha Hin. apply in_map_iff in Hin as (j & <- & Hj).
      revert Ha. apply Hf, Hrange, Hj.
  - intros i Hi. rewrite Hg, block_ids_app, Hids, in_app_iff.
    intros [Hin|Hin].
    + revert Hin. apply Hf. lia.
    + apply in_map_iff in Hin as (j & E & Hj). specialize (Hrange j Hj).
      apply G in E; lia.
Qed.

Lemma Inv_pages st st' w : pages st' = pages st -> Inv st w -> Inv st' w.
Proof. unfold Inv. intros ->. auto. Qed.

Lemma selectedPage_blocks_ok st w sp :
  Inv st w -> selectedPage st = Some sp -> blocks_ok w (Page.blocks sp).
Proof.
  unfold selectedPage. destruct (selectedPageId st) as [id|]; [|discriminate].
  intros I Hf. eapply find_page_blocks_ok; eauto.
Qed.

Lemma updatePage_blocks_Inv id bs st w0 w :
  Inv st w0 -> world_le w0 w -> blocks_ok w bs ->
  Inv (setIsGenerating false
         (fst (updatePage id (PartialPage.of_blocks bs) (setIsGenerating true st) w)))
      (snd (updatePage id (PartialPage.of_blocks bs) (setIsGenerating true st) w)).
Proof.
  intros I L Hb.
  eapply Inv_pages; [reflexivity|].
  apply updatePage_Inv; [|exact Hb].
  eapply Inv_pages; [reflexivity|]. eapply Inv_le; eauto.
Qed.

Lemma handleAiBreakdown_Inv key sel reply st w :
  Inv st w ->
  (forall sp, sel = Some sp -> blocks_ok w (Page.blocks sp)) ->
  Inv (fst (fst (handleAiBreakdown key sel reply st w)))
      (snd (handleAiBreakdown key sel reply st w)).
Proof.
  intros I Hsel. destruct sel as [sp|]; [|exact I].
  specialize (Hsel sp eq_refl). pose proof (proj1 I) as G.
  destruct (generatePageBreakdown_shape key
              (if Page.title sp =? "" then "Untitled" else Page.title sp)
              "General project breakdown" reply w)
    as [(_ & E) | [(_ & l & _ & E) | (_ & _ & k & E)]];
    rewrite (handleAiBreakdown_eq key sp reply st w _ _ E); simpl fst; simpl snd;
    (apply (updatePage_blocks_Inv _ _ _ w); [exact I | apply world_le_draws |]).
  - apply (generated_blocks_ok w _ _ _ [drawn w]); auto using world_le_draws.
    + constructor; [intros []|constructor].
    + intros j [<-|[]]. simpl. lia.
  - apply (generated_blocks_ok w _ _ _ (seq (drawn w) (List.length l)));
      auto using world_le_draws, seq_NoDup, breakdown_blocks_ids.
    intros j Hj. apply in_seq in Hj. simpl. lia.
  - apply (generated_blocks_ok w _ _ _ [drawn w + k]); auto using world_le_draws.
    + constructor; [intros []|constructor].
    + intros j [<-|[]]. simpl. lia.
Qed.

Lemma handleAiSuggest_Inv key sel reply st w :
  Inv st w ->
  (forall sp, sel = Some sp -> blocks_ok w (Page.blocks sp)) ->
  Inv (fst (fst (handleAiSuggest key sel reply st w)))
      (snd (handleAiSuggest key sel reply st w)).
Proof.
  intros I Hsel. destruct sel as [sp|]; [|exact I].
  specialize (Hsel sp eq_refl). pose proof (proj1 I) as G.
  destruct (suggestNextSteps_shape key (Page.blocks sp) reply w)
    as [(_ & _ & l & _ & E) | [(_ & k & E) | (_ & _ & E)]];
    [rewrite (handleAiSuggest_eq key sp reply st w _ _ E)
    |rewrite (handleAiSuggest_eq key sp reply st w _ _ E)
    |rewrite (handleAiSuggest_throw key sp reply st w _ E)].
  - destruct (suggestion_blocks (idgen w) (drawn w) l) as [|s r] eqn:S.
    + simpl. eapply Inv_pages; [reflexivity|]. eapply Inv_le; [apply world_le_draws | exact I].
    + cbv zeta. simpl fst; simpl snd. rewrite <- S.
      apply (updatePage_blocks_Inv _ _ _ w); [exact I | |].
      * eapply world_le_trans; [apply world_le_draws | apply world_le_draw].
      * apply (generated_blocks_ok w _ _ _
                 ((drawn w + List.length l) :: seq (drawn w) (List.length l)));
          auto.
        -- eapply world_le_trans; [apply world_le_draws | apply world_le_draw].
        -- constructor; [|apply seq_NoDup]. rewrite in_seq. lia.
        -- intros j [<-|Hj]; [|apply in_seq in Hj]; simpl; lia.
        -- simpl. rewrite <- suggestion_blocks_ids. reflexivity.
  - simpl. eapply Inv_pages; [reflexivity|]. eapply Inv_le; [apply world_le_draws | exact I].
  - simpl. eapply Inv_pages; [reflexivity | exact I].
Qed.

Lemma createPage_Inv type st w : Inv st w ->
  Inv (fst (createPage type st w)) (snd (createPage type st w)).
Proof.
  intros (G & F). unfold Inv. simpl.
  set (w' := mkWorld _ _ _ _).
  assert (L : world_le w w') by (unfold world_le, w'; simpl; repeat split; lia).
  split; [eapply fresh_gen_le; eauto|].
  constructor.
  - simpl. repeat split.
    + discriminate.
    + constructor; [intros []|constructor].
    + intros i Hi [E|[]]. simpl in Hi. apply G in E; lia.
  - eapply Forall_impl; [|exact F]. intro p. apply blocks_ok_le, L.
Qed.

Lemma deletePage_Inv id st w : Inv st w ->
  Inv (fst (deletePage id st w)) (snd (deletePage id st w)).
Proof.
  intros (G & F). unfold deletePage, ret. simpl.
  assert (F' : Forall (fun p => blocks_ok w (Page.blocks p))
                      (filter (fun p => negb (Page.id p =? id)) (pages st))).
  { rewrite Forall_forall in *. intros p Hp. apply filter_In in Hp. apply F, Hp. }
  split; [exact G|].
  destruct (selectedPageId st) as [sel|]; [destruct (sel =? id)|]; exact F'.
Qed.

Lemma step_Inv key op st w :
  Inv st w -> op_ok w op ->
  Inv (fst (step key op st w)) (snd (step key op st w)).
Proof.
  intros I Hop. destruct op; simpl step.
  - apply createPage_Inv, I.
  - apply updatePage_Inv; assumption.
  - apply deletePage_Inv, I.
  - exact I.
  - unfold updateBlock. destruct (find_page pageId (pages st)) as [page|] eqn:Hf; [|exact I].
    apply updatePage_Inv; [exact I|]. simpl.
    apply updateBlock_blocks_ok; [exact Hop|]. eapply find_page_blocks_ok; eauto.
  - unfold addBlock. destruct (find_page pageId (pages st)) as [page|] eqn:Hf; [|exact I].
    unfold bind, generateId. fold (draw w).
    apply updatePage_Inv; [eapply Inv_le; [apply world_le_draw | exact I]|]. simpl.
    apply addBlock_blocks_ok; [apply I|]. eapply find_page_blocks_ok; eauto.
  - unfold deleteBlock. destruct (find_page pageId (pages st)) as [page|] eqn:Hf; [|exact I].
    destruct (List.length (Page.blocks page) <=? 1)%nat eqn:Hl; [exact I|].
    apply Nat.leb_gt in Hl.
    apply updatePage_Inv; [exact I|]. simpl.
    apply deleteBlock_blocks_ok; [|exact Hl]. eapply find_page_blocks_ok; eauto.
  - unfold bind.
    pose proof (handleAiBreakdown_Inv key (selectedPage st) reply st w I
                  (fun sp => selectedPage_blocks_ok st w sp I)) as H.
    destruct (handleAiBreakdown key (selectedPage st) reply st w); exact H.
  - unfold bind.
    pose proof (handleAiSuggest_Inv key (selectedPage st) reply st w I
                  (fun sp => selectedPage_blocks_ok st w sp I)) as H.
    destruct (handleAiSuggest key (selectedPage st) reply st w); exact H.
Qed.

Lemma run_cons key op rest st w :
  run key (op :: rest) st w =
  run key rest (fst (step key op st w)) (snd (step key op st w)).
Proof. simpl. unfold bind. destruct (step key op st w); reflexivity. Qed.

Lemma run_Inv key ops st w :
  Inv st w -> ops_ok key ops st w ->
  Inv (fst (run key ops st w)) (snd (run key ops st w)).
Proof.
  revert st w; induction ops as [|op rest IH]; intros st w I Hok; [exact I|].
  destruct Hok as [Hop Hrest]. rewrite run_cons.
  apply IH; [apply step_Inv; assumption | exact Hrest].
Qed.

(** C2 (as the code has it).  Start from pages that each hold at least one
    block, with pairwise distinct block identifiers that the generator will
    not produce again, and let the generator never repeat itself.  Then any
    sequence of [createPage], [updatePage], [deletePage], selection,
    [updateBlock], [addBlock], [deleteBlock] and the two generation handlers
    leaves every page with at least one block, provided [updatePage] is
    handed either no blocks or such a block list and [updateBlock] is handed
    no [id].  [deleteBlock] on a page of at most one block changes nothing. *)
Theorem blocks_stay_nonempty
    (key : option string) (ops : list Op) (st : Store) (w : World) :
  Inv st w ->
  ops_ok key ops st w ->
  Forall (fun p => 1 <= List.length (Page.blocks p))
         (pages (fst (run key ops st w))) /\
  (forall pageId blockId page st0 w0,
      find_page pageId (pages st0) = Some page ->
      List.length (Page.blocks page) <= 1 ->
      deleteBlock pageId blockId st0 w0 = (st0, w0)).
Proof.
  intros I Hok. split.
  - destruct (run_Inv key ops st w I Hok) as (_ & F).
    eapply Forall_impl; [|exact F]. intros p (Hn & _).
    destruct (Page.blocks p); [congruence | simpl; lia].
  - intros pageId blockId page st0 w0 Hf Hl. unfold deleteBlock. rewrite Hf.
    apply Nat.leb_le in Hl. rewrite Hl. reflexivity.
Qed.

(** C2, two ways to an empty page: [updatePage] handed an empty block list,
    and [deleteBlock] on a page where [updateBlock] has given two blocks the
    same identifier. *)
Lemma page_can_lose_all_blocks :
  (exists p',
      find_page "1" (pages (fst (updatePage "1" (PartialPage.of_blocks []) store0 world1)))
        = Some p' /\
      List.length (Page.blocks p') = 0) /\
  (exists p',
      find_page "2"
        (pages (fst (run None
                       [ OpUpdateBlock "2" "l2" (PartialBlock.mk (Some "l1") None None None);
                         OpDeleteBlock "2" "l3";
                         OpDeleteBlock "2" "l1" ]
                       store0 world1)))
        = Some p' /\
      List.length (Page.blocks p') = 0).
Proof. split; eexists; split; reflexivity. Qed.

Lemma idgen0_inj i j : idgen world0 i = idgen world0 j -> i = j.
Proof.
  simpl. intro H. injection H as H.
  apply (f_equal NilEmpty.uint_of_string) in H. rewrite !NilEmpty.usu in H.
  injection H as H. apply Unsigned.to_uint_inj, H.
Qed.

Lemma not_generated0 (ids : list string) :
  forallb (fun s => match s with String c _ => negb (Ascii.eqb c "g") | _ => true end) ids = true ->
  forall i, ~ In (idgen world1 i) ids.
Proof.
  intros H i Hin. rewrite forallb_forall in H. apply H in Hin.
  simpl in Hin. discriminate.
Qed.

Lemma NoDup_by_eqb (ids : list string) :
  (fix distinct (l : list string) : bool :=
     match l with
     | [] => true
     | x :: r => negb (existsb (String.eqb x) r) && distinct r
     end) ids = true ->
  NoDup ids.
Proof.
  induction ids as [|x r IH]; intro H; constructor.
  - apply andb_prop in H as [H _]. intro Hin.
    assert (E : existsb (String.eqb x) r = true).
    { apply existsb_exists. exists x. split; [exact Hin | apply String.eqb_refl]. }
    rewrite E in H. discriminate.
  - apply andb_prop in H as [_ H]. apply IH, H.
Qed.

Lemma Inv_store0 : Inv store0 world1.
Proof.
  split.
  - intros i j _ _. apply idgen0_inj.
  - change (pages store0) with (fst (INITIAL_PAGES world0)).
    cbv [INITIAL_PAGES bind ret Date_now fst mock_page1 mock_page2].
    constructor; [|constructor; [|constructor]];
      (split; [discriminate | split;
         [apply NoDup_by_eqb; reflexivity
         |intros i _; apply not_generated0; reflexivity]]).
Qed.

(** Deleting the second mock page down to its last block and further, then
    asking for suggestions, adding, editing and creating. *)
Definition demo_ops : list Op :=
  [ OpDeleteBlock "2" "l1"; OpDeleteBlock "2" "l2"; OpDeleteBlock "2" "l3";
    OpDeleteBlock "2" "l3"; OpSelect (Some "2");
    OpAiSuggest (Parsed (VArr [VObj [("content", VStr "Stretch")]]));
    OpAiBreakdown Rejected;
    OpAddBlock "2" "nope";
    OpUpdateBlock "2" "l3" (PartialBlock.mk None None None (Some (VBool false)));
    OpCreatePage work;
    OpUpdatePage "1" (PartialPage.of_title "Redesign") ].

Lemma blocks_stay_nonempty_witness :
  Forall (fun p => 1 <= List.length (Page.blocks p))
         (pages (fst (run (Some "key") demo_ops store0 world1))).
Proof.
  refine (proj1 (blocks_stay_nonempty (Some "key") demo_ops store0 world1 Inv_store0 _)).
  unfold demo_ops. repeat (split; [exact I || reflexivity|]). exact I.
Defined.

Example demo_ops_block_ids :
  map (fun p => (Page.id p, block_ids (Page.blocks p)))
      (pages (fst (run (Some "key") demo_ops store0 world1)))
  = [ ("g4", ["g5"]);
      ("1", ["b1"; "b2"; "b3"; "b4"; "b5"]);
      ("2", ["g3"; "l3"; "g1"; "g0"; "g2"]) ].
Proof. reflexivity. Qed.

(** ** The arithmetic of the percentage

    [completed / todos.length] and the product with [100] are binary64
    operations, each rounded to nearest with ties to even; [Math.round] then
    takes the nearest integer.  The lemmas below follow [SFdiv] and [SFmul]
    through [binary_round_aux] and bound what the two roundings can do. *)

Module Binary64.

Local Open Scope Q_scope.

(** The power of two with an integer exponent. *)
Definition pow2 (e : Z) : Q := 2 ^ e.

(** The value of a mantissa and an exponent. *)
Definition F2Q (m e : Z) : Q := inject_Z m * pow2 e.

Lemma pow2_pos e : 0 < pow2 e.
Proof. apply Qpower_0_lt. reflexivity. Qed.

Lemma pow2_add a b : pow2 (a + b) == pow2 a * pow2 b.
Proof. apply Qpower_plus. discriminate. Qed.

Lemma pow2_0 : pow2 0 == 1.
Proof. reflexivity. Qed.

Lemma pow2_inject n : (0 <= n)%Z -> pow2 n == inject_Z (2 ^ n).
Proof. intro H. unfold pow2. rewrite Zpower_Qpower by exact H. reflexivity. Qed.

Lemma pow2_opp_r a : pow2 a * pow2 (- a) == 1.
Proof. rewrite <- pow2_add, Z.add_opp_diag_r. reflexivity. Qed.

(** *** The number of binary digits *)

Lemma digits2_pos_spec p :
  (2 ^ (Zpos (digits2_pos p) - 1) <= Zpos p < 2 ^ Zpos (digits2_pos p))%Z.
Proof.
  induction p as [p IH|p IH|]; simpl digits2_pos.
  - rewrite Pos2Z.inj_succ.
    replace (Z.succ (Zpos (digits2_pos p)) - 1)%Z with (Z.succ (Zpos (digits2_pos p) - 1))%Z by lia.
    rewrite !Z.pow_succ_r by lia. lia.
  - rewrite Pos2Z.inj_succ.
    replace (Z.succ (Zpos (digits2_pos p)) - 1)%Z with (Z.succ (Zpos (digits2_pos p) - 1))%Z by lia.
    rewrite !Z.pow_succ_r by lia. lia.
  - simpl. lia.
Qed.

Lemma Zdigits2_spec m : (0 < m)%Z ->
  (2 ^ (Zdigits2 m - 1) <= m < 2 ^ Zdigits2 m)%Z /\ (0 < Zdigits2 m)%Z.
Proof.
  destruct m as [|p|p]; try lia. intros _. split; [apply digits2_pos_spec|simpl; lia].
Qed.

(** The digits of a number caught between two powers of two. *)
Lemma Zdigits2_between m a b :
  (0 <= a)%Z -> (2 ^ a <= m < 2 ^ b)%Z -> (a < Zdigits2 m <= b)%Z.
Proof.
  intros Ha [Hl Hu].
  assert (Hm : (0 < m)%Z) by (pose proof (Z.pow_pos_nonneg 2 a); lia).
  destruct (Zdigits2_spec m Hm) as [[Hl' Hu'] Hd].
  split.
  - apply (Z.pow_lt_mono_r_iff 2); lia.
  - assert (Zdigits2 m - 1 < b)%Z; [|lia].
    destruct (Z.le_gt_cases 0 b) as [Hb|Hb].
    + apply (Z.pow_lt_mono_r_iff 2); lia.
    + rewrite (Z.pow_neg_r 2 b) in Hu by lia. lia.
Qed.


(** *** Shifting right with a round bit and a sticky bit *)

(** What the two bits say of the part [d] of a number below its integer
    part. *)
Definition frac_ok (d : Q) (r s : bool) : Prop :=
  match r, s with
  | false, false => d == 0
  | false, true => 0 < d /\ d < 1#2
  | true, false => d == 1#2
  | true, true => 1#2 < d /\ d < 1
  end.

(** The record stands for the number [y]: its mantissa is the integer part
    and its bits place the rest. *)
Definition rec_ok (mrs : shr_record) (y : Q) : Prop :=
  (0 <= shr_m mrs)%Z /\
  frac_ok (y - inject_Z (shr_m mrs)) (shr_r mrs) (shr_s mrs).

Lemma rec_ok_ext mrs y y' : y == y' -> rec_ok mrs y -> rec_ok mrs y'.
Proof.
  destruct mrs as [m r s]. unfold rec_ok; simpl. intros E [Hm H].
  split; [exact Hm|]. destruct r, s; simpl in *; lra.
Qed.

Lemma inject_Z_xO p : inject_Z (Zpos p~0) == 2 * inject_Z (Zpos p).
Proof. unfold Qeq; simpl. lia. Qed.

Lemma inject_Z_xI p : inject_Z (Zpos p~1) == 2 * inject_Z (Zpos p) + 1.
Proof. unfold Qeq; simpl. lia. Qed.

Lemma shr_1_ok mrs y : rec_ok mrs y -> rec_ok (shr_1 mrs) (y * (1#2)).
Proof.
  destruct mrs as [m r s]. unfold rec_ok; simpl. intros [Hm H].
  destruct m as [|[p|p|]|p]; try lia; simpl; (split; [lia|]).
  - change (inject_Z 0) with 0 in *.
    destruct r, s; simpl in *; lra.
  - pose proof (inject_Z_xI p) as E.
    destruct r, s; simpl in *; lra.
  - pose proof (inject_Z_xO p) as E.
    destruct r, s; simpl in *; lra.
  - change (inject_Z 1) with 1 in *. change (inject_Z 0) with 0.
    destruct r, s; simpl in *; lra.
Qed.

Lemma iter_pos_shr_1_ok n : forall mrs y,
  rec_ok mrs y -> rec_ok (SpecFloat.iter_pos shr_1 n mrs) (y * pow2 (- Zpos n)).
Proof.
  assert (Hhalf : pow2 (-1) == 1#2) by reflexivity.
  induction n as [n IH|n IH|]; intros mrs y H; simpl SpecFloat.iter_pos.
  - assert (E : y * pow2 (- Zpos n~1) == y * (1#2) * pow2 (- Zpos n) * pow2 (- Zpos n)).
    { replace (- Zpos n~1)%Z with (-1 + (- Zpos n + - Zpos n))%Z by lia.
      rewrite !pow2_add, Hhalf. ring. }
    eapply rec_ok_ext; [symmetry; exact E|]. apply IH, IH, shr_1_ok, H.
  - assert (E : y * pow2 (- Zpos n~0) == y * pow2 (- Zpos n) * pow2 (- Zpos n)).
    { replace (- Zpos n~0)%Z with (- Zpos n + - Zpos n)%Z by lia.
      rewrite !pow2_add. ring. }
    eapply rec_ok_ext; [symmetry; exact E|]. apply IH, IH, H.
  - eapply rec_ok_ext; [|apply shr_1_ok, H]. change (- Zpos 1)%Z with (-1)%Z.
    rewrite Hhalf. reflexivity.
Qed.

Lemma shr_ok mrs e n y :
  (0 <= n)%Z -> rec_ok mrs y ->
  rec_ok (fst (shr mrs e n)) (y * pow2 (- n)) /\ snd (shr mrs e n) = (e + n)%Z.
Proof.
  intros Hn H. destruct n as [|p|p]; try lia.
  - split; [|simpl; lia]. eapply rec_ok_ext; [|exact H].
    change (y == y * 1). ring.
  - split; [|reflexivity]. apply iter_pos_shr_1_ok, H.
Qed.


Lemma inject_Z_succ z : inject_Z (z + 1) == inject_Z z + 1.
Proof. rewrite inject_Z_plus. reflexivity. Qed.

Lemma inject_Z_pred z : inject_Z (z - 1) == inject_Z z - 1.
Proof. unfold Qeq, Qminus, Qplus, Qopp, inject_Z; simpl. lia. Qed.

Lemma frac_ok_range d r s : frac_ok d r s -> 0 <= d /\ d < 1.
Proof. destruct r, s; simpl; lra. Qed.

Lemma rec_ok_range mrs y :
  rec_ok mrs y -> inject_Z (shr_m mrs) <= y /\ y < inject_Z (shr_m mrs) + 1.
Proof. intros [_ H]. apply frac_ok_range in H. lra. Qed.

Lemma rec_ok_of_loc_nonneg m l y : rec_ok (shr_record_of_loc m l) y -> (0 <= m)%Z.
Proof. destruct l as [|[]]; intros [H _]; exact H. Qed.

Lemma shr_m_of_loc m l : shr_m (shr_record_of_loc m l) = m.
Proof. destruct l as [|[]]; reflexivity. Qed.

(** *** Rounding to nearest, ties to even *)

Lemma round_nearest_even_ok mrs y :
  rec_ok mrs y ->
  let m' := round_nearest_even (shr_m mrs) (loc_of_shr_record mrs) in
  (shr_m mrs <= m' <= shr_m mrs + 1)%Z /\
  y - (1#2) <= inject_Z m' /\ inject_Z m' <= y + (1#2).
Proof.
  destruct mrs as [m r s]. unfold rec_ok; simpl. intros [Hm H].
  pose proof (inject_Z_succ m) as E.
  destruct r, s; simpl in *; try destruct (Z.even m); (split; [lia|]); lra.
Qed.

(** The unit roundoff of binary64. *)
Definition u : Q := 1 # 9007199254740992.

Lemma Z_of_Q_lt a b : inject_Z a < inject_Z b -> (a < b)%Z.
Proof. unfold Qlt; simpl. lia. Qed.

Lemma Z_to_Q_lt a b : (a < b)%Z -> inject_Z a < inject_Z b.
Proof. unfold Qlt; simpl. lia. Qed.

Lemma Z_to_Q_le a b : (a <= b)%Z -> inject_Z a <= inject_Z b.
Proof. unfold Qle; simpl. lia. Qed.

Lemma shr_carry e :
  shr (shr_record_of_loc (2 ^ 53) loc_Exact) e 1 =
  (Build_shr_record 4503599627370496 false false, (e + 1)%Z).
Proof. reflexivity. Qed.

(** [binary_round_aux] on a positive mantissa of at least 53 digits, in the
    range of the normal numbers: the result is a normal number within half
    a unit in the last place of the value rounded, so within a relative
    error of [u]. *)
Lemma binary_round_aux_spec mx ex lx ym :
  (0 < mx)%Z ->
  rec_ok (shr_record_of_loc mx lx) ym ->
  (53 <= Zdigits2 mx)%Z ->
  (-1074 <= ex + Zdigits2 mx - 53)%Z ->
  (ex + Zdigits2 mx < 1024)%Z ->
  exists m e,
    binary_round_aux 53 1024 false mx ex lx = S754_finite false m e /\
    (2 ^ 52 <= Zpos m < 2 ^ 53)%Z /\
    (ex + Zdigits2 mx - 53 <= e <= ex + Zdigits2 mx - 52)%Z /\
    ym * pow2 ex * (1 - u) <= F2Q (Zpos m) e /\
    F2Q (Zpos m) e <= ym * pow2 ex * (1 + u).
Proof.
  intros Hmx Hrec Hd Hlo Hhi.
  set (d := Zdigits2 mx) in *.
  destruct (Zdigits2_spec mx Hmx) as [[Hdl Hdu] Hdpos]. fold d in Hdl, Hdu, Hdpos.
  unfold binary_round_aux, shr_fexp.
  fold d.
  assert (Hfexp : fexp 53 1024 (d + ex) = (d + ex - 53)%Z).
  { unfold fexp, emin. lia. }
  rewrite Hfexp.
  replace (d + ex - 53 - ex)%Z with (d - 53)%Z by lia.
  destruct (shr_ok (shr_record_of_loc mx lx) ex (d - 53) ym ltac:(lia) Hrec) as [H1 He1].
  destruct (shr (shr_record_of_loc mx lx) ex (d - 53)) as [mrs1 e1].
  simpl in H1, He1. subst e1.
  set (y1 := ym * pow2 (- (d - 53))) in *.
  (* the value lies between 2^52 and 2^53 *)
  destruct (rec_ok_range _ _ Hrec) as [Hy0l Hy0u]. rewrite shr_m_of_loc in Hy0l, Hy0u.
  assert (Hy1l : inject_Z (2 ^ 52) <= y1).
  { unfold y1.
    assert (E : inject_Z (2 ^ 52) == pow2 (d - 1) * pow2 (- (d - 53))).
    { rewrite <- pow2_add. replace (d - 1 + - (d - 53))%Z with 52%Z by lia. reflexivity. }
    rewrite E. apply Qmult_le_compat_r; [|apply Qlt_le_weak, pow2_pos].
    rewrite pow2_inject by lia.
    eapply Qle_trans; [apply Z_to_Q_le, Hdl | exact Hy0l]. }
  assert (Hy1u : y1 < inject_Z (2 ^ 53)).
  { unfold y1.
    assert (E : inject_Z (2 ^ 53) == pow2 d * pow2 (- (d - 53))).
    { rewrite <- pow2_add. replace (d + - (d - 53))%Z with 53%Z by lia. reflexivity. }
    rewrite E. apply Qmult_lt_compat_r; [apply pow2_pos|].
    rewrite pow2_inject by lia.
    eapply Qlt_le_trans; [exact Hy0u|].
    rewrite <- inject_Z_succ. apply Z_to_Q_le. lia. }
  destruct (rec_ok_range _ _ H1) as [Hm1l Hm1u].
  destruct (round_nearest_even_ok _ _ H1) as [Hr [Hrl Hru]].
  set (m2 := round_nearest_even (shr_m mrs1) (loc_of_shr_record mrs1)) in *.
  assert (Hm1 : (2 ^ 52 <= shr_m mrs1 < 2 ^ 53)%Z).
  { split.
    - assert (inject_Z (2 ^ 52) < inject_Z (shr_m mrs1 + 1)).
      { rewrite inject_Z_succ. eapply Qle_lt_trans; [exact Hy1l | exact Hm1u]. }
      apply Z_of_Q_lt in H. lia.
    - apply Z_of_Q_lt. eapply Qle_lt_trans; [exact Hm1l | exact Hy1u]. }
  assert (Hyval : ym * pow2 ex == y1 * pow2 (ex + (d - 53))).
  { unfold y1. rewrite pow2_add.
    setoid_replace (ym * pow2 (- (d - 53)) * (pow2 ex * pow2 (d - 53)))
      with (ym * pow2 ex * (pow2 (d - 53) * pow2 (- (d - 53)))) by ring.
    rewrite pow2_opp_r. ring. }
  assert (Hrel : y1 * (1 - u) <= inject_Z m2 /\ inject_Z m2 <= y1 * (1 + u)).
  { change (inject_Z (2 ^ 52)) with (4503599627370496 # 1) in Hy1l.
    unfold u. split; lra. }
  assert (Hfinal : forall m e,
             F2Q (Zpos m) e == inject_Z m2 * pow2 (ex + (d - 53)) ->
             ym * pow2 ex * (1 - u) <= F2Q (Zpos m) e /\
             F2Q (Zpos m) e <= ym * pow2 ex * (1 + u)).
  { intros m e E. rewrite E, Hyval.
    pose proof (pow2_pos (ex + (d - 53))) as HP.
    split.
    - setoid_replace (y1 * pow2 (ex + (d - 53)) * (1 - u))
        with (y1 * (1 - u) * pow2 (ex + (d - 53))) by ring.
      apply Qmult_le_compat_r; [tauto | lra].
    - setoid_replace (y1 * pow2 (ex + (d - 53)) * (1 + u))
        with (y1 * (1 + u) * pow2 (ex + (d - 53))) by ring.
      apply Qmult_le_compat_r; [tauto | lra]. }
  destruct (Z.eq_dec m2 (2 ^ 53)) as [Hcarry|Hnocarry].
  - (* the rounding carried into a 54th digit *)
    rewrite Hcarry. simpl shr_record_of_loc.
    change (Zdigits2 (2 ^ 53)) with 54%Z.
    assert (Hf2 : (fexp 53 1024 (54 + (ex + (d - 53))) - (ex + (d - 53)) = 1)%Z).
    { unfold fexp, emin. lia. }
    rewrite Hf2, shr_carry. unfold shr_m.
    assert (Hle : (ex + (d - 53) + 1 <=? 1024 - 53)%Z = true) by (apply Z.leb_le; lia).
    rewrite Hle.
    exists 4503599627370496%positive, (ex + (d - 53) + 1)%Z.
    split; [reflexivity|]. split; [lia|]. split; [lia|].
    apply Hfinal. unfold F2Q. rewrite Hcarry, pow2_add.
    change (pow2 1) with 2. change (inject_Z (2 ^ 53)) with (9007199254740992 # 1).
    change (inject_Z 4503599627370496) with (4503599627370496 # 1). ring.
  - assert (Hm2 : (2 ^ 52 <= m2 < 2 ^ 53)%Z) by lia.
    assert (Hd2 : Zdigits2 m2 = 53%Z).
    { pose proof (Zdigits2_between m2 52 53 ltac:(lia) Hm2). lia. }
    rewrite Hd2.
    assert (Hf2 : (fexp 53 1024 (53 + (ex + (d - 53))) - (ex + (d - 53)) = 0)%Z).
    { unfold fexp, emin. lia. }
    rewrite Hf2. simpl shr. unfold shr_m.
    destruct m2 as [|m|m]; try lia.
    assert (Hle : (ex + (d - 53) <=? 1024 - 53)%Z = true) by (apply Z.leb_le; lia).
    rewrite Hle.
    exists m, (ex + (d - 53))%Z.
    split; [reflexivity|]. split; [exact Hm2|]. split; [lia|].
    apply Hfinal. reflexivity.
Qed.


(** With an exact mantissa of exactly 53 digits nothing is rounded. *)
Lemma binary_round_aux_exact p ex :
  Zdigits2 (Zpos p) = 53%Z -> (-1074 <= ex <= 971)%Z ->
  binary_round_aux 53 1024 false (Zpos p) ex loc_Exact = S754_finite false p ex.
Proof.
  intros Hd Hex. unfold binary_round_aux, shr_fexp. rewrite Hd.
  assert (Hf : (fexp 53 1024 (53 + ex) - ex = 0)%Z) by (unfold fexp, emin; lia).
  rewrite Hf. cbn [shr shr_record_of_loc shr_m loc_of_shr_record round_nearest_even].
  rewrite Hd, Hf. cbn [shr shr_m].
  replace (ex <=? 1024 - 53)%Z with true by (symmetry; apply Z.leb_le; lia).
  reflexivity.
Qed.

(** *** Multiplication *)

Lemma SFmul_spec mx ex my ey :
  (53 <= Zdigits2 (Zpos (mx * my)))%Z ->
  (-1074 <= ex + ey + Zdigits2 (Zpos (mx * my)) - 53)%Z ->
  (ex + ey + Zdigits2 (Zpos (mx * my)) < 1024)%Z ->
  exists m e,
    SFmul 53 1024 (S754_finite false mx ex) (S754_finite false my ey)
      = S754_finite false m e /\
    (2 ^ 52 <= Zpos m < 2 ^ 53)%Z /\
    (ex + ey + Zdigits2 (Zpos (mx * my)) - 53 <= e
       <= ex + ey + Zdigits2 (Zpos (mx * my)) - 52)%Z /\
    F2Q (Zpos mx) ex * F2Q (Zpos my) ey * (1 - u) <= F2Q (Zpos m) e /\
    F2Q (Zpos m) e <= F2Q (Zpos mx) ex * F2Q (Zpos my) ey * (1 + u).
Proof.
  intros Hd Hlo Hhi. unfold SFmul. simpl xorb.
  destruct (binary_round_aux_spec (Zpos (mx * my)) (ex + ey) loc_Exact
              (inject_Z (Zpos (mx * my))) ltac:(lia)) as (m & e & E & Hm & He & Hl & Hu);
    try assumption.
  { split; [simpl; lia|]. simpl. ring. }
  exists m, e. split; [exact E|]. split; [exact Hm|]. split; [exact He|].
  assert (Ev : F2Q (Zpos mx) ex * F2Q (Zpos my) ey
               == inject_Z (Zpos (mx * my)) * pow2 (ex + ey)).
  { unfold F2Q. rewrite pow2_add, Pos2Z.inj_mul, inject_Z_mult. ring. }
  rewrite Ev. split; assumption.
Qed.

(** *** Division *)

Lemma Qmake_split q r d :
  inject_Z q + (r # d) == (q * Zpos d + r # d).
Proof. unfold Qeq, Qplus, inject_Z; simpl. lia. Qed.

Lemma new_location_ok nb k q :
  (0 <= q)%Z -> (0 <= k < Zpos nb)%Z ->
  rec_ok (shr_record_of_loc q (new_location (Zpos nb) k)) (inject_Z q + (k # nb)).
Proof.
  intros Hq Hk.
  assert (Hfrac : inject_Z q + (k # nb) - inject_Z q == k # nb) by ring.
  unfold new_location, new_location_even, new_location_odd.
  destruct (Z.even (Zpos nb)) eqn:Hev.
  - destruct (Z.eqb_spec k 0) as [->|Hk0].
    + split; [exact Hq|]. simpl. rewrite Hfrac. reflexivity.
    + destruct (Z.compare_spec (2 * k) (Zpos nb)) as [Hc|Hc|Hc];
        (split; [exact Hq|]); simpl; rewrite Hfrac; unfold Qlt, Qeq; simpl; lia.
  - destruct (Z.eqb_spec k 0) as [->|Hk0].
    + split; [exact Hq|]. simpl. rewrite Hfrac. reflexivity.
    + assert (Hodd : (2 * k <> Zpos nb)%Z).
      { intro E. rewrite <- E, Z.even_mul in Hev. discriminate. }
      destruct (Z.compare_spec (2 * k + 1) (Zpos nb)) as [Hc|Hc|Hc];
        (split; [exact Hq|]); simpl; rewrite Hfrac; unfold Qlt, Qeq; simpl; lia.
Qed.

Lemma SFdiv_spec mx ex my ey :
  Zdigits2 (Zpos mx) = 53%Z -> Zdigits2 (Zpos my) = 53%Z ->
  (-1000 <= ex - ey <= 1000)%Z ->
  exists m e,
    SFdiv 53 1024 (S754_finite false mx ex) (S754_finite false my ey)
      = S754_finite false m e /\
    (2 ^ 52 <= Zpos m < 2 ^ 53)%Z /\
    (ex - ey - 53 <= e <= ex - ey - 51)%Z /\
    F2Q (Zpos mx) ex / F2Q (Zpos my) ey * (1 - u) <= F2Q (Zpos m) e /\
    F2Q (Zpos m) e <= F2Q (Zpos mx) ex / F2Q (Zpos my) ey * (1 + u).
Proof.
  intros Hdx Hdy Hex.
  destruct (Zdigits2_spec (Zpos mx) ltac:(lia)) as [[Hxl Hxu] _].
  destruct (Zdigits2_spec (Zpos my) ltac:(lia)) as [[Hyl Hyu] _].
  rewrite Hdx in Hxl, Hxu. rewrite Hdy in Hyl, Hyu.
  change (2 ^ (53 - 1))%Z with 4503599627370496%Z in Hxl, Hyl.
  change (2 ^ 53)%Z with 9007199254740992%Z in Hxu, Hyu.
  unfold SFdiv, SFdiv_core_binary. simpl xorb. rewrite Hdx, Hdy.
  assert (He' : Z.min (fexp 53 1024 (53 + ex - (53 + ey))) (ex - ey) = (ex - ey - 53)%Z).
  { unfold fexp, emin. lia. }
  rewrite He'. replace (ex - ey - (ex - ey - 53))%Z with 53%Z by lia.
  cbv iota. rewrite Z.shiftl_mul_pow2 by lia.
  change (2 ^ 53)%Z with 9007199254740992%Z.
  pose proof (Z_div_mod (Zpos mx * 9007199254740992) (Zpos my) ltac:(lia)) as Hdm.
  destruct (Z.div_eucl (Zpos mx * 9007199254740992) (Zpos my)) as [q r].
  destruct Hdm as [Hqr Hr].
  assert (Hq : (2 ^ 52 <= q < 2 ^ 54)%Z).
  { change (2 ^ 52)%Z with 4503599627370496%Z.
    change (2 ^ 54)%Z with 18014398509481984%Z. nia. }
  pose proof (Zdigits2_between q 52 54 ltac:(lia) Hq) as Hdq.
  destruct (binary_round_aux_spec q (ex - ey - 53) (new_location (Zpos my) r)
              (inject_Z q + (r # my)) ltac:(lia))
    as (m & e & E & Hm & He & Hl & Hu); try lia.
  { apply new_location_ok; lia. }
  exists m, e. split; [exact E|]. split; [exact Hm|]. split; [lia|].
  assert (Ev : F2Q (Zpos mx) ex / F2Q (Zpos my) ey
               == (inject_Z q + (r # my)) * pow2 (ex - ey - 53)).
  { rewrite Qmake_split. unfold F2Q.
    replace (q * Zpos my + r)%Z with (Zpos mx * 9007199254740992)%Z by lia.
    assert (Hp : pow2 ex == pow2 (ex - ey - 53) * pow2 ey * 9007199254740992).
    { replace ex with ((ex - ey - 53) + ey + 53)%Z at 1 by lia.
      rewrite !pow2_add. reflexivity. }
    rewrite Hp.
    assert (Hmk : (Zpos mx * 9007199254740992 # my)
                  == inject_Z (Zpos mx) * 9007199254740992 / inject_Z (Zpos my)).
    { unfold Qeq, Qdiv, Qmult, Qinv, inject_Z; simpl. lia. }
    rewrite Hmk.
    pose proof (pow2_pos ey). pose proof (pow2_pos (ex - ey - 53)).
    assert (Hmy : ~ inject_Z (Zpos my) == 0) by (unfold Qeq; simpl; lia).
    field. split; first [lra | exact Hmy]. }
  rewrite Ev. split; assumption.
Qed.


(** *** Integers as doubles *)

Lemma iter_xO_digits p k :
  digits2_pos (Pos.iter xO p k) = (digits2_pos p + k)%positive.
Proof.
  induction k as [|k IH] using Pos.peano_ind.
  - simpl. lia.
  - rewrite Pos.iter_succ. simpl. rewrite IH. lia.
Qed.

Lemma iter_xO_value p k : Zpos (Pos.iter xO p k) = (Zpos p * 2 ^ Zpos k)%Z.
Proof.
  induction k as [|k IH] using Pos.peano_ind.
  - simpl. lia.
  - rewrite Pos.iter_succ, Pos2Z.inj_xO, IH, Pos2Z.inj_succ, Z.pow_succ_r by lia. lia.
Qed.

Lemma of_Z_spec n :
  (0 < n < 2 ^ 53)%Z ->
  exists m e,
    Num.of_Z n = S754_finite false m e /\
    Zdigits2 (Zpos m) = 53%Z /\
    e = (Zdigits2 n - 53)%Z /\
    F2Q (Zpos m) e == inject_Z n.
Proof.
  intros [Hn0 Hn]. destruct n as [|p|p]; try lia.
  pose proof (Zdigits2_between (Zpos p) 0 53 ltac:(lia) ltac:(simpl (2 ^ 0)%Z; lia)) as Hd.
  simpl Zdigits2 in *.
  unfold Num.of_Z, binary_normalize, binary_round, Num.prec, Num.emax.
  assert (Hf : fexp 53 1024 (Zpos (digits2_pos p) + 0) = (Zpos (digits2_pos p) - 53)%Z).
  { unfold fexp, emin. lia. }
  rewrite Hf. unfold shl_align.
  destruct (Z.eq_dec (Zpos (digits2_pos p)) 53) as [E|E].
  - rewrite E. simpl Z.sub. cbv iota.
    exists p, 0%Z. split; [apply binary_round_aux_exact; simpl; lia|].
    split; [exact E|]. split; [reflexivity|]. unfold F2Q. rewrite pow2_0. ring.
  - assert (Hk : (Zpos (digits2_pos p) - 53 - 0 = Zneg (Z.to_pos (53 - Zpos (digits2_pos p))))%Z)
      by lia.
    rewrite Hk. set (k := Z.to_pos (53 - Zpos (digits2_pos p))).
    assert (Hkz : Zpos k = (53 - Zpos (digits2_pos p))%Z) by (unfold k; lia).
    exists (Pos.iter xO p k), (Zpos (digits2_pos p) - 53)%Z.
    split; [apply binary_round_aux_exact; [simpl; rewrite iter_xO_digits|]; lia|].
    split; [simpl; rewrite iter_xO_digits; lia|]. split; [reflexivity|].
    unfold F2Q. rewrite iter_xO_value, inject_Z_mult, <- pow2_inject by lia.
    rewrite <- Qmult_assoc, <- pow2_add.
    replace (Zpos k + (Zpos (digits2_pos p) - 53))%Z with 0%Z by lia.
    rewrite pow2_0. ring.
Qed.

Lemma of_Z_0 : Num.of_Z 0 = S754_zero false.
Proof. reflexivity. Qed.

(** *** [Math.round] *)

Lemma Math_round_spec m e :
  exists r,
    Num.Math_round (S754_finite false m e) = Num.of_Z r /\
    inject_Z r <= F2Q (Zpos m) e + (1#2) /\
    F2Q (Zpos m) e + (1#2) < inject_Z r + 1.
Proof.
  unfold Num.Math_round, cond_Zopp, F2Q.
  destruct (Z.leb_spec 0 e) as [He|He].
  - exists (Zpos m * 2 ^ e)%Z. split; [reflexivity|].
    rewrite inject_Z_mult, <- pow2_inject by exact He. split; lra.
  - set (D := (2 ^ (1 - e))%Z). set (N := (2 * Zpos m + 2 ^ (- e))%Z).
    exists (N / D)%Z. split; [reflexivity|].
    assert (HD : (0 < D)%Z) by (apply Z.pow_pos_nonneg; lia).
    pose proof (Z.div_mod N D ltac:(lia)) as Hdm.
    pose proof (Z.mod_pos_bound N D HD) as Hmod.
    set (P := pow2 (e - 1)).
    assert (HP : 0 < P) by apply pow2_pos.
    assert (EN : inject_Z (Zpos m) * pow2 e + (1#2) == inject_Z N * P).
    { unfold N, P. rewrite inject_Z_plus, inject_Z_mult, <- pow2_inject by lia.
      assert (E1 : pow2 e == 2 * pow2 (e - 1)).
      { replace e with (1 + (e - 1))%Z at 1 by lia. rewrite pow2_add. reflexivity. }
      assert (E2 : pow2 (- e) * pow2 (e - 1) == 1#2).
      { rewrite <- pow2_add. replace (- e + (e - 1))%Z with (-1)%Z by lia. reflexivity. }
      rewrite E1. change (inject_Z 2) with 2.
      setoid_replace ((2 * inject_Z (Zpos m) + pow2 (- e)) * pow2 (e - 1))
        with (2 * inject_Z (Zpos m) * pow2 (e - 1) + pow2 (- e) * pow2 (e - 1)) by ring.
      rewrite E2. ring. }
    assert (ED : inject_Z D * P == 1).
    { unfold D, P. rewrite <- pow2_inject, <- pow2_add by lia.
      replace (1 - e + (e - 1))%Z with 0%Z by lia. reflexivity. }
    rewrite EN.
    assert (Hl : inject_Z (D * (N / D)) <= inject_Z N) by (apply Z_to_Q_le; lia).
    assert (Hu : inject_Z N < inject_Z (D * (N / D) + D)) by (apply Z_to_Q_lt; lia).
    rewrite inject_Z_plus, inject_Z_mult in Hu. rewrite inject_Z_mult in Hl.
    split.
    + setoid_replace (inject_Z (N / D)) with (inject_Z D * inject_Z (N / D) * P)
        by (rewrite <- (Qmult_1_l (inject_Z (N / D))) at 1; rewrite <- ED; ring).
      apply Qmult_le_compat_r; [exact Hl | lra].
    + setoid_replace (inject_Z (N / D) + 1)
        with ((inject_Z D * inject_Z (N / D) + inject_Z D) * P)
        by (rewrite <- (Qmult_1_l (inject_Z (N / D))) at 1; rewrite <- ED at 1 2; ring).
      apply Qmult_lt_compat_r; [exact HP | exact Hu].
Qed.


(** *** The percentage of [updatePage] *)

(** The percentage as the specification words it: [100 * c / t] rounded
    half up, in exact arithmetic. *)
Definition exact_percent (c t : Z) : Z := ((200 * c + t) / (2 * t))%Z.

(** [100 * c / t] lies exactly half way between two integers. *)
Definition tie (c t : Z) : bool := ((200 * c + t) mod (2 * t) =? 0)%Z.

Lemma of_Z_100 : Num.of_Z 100 = S754_finite false 7036874417766400 (-46).
Proof. reflexivity. Qed.

Lemma percent_0 t : (0 < t < 2 ^ 32)%Z -> percent 0 (Z.to_nat t) = Num.of_Z 0.
Proof.
  intro Ht. unfold percent, Num.of_nat. rewrite Z2Nat.id by lia.
  destruct (of_Z_spec t ltac:(lia)) as (mt & et & Et & _).
  simpl Z.of_nat. rewrite of_Z_0, Et, of_Z_100. reflexivity.
Qed.

Lemma percent_pos_spec c t :
  (0 < c <= t)%Z -> (t < 2 ^ 32)%Z ->
  exists k,
    percent (Z.to_nat c) (Z.to_nat t) = Num.of_Z k /\
    (tie c t = false -> k = exact_percent c t) /\
    (k = exact_percent c t \/ k = (exact_percent c t - 1)%Z).
Proof.
  intros Hc Ht.
  unfold percent, Num.of_nat. rewrite !Z2Nat.id by lia.
  destruct (of_Z_spec c ltac:(lia)) as (mc & ec & Ec & Hdc & Hec & Vc).
  destruct (of_Z_spec t ltac:(lia)) as (mt & et & Et & Hdt & Het & Vt).
  pose proof (Zdigits2_between c 0 32 ltac:(lia) ltac:(simpl (2 ^ 0)%Z; lia)) as Hdigc.
  pose proof (Zdigits2_between t 0 32 ltac:(lia) ltac:(simpl (2 ^ 0)%Z; lia)) as Hdigt.
  rewrite Ec, Et, of_Z_100. unfold Num.div, Num.mul, Num.prec, Num.emax.
  destruct (SFdiv_spec mc ec mt et Hdc Hdt ltac:(lia))
    as (mq & eq & Eq & Hmq & Heq & Hql & Hqu).
  rewrite Eq.
  assert (Hprod : (2 ^ 104 <= Zpos (mq * 7036874417766400) < 2 ^ 106)%Z).
  { rewrite Pos2Z.inj_mul.
    change (2 ^ 52)%Z with 4503599627370496%Z in Hmq.
    change (2 ^ 53)%Z with 9007199254740992%Z in Hmq.
    change (2 ^ 104)%Z with 20282409603651670423947251286016%Z.
    change (2 ^ 106)%Z with 81129638414606681695789005144064%Z. lia. }
  pose proof (Zdigits2_between _ 104 106 ltac:(lia) Hprod) as Hdp.
  destruct (SFmul_spec mq eq 7036874417766400 (-46) ltac:(lia) ltac:(lia) ltac:(lia))
    as (mp & ep & Ep & _ & _ & Hpl & Hpu).
  rewrite Ep.
  destruct (Math_round_spec mp ep) as (r & Er & Hrl & Hru).
  exists r. split; [exact Er|].
  (* the exact quotient and its bounds *)
  set (V := F2Q (Zpos mp) ep) in *.
  set (Qv := F2Q (Zpos mq) eq) in *.
  assert (E100 : F2Q 7036874417766400 (-46) == 100) by reflexivity.
  rewrite E100 in Hpl, Hpu. rewrite Vc, Vt in Hql, Hqu.
  set (iT := / inject_Z t).
  assert (HiT : inject_Z t * iT == 1).
  { unfold iT. apply Qmult_inv_r. unfold Qeq; simpl. lia. }
  assert (HiTpos : 0 < iT).
  { unfold iT. apply Qinv_lt_0_compat. change 0 with (inject_Z 0). apply Z_to_Q_lt. lia. }
  assert (HiTlow : 1 # 4294967296 < iT).
  { assert (Hlt : 0 < (4294967296 - inject_Z t) * iT).
    { apply Qmult_lt_0_compat; [|exact HiTpos].
      assert (inject_Z t < inject_Z (2 ^ 32)) by (apply Z_to_Q_lt; lia).
      change (inject_Z (2 ^ 32)) with 4294967296 in H. lra. }
    setoid_replace ((4294967296 - inject_Z t) * iT)
      with (4294967296 * iT - inject_Z t * iT) in Hlt by ring.
    rewrite HiT in Hlt. lra. }
  set (X := inject_Z c * iT).
  assert (EX : inject_Z c / inject_Z t == X) by reflexivity.
  rewrite EX in Hql, Hqu.
  assert (HX0 : 0 < X).
  { unfold X. apply Qmult_lt_0_compat; [|exact HiTpos].
    change 0 with (inject_Z 0). apply Z_to_Q_lt. lia. }
  assert (HX1 : X <= 1).
  { unfold X. rewrite <- HiT. apply Qmult_le_compat_r; [apply Z_to_Q_le; lia | lra]. }
  (* the exact rounding, in integers *)
  set (E := exact_percent c t).
  pose proof (Z.div_mod (200 * c + t) (2 * t) ltac:(lia)) as Hdm.
  pose proof (Z.mod_pos_bound (200 * c + t) (2 * t) ltac:(lia)) as Hmod.
  fold (exact_percent c t) in Hdm. fold E in Hdm.
  set (R := ((200 * c + t) mod (2 * t))%Z) in *.
  assert (Hscale : forall a b : Z,
             inject_Z (2 * t * a + b) * iT == 2 * inject_Z a + inject_Z b * iT).
  { intros a b. rewrite inject_Z_plus, !inject_Z_mult. change (inject_Z 2) with 2.
    setoid_replace ((2 * inject_Z t * inject_Z a + inject_Z b) * iT)
      with (2 * inject_Z a * (inject_Z t * iT) + inject_Z b * iT) by ring.
    rewrite HiT. ring. }
  assert (Hval : 200 * X + 1 == 2 * inject_Z E + inject_Z R * iT).
  { rewrite <- Hscale, <- Hdm. rewrite inject_Z_plus, inject_Z_mult.
    change (inject_Z 200) with 200. unfold X.
    setoid_replace ((200 * inject_Z c + inject_Z t) * iT)
      with (200 * (inject_Z c * iT) + inject_Z t * iT) by ring.
    rewrite HiT. reflexivity. }
  assert (HRu : inject_Z R * iT <= 2 - iT).
  { setoid_replace (2 - iT) with (inject_Z (2 * t - 1) * iT).
    - apply Qmult_le_compat_r; [apply Z_to_Q_le; lia | lra].
    - rewrite inject_Z_pred, inject_Z_mult. change (inject_Z 2) with 2.
      setoid_replace ((2 * inject_Z t - 1) * iT) with (2 * (inject_Z t * iT) - iT) by ring.
      rewrite HiT. ring. }
  assert (HRl0 : 0 <= inject_Z R * iT).
  { apply Qmult_le_0_compat; [|lra]. change 0 with (inject_Z 0). apply Z_to_Q_le. lia. }
  unfold u in *.
  assert (Hupper : V + (1#2) < inject_Z E + 1) by lra.
  assert (Hrle : (r <= E)%Z).
  { assert (inject_Z r < inject_Z (E + 1)) by (rewrite inject_Z_succ; lra).
    apply Z_of_Q_lt in H. lia. }
  assert (Hlower1 : inject_Z E - 1 < V + (1#2)) by lra.
  assert (Hrge1 : (E - 1 <= r)%Z).
  { assert (inject_Z (E - 1) < inject_Z (r + 1)).
    { rewrite inject_Z_succ, inject_Z_pred. lra. }
    apply Z_of_Q_lt in H. lia. }
  split; [|lia].
  intro Htie. unfold tie in Htie. fold R in Htie. apply Z.eqb_neq in Htie.
  assert (HRl : iT <= inject_Z R * iT).
  { rewrite <- (Qmult_1_l iT) at 1. apply Qmult_le_compat_r; [|lra].
    change 1 with (inject_Z 1). apply Z_to_Q_le. lia. }
  assert (Hlower : inject_Z E < V + (1#2) + 1) by lra.
  assert (inject_Z E <= V + (1#2)) by lra.
  assert (inject_Z E < inject_Z (r + 1)) by (rewrite inject_Z_succ; lra).
  apply Z_of_Q_lt in H0. lia.
Qed.

End Binary64.

(** ** The progress of a page with to-dos *)

Definition todo_count (bs : list Block.t) : nat := List.length (filter is_todo bs).

Definition completed_count (bs : list Block.t) : nat :=
  List.length (filter is_checked (filter is_todo bs)).

Lemma filter_length_le {A} (f : A -> bool) l :
  List.length (filter f l) <= List.length l.
Proof.
  induction l as [|x l IH]; simpl; [lia|]. destruct (f x); simpl; lia.
Qed.

(** The percentage for [c] completed of [t] to-dos, with [t] below the
    bound on array lengths: an integer of [0..100], the exact percentage
    rounded half up unless that is a tie, and never more than one below. *)
Lemma percent_spec (c t : nat) :
  0 < t -> c <= t -> (Z.of_nat t < 2 ^ 32)%Z ->
  exists k,
    percent c t = Num.of_Z k /\
    (0 <= k <= 100)%Z /\
    (Binary64.tie (Z.of_nat c) (Z.of_nat t) = false ->
     k = Binary64.exact_percent (Z.of_nat c) (Z.of_nat t)) /\
    (k = Binary64.exact_percent (Z.of_nat c) (Z.of_nat t) \/
     k = (Binary64.exact_percent (Z.of_nat c) (Z.of_nat t) - 1)%Z).
Proof.
  intros Ht Hc Hb.
  assert (HE : (0 <= Binary64.exact_percent (Z.of_nat c) (Z.of_nat t) <= 100)%Z).
  { unfold Binary64.exact_percent. split.
    - apply Z.div_pos; lia.
    - assert ((200 * Z.of_nat c + Z.of_nat t) / (2 * Z.of_nat t) < 101)%Z; [|lia].
      apply Z.div_lt_upper_bound; lia. }
  destruct c as [|c'].
  - exists 0%Z. split.
    + rewrite <- (Nat2Z.id t). apply Binary64.percent_0. lia.
    + assert (E0 : Binary64.exact_percent (Z.of_nat 0) (Z.of_nat t) = 0%Z).
      { unfold Binary64.exact_percent. simpl Z.of_nat. apply Z.div_small. lia. }
      rewrite E0. repeat split; lia.
  - set (c := S c') in *.
    destruct (Binary64.percent_pos_spec (Z.of_nat c) (Z.of_nat t) ltac:(lia) Hb)
      as (k & Ek & Hnt & Hk).
    rewrite !Nat2Z.id in Ek.
    exists k. split; [exact Ek|]. split; [|split; assumption].
    destruct (Binary64.tie (Z.of_nat c) (Z.of_nat t)) eqn:Htie.
    + unfold Binary64.tie in Htie. apply Z.eqb_eq in Htie.
      pose proof (Z.div_mod (200 * Z.of_nat c + Z.of_nat t) (2 * Z.of_nat t) ltac:(lia)) as Hdm.
      rewrite Htie in Hdm. fold (Binary64.exact_percent (Z.of_nat c) (Z.of_nat t)) in Hdm.
      assert (1 <= Binary64.exact_percent (Z.of_nat c) (Z.of_nat t))%Z by nia.
      lia.
    + rewrite (Hnt eq_refl). exact HE.
Qed.

Lemma updated_page_progress p updates bs now :
  PartialPage.blocks updates = Some bs ->
  0 < todo_count bs ->
  Page.progress (updated_page p updates now) = percent (completed_count bs) (todo_count bs).
Proof.
  intros Hb Ht. unfold updated_page; simpl. rewrite Hb; simpl.
  fold (todo_count bs). apply Nat.ltb_lt in Ht. rewrite Ht. reflexivity.
Qed.

(** C3 (as the code has it).  When the new block list holds a [todo] (and
    is no longer than an array can be), the progress [updatePage] stores is
    [Math.round] of the double [(completed / total) * 100]: an integer of
    [0..100] that equals [100 * completed / total] rounded half up whenever
    that quotient is not exactly half way between two integers, and is that
    or one less when it is. *)
Theorem progress_is_rounded_percentage
    (id : string) (updates : PartialPage.t) (bs : list Block.t)
    (st : Store) (w : World) :
  PartialPage.blocks updates = Some bs ->
  0 < todo_count bs ->
  (Z.of_nat (List.length bs) < 2 ^ 32)%Z ->
  let c := Z.of_nat (completed_count bs) in
  let t := Z.of_nat (todo_count bs) in
  exists k,
    (0 <= k <= 100)%Z /\
    (Binary64.tie c t = false -> k = Binary64.exact_percent c t) /\
    (k = Binary64.exact_percent c t \/ k = (Binary64.exact_percent c t - 1)%Z) /\
    Forall2 (fun p p' =>
               if Page.id p =? id then Page.progress p' = Num.of_Z k else p' = p)
            (pages st) (pages (fst (updatePage id updates st w))).
Proof.
  intros Hb Ht Hlen c t.
  assert (Hct : completed_count bs <= todo_count bs) by apply filter_length_le.
  assert (Htl : todo_count bs <= List.length bs) by apply filter_length_le.
  destruct (percent_spec (completed_count bs) (todo_count bs) Ht Hct ltac:(lia))
    as (k & Ek & Hk & Hnt & Hor).
  exists k. split; [exact Hk|]. split; [exact Hnt|]. split; [exact Hor|].
  destruct (updatePage_spec id updates st w) as (F & _).
  eapply Forall2_impl; [|exact F]. intros p p'. unfold upd_rel.
  destruct (Page.id p =? id); [|auto]. intros [now ->].
  rewrite (updated_page_progress p updates bs now Hb Ht). exact Ek.
Qed.

(** Three to-dos, the first and the last checked. *)
Definition three_todos : list Block.t :=
  [ Block.mk "t1" (kind todo) (VStr "a") (VBool true);
    Block.mk "t2" (kind todo) (VStr "b") (VBool false);
    Block.mk "t3" (kind todo) (VStr "c") (VBool true) ].

Lemma progress_is_rounded_percentage_witness :
  Forall2 (fun p p' =>
             if Page.id p =? "1" then Page.progress p' = Num.of_Z 67 else p' = p)
          (pages store0)
          (pages (fst (updatePage "1" (PartialPage.of_blocks three_todos) store0 world1))).
Proof.
  assert (Ht : 0 < todo_count three_todos) by (unfold todo_count; simpl; lia).
  assert (Hl : (Z.of_nat (List.length three_todos) < 2 ^ 32)%Z) by (simpl; lia).
  destruct (progress_is_rounded_percentage "1" (PartialPage.of_blocks three_todos)
              three_todos store0 world1 eq_refl Ht Hl)
    as (k & _ & Hnt & _ & F).
  rewrite (Hnt eq_refl) in F. exact F.
Defined.

Example two_of_three_is_67 : percent 2 3 = Num.of_Z 67.
Proof. reflexivity. Qed.

(** Forty to-dos of which the first twenty-three are checked. *)
Definition forty_todos : list Block.t :=
  map (fun n => Block.mk (idgen world0 (100 + n)) (kind todo) (VStr "step")
                         (VBool (n <? 23)%nat))
      (seq 0 40).

(** C3, a tie: 23 of 40 is 57.5 per cent, which rounds half up to 58; the
    double [(23 / 40) * 100] is just below 57.5 and [Math.round] gives 57. *)
Lemma progress_23_of_40_is_57 :
  let st' := fst (updatePage "1" (PartialPage.of_blocks forty_todos) store0 world1) in
  todo_count forty_todos = 40 /\
  completed_count forty_todos = 23 /\
  Binary64.exact_percent 23 40 = 58%Z /\
  map Page.progress (pages st') = [Num.of_Z 57; Num.of_Z 100] /\
  Num.of_Z 57 <> Num.of_Z 58.
Proof.
  repeat split; try (vm_compute; reflexivity). vm_compute. discriminate.
Qed.

(** * Further properties of the store *)

(** ** deletePage, createPage and the selection *)

Lemma find_page_filter_other id id' ps :
  id' <> id ->
  find_page id' (filter (fun p => negb (Page.id p =? id)) ps) = find_page id' ps.
Proof.
  intro Hne. induction ps as [|p ps IH]; simpl; [reflexivity|].
  destruct (Page.id p =? id) eqn:E; simpl.
  - apply String.eqb_eq in E.
    destruct (Page.id p =? id') eqn:E'; [|exact IH].
    apply String.eqb_eq in E'. congruence.
  - rewrite IH. reflexivity.
Qed.

Lemma find_page_filter_same id ps :
  find_page id (filter (fun p => negb (Page.id p =? id)) ps) = None.
Proof.
  induction ps as [|p ps IH]; simpl; [reflexivity|].
  destruct (Page.id p =? id) eqn:E; simpl; [exact IH|]. rewrite E. exact IH.
Qed.

(** X1.  After [deletePage id] no page is found under [id], every other
    identifier finds the page it found before, the selection is cleared when
    it was [id] and otherwise selects the same page as before; neither the
    clock nor the generator is read. *)
Theorem deletePage_spec (id : string) (st : Store) (w : World) :
  let st' := fst (deletePage id st w) in
  find_page id (pages st') = None /\
  (forall id', id' <> id -> find_page id' (pages st') = find_page id' (pages st)) /\
  selectedPageId st' =
    (match selectedPageId st with
     | Some sel => if sel =? id then None else Some sel
     | None => None
     end) /\
  selectedPage st' =
    (match selectedPageId st with
     | Some sel => if sel =? id then None else selectedPage st
     | None => None
     end) /\
  isGenerating st' = isGenerating st /\
  snd (deletePage id st w) = w.
Proof.
  unfold deletePage, ret, selectedPage. simpl.
  destruct (selectedPageId st) as [sel|] eqn:S.
  - destruct (sel =? id) eqn:E; simpl; rewrite ?S.
    + repeat split; auto using find_page_filter_same, find_page_filter_other.
    + apply String.eqb_neq in E.
      repeat split; auto using find_page_filter_same, find_page_filter_other.
  - simpl. rewrite S.
    repeat split; auto using find_page_filter_same, find_page_filter_other.
Qed.

(** X2.  The page [createPage] makes is the one the selection finds
    afterwards, even when its fresh identifier collides with an older
    page's: the new page is in front and [find] stops at it. *)
Theorem createPage_selects_new_page (type : PageType) (st : Store) (w : World) :
  let st' := fst (createPage type st w) in
  exists newPage,
    pages st' = newPage :: pages st /\
    selectedPage st' = Some newPage /\
    Page.type newPage = type /\
    Page.title newPage = "" /\
    Page.emoji newPage = (match type with daily_log => "ðŸ“…" | _ => "ðŸ“„" end).
Proof.
  simpl. eexists. split; [reflexivity|]. split; [|repeat split].
  unfold selectedPage, find_page. simpl. rewrite String.eqb_refl. reflexivity.
Qed.

(** ** A page identifier that is not in the store *)

Lemma mapM_update_one_absent id updates ps w :
  find_page id ps = None -> mapM (update_one id updates) ps w = (ps, w).
Proof.
  revert w; induction ps as [|p ps IH]; intros w Hf; [reflexivity|].
  simpl in Hf. destruct (Page.id p =? id) eqn:E; [discriminate|].
  rewrite mapM_cons, update_one_eq, E. simpl. rewrite (IH w Hf). reflexivity.
Qed.

Lemma find_page_none_filter id ps :
  find_page id ps = None -> filter (fun p => negb (Page.id p =? id)) ps = ps.
Proof.
  induction ps as [|p ps IH]; simpl; intro Hf; [reflexivity|].
  destruct (Page.id p =? id); [discriminate|]. simpl. rewrite IH by exact Hf. reflexivity.
Qed.

(** X3.  With a page identifier that no page has, [updatePage],
    [updateBlock], [addBlock] and [deleteBlock] return the state and the
    world as they were (no timestamp is read, no identifier drawn), and
    [deletePage] keeps the page list. *)
Theorem unknown_page_is_no_op
    (pageId blockId : string) (updates : PartialPage.t) (bupdates : PartialBlock.t)
    (st : Store) (w : World) :
  find_page pageId (pages st) = None ->
  updatePage pageId updates st w = (st, w) /\
  updateBlock pageId blockId bupdates st w = (st, w) /\
  addBlock pageId blockId st w = (st, w) /\
  deleteBlock pageId blockId st w = (st, w) /\
  pages (fst (deletePage pageId st w)) = pages st.
Proof.
  intro Hf. unfold updateBlock, addBlock, deleteBlock. rewrite Hf.
  repeat split.
  - unfold updatePage, bind. rewrite (mapM_update_one_absent _ _ _ _ Hf).
    destruct st; reflexivity.
  - unfold deletePage, ret. simpl. rewrite (find_page_none_filter _ _ Hf).
    destruct (selectedPageId st) as [sel|]; [destruct (sel =? pageId)|]; reflexivity.
Qed.

Lemma unknown_page_is_no_op_witness :
  updateBlock "9" "b1" PartialBlock.empty store0 world1 = (store0, world1) /\
  addBlock "9" "b1" store0 world1 = (store0, world1).
Proof.
  pose proof (unknown_page_is_no_op "9" "b1" PartialPage.empty PartialBlock.empty
                store0 world1 eq_refl) as (_ & H1 & H2 & _).
  split; assumption.
Defined.

(** ** Block handlers on a block that is in the page *)

Lemma findIndex_first a l1 b l2 :
  Block.id b = a -> (forall x, In x l1 -> Block.id x <> a) ->
  findIndex a (l1 ++ b :: l2) = Z.of_nat (List.length l1).
Proof.
  intros Hb. induction l1 as [|x l1 IH]; intro Habs.
  - simpl. rewrite <- Hb, String.eqb_refl. reflexivity.
  - simpl app. cbn [findIndex].
    destruct (Block.id x =? a) eqn:E.
    + apply String.eqb_eq in E. exfalso. apply (Habs x); [left; reflexivity | exact E].
    + rewrite IH by (intros y Hy; apply Habs; right; exact Hy).
      destruct (Z.ltb_spec (Z.of_nat (List.length l1)) 0); [lia|].
      simpl List.length. lia.
Qed.

Lemma splice_insert_after {A} (x : A) l1 a l2 :
  splice_insert (Z.of_nat (List.length l1) + 1) x (l1 ++ a :: l2) = (l1 ++ a :: x :: l2)%list.
Proof.
  unfold splice_insert.
  destruct (Z.ltb_spec (Z.of_nat (List.length l1) + 1) 0); [lia|].
  rewrite length_app. simpl List.length.
  replace (Z.to_nat (Z.min (Z.of_nat (List.length l1) + 1)
                           (Z.of_nat (List.length l1 + S (List.length l2)))))
    with (List.length l1 + 1)%nat by lia.
  rewrite firstn_app_2, skipn_app.
  replace (List.length l1 + 1 - List.length l1)%nat with 1%nat by lia.
  rewrite skipn_all2 by lia. simpl. rewrite <- app_assoc. reflexivity.
Qed.

(** X4.  [addBlock] with an [afterBlockId] that a block of the page has
    puts one new empty [text] block right behind the first such block and
    keeps every other block where it was. *)
Theorem addBlock_inserts_after
    (pageId afterBlockId : string) (st : Store) (w : World)
    (page : Page.t) (l1 l2 : list Block.t) (a : Block.t) :
  find_page pageId (pages st) = Some page ->
  Page.blocks page = (l1 ++ a :: l2)%list ->
  Block.id a = afterBlockId ->
  (forall b, In b l1 -> Block.id b <> afterBlockId) ->
  exists page',
    find_page pageId (pages (fst (addBlock pageId afterBlockId st w))) = Some page' /\
    Page.blocks page' =
      (l1 ++ a :: Block.mk (idgen w (drawn w)) (kind text) (VStr "") VUndefined :: l2)%list.
Proof.
  intros Hf Hb Ha Habs. unfold addBlock. rewrite Hf.
  unfold bind, generateId. cbv beta iota. rewrite Hb.
  rewrite (findIndex_first _ _ _ _ Ha Habs), splice_insert_after.
  eexists. split.
  - apply find_page_updatePage; [exact Hf | reflexivity].
  - reflexivity.
Qed.

Lemma addBlock_inserts_after_witness :
  exists page',
    find_page "1" (pages (fst (addBlock "1" "b2" store0 world1))) = Some page' /\
    block_ids (Page.blocks page') = ["b1"; "b2"; "g0"; "b3"; "b4"; "b5"].
Proof.
  destruct (addBlock_inserts_after "1" "b2" store0 world1 (mock_page1 1000 1001)
              [Block.mk "b1" (kind h1) (VStr "Project Goals") VUndefined]
              (skipn 2 (Page.blocks (mock_page1 1000 1001)))
              (Block.mk "b2" (kind text)
                 (VStr "We need to modernize the look and feel of the landing page.")
                 VUndefined)
              eq_refl eq_refl eq_refl)
    as (page' & Hf & Hb).
  - intros b [<-|[]]. discriminate.
  - exists page'. split; [exact Hf|]. rewrite Hb. reflexivity.
Defined.

Lemma NoDup_ids_split l1 b l2 :
  NoDup (block_ids (l1 ++ b :: l2)) ->
  forall x, In x (l1 ++ l2) -> Block.id x <> Block.id b.
Proof.
  intros Hnd x Hx E.
  unfold block_ids in Hnd. rewrite map_app in Hnd. simpl in Hnd.
  apply NoDup_remove_2 in Hnd. apply Hnd.
  rewrite <- map_app, <- E. apply in_map, Hx.
Qed.

(** X5.  On a page with pairwise distinct block identifiers and at least
    two blocks, [deleteBlock] with the identifier of one of them removes
    that block and keeps the others in their order. *)
Theorem deleteBlock_removes_the_block
    (pageId : string) (st : Store) (w : World)
    (page : Page.t) (l1 l2 : list Block.t) (b : Block.t) :
  find_page pageId (pages st) = Some page ->
  Page.blocks page = (l1 ++ b :: l2)%list ->
  NoDup (block_ids (Page.blocks page)) ->
  (l1 ++ l2)%list <> [] ->
  exists page',
    find_page pageId (pages (fst (deleteBlock pageId (Block.id b) st w))) = Some page' /\
    Page.blocks page' = (l1 ++ l2)%list.
Proof.
  intros Hf Hb Hnd Hne. unfold deleteBlock. rewrite Hf, Hb.
  rewrite Hb in Hnd.
  assert (Hlen : (List.length (l1 ++ b :: l2) <=? 1)%nat = false).
  { apply Nat.leb_gt. rewrite length_app. simpl.
    destruct l1, l2; simpl in *; try lia. congruence. }
  rewrite Hlen.
  assert (Hfil : filter (fun x => negb (Block.id x =? Block.id b)) (l1 ++ b :: l2)
                 = (l1 ++ l2)%list).
  { rewrite filter_app. simpl. rewrite String.eqb_refl. simpl.
    rewrite <- filter_app. apply filter_absent.
    apply (NoDup_ids_split _ _ _ Hnd). }
  rewrite Hfil. eexists. split.
  - apply find_page_updatePage; [exact Hf | reflexivity].
  - reflexivity.
Qed.

Lemma deleteBlock_removes_the_block_witness :
  exists page',
    find_page "2" (pages (fst (deleteBlock "2" "l2" store0 world1))) = Some page' /\
    block_ids (Page.blocks page') = ["l1"; "l3"].
Proof.
  destruct (deleteBlock_removes_the_block "2" store0 world1 (mock_page2 1002 1003)
              [Block.mk "l1" (kind h1) (VStr "Morning Reflection") VUndefined]
              [Block.mk "l3" (kind todo) (VStr "Gym session") (VBool true)]
              (Block.mk "l2" (kind text)
                 (VStr "Started the day with a clear mind. Focused on the API integration.")
                 VUndefined)
              eq_refl eq_refl)
    as (page' & Hf & Hb).
  - apply NoDup_by_eqb. reflexivity.
  - discriminate.
  - exists page'. split; [exact Hf|]. rewrite Hb. reflexivity.
Defined.

Lemma updateBlock_on_block pageId updates st w page l1 l2 b :
  find_page pageId (pages st) = Some page ->
  Page.blocks page = (l1 ++ b :: l2)%list ->
  NoDup (block_ids (Page.blocks page)) ->
  find_page pageId (pages (fst (updateBlock pageId (Block.id b) updates st w))) =
  Some (updated_page page
          (PartialPage.of_blocks (l1 ++ spread_block b updates :: l2))
          (fst (Date_now w))).
Proof.
  intros Hf Hb Hnd. unfold updateBlock. rewrite Hf, Hb. rewrite Hb in Hnd.
  pose proof (NoDup_ids_split _ _ _ Hnd) as Hother.
  rewrite map_app. simpl map. rewrite String.eqb_refl.
  rewrite !map_spread_absent
    by (intros x Hx; apply Hother; apply in_or_app; auto).
  apply find_page_updatePage; [exact Hf | reflexivity].
Qed.

(** X6.  On a page with pairwise distinct block identifiers, [updateBlock]
    with the identifier of one of its blocks merges the partial fields into
    that block and keeps every other block as it was and where it was. *)
Theorem updateBlock_merges_one_block
    (pageId : string) (updates : PartialBlock.t) (st : Store) (w : World)
    (page : Page.t) (l1 l2 : list Block.t) (b : Block.t) :
  find_page pageId (pages st) = Some page ->
  Page.blocks page = (l1 ++ b :: l2)%list ->
  NoDup (block_ids (Page.blocks page)) ->
  exists page',
    find_page pageId (pages (fst (updateBlock pageId (Block.id b) updates st w)))
      = Some page' /\
    Page.blocks page' = (l1 ++ spread_block b updates :: l2)%list.
Proof.
  intros Hf Hb Hnd. eexists. split.
  - apply updateBlock_on_block; eassumption.
  - reflexivity.
Qed.

Lemma updateBlock_merges_one_block_witness :
  exists page',
    find_page "2"
      (pages (fst (updateBlock "2" "l3"
                     (PartialBlock.mk None None None (Some (VBool false)))
                     store0 world1))) = Some page' /\
    map Block.checked (Page.blocks page') = [VUndefined; VUndefined; VBool false].
Proof.
  destruct (updateBlock_merges_one_block "2"
              (PartialBlock.mk None None None (Some (VBool false)))
              store0 world1 (mock_page2 1002 1003)
              (firstn 2 (Page.blocks (mock_page2 1002 1003))) []
              (Block.mk "l3" (kind todo) (VStr "Gym session") (VBool true))
              eq_refl eq_refl)
    as (page' & Hf & Hb).
  - apply NoDup_by_eqb. reflexivity.
  - exists page'. split; [exact Hf|]. rewrite Hb. reflexivity.
Defined.

(** ** Block identifiers stay distinct *)

(** Identifiers a block list may have: pairwise distinct, none of them still
    to be drawn.  The list may be empty. *)
Definition ids_ok (w : World) (bs : list Block.t) : Prop :=
  NoDup (block_ids bs) /\
  forall i, drawn w <= i -> ~ In (idgen w i) (block_ids bs).

Definition IdInv (st : Store) (w : World) : Prop :=
  fresh_gen w /\ Forall (fun p => ids_ok w (Page.blocks p)) (pages st).

(** What an event must respect: blocks handed to [updatePage] have such
    identifiers, and [updateBlock] is not handed an [id]. *)
Definition op_ids_ok (w : World) (op : Op) : Prop :=
  match op with
  | OpUpdatePage _ updates =>
      match PartialPage.blocks updates with
      | Some bs => ids_ok w bs
      | None => True
      end
  | OpUpdateBlock _ _ updates => PartialBlock.id updates = None
  | _ => True
  end.

Fixpoint ops_ids_ok (key : option string) (ops : list Op) (st : Store) (w : World)
  : Prop :=
  match ops with
  | [] => True
  | op :: rest =>
      op_ids_ok w op /\
      ops_ids_ok key rest (fst (step key op st w)) (snd (step key op st w))
  end.

Lemma ids_ok_le w w' bs : world_le w w' -> ids_ok w bs -> ids_ok w' bs.
Proof.
  intros (_ & Hg & _ & Hd) (Hnd & Hf). split; [exact Hnd|].
  intros i Hi. rewrite Hg. apply Hf. lia.
Qed.

Lemma IdInv_le st w w' : world_le w w' -> IdInv st w -> IdInv st w'.
Proof.
  intros L (G & F). split; [eapply fresh_gen_le; eauto|].
  eapply Forall_impl; [|exact F]. intros p. apply ids_ok_le, L.
Qed.

Lemma IdInv_pages st st' w : pages st' = pages st -> IdInv st w -> IdInv st' w.
Proof. unfold IdInv. intros ->. auto. Qed.

Lemma Inv_IdInv st w : Inv st w -> IdInv st w.
Proof.
  intros (G & F). split; [exact G|].
  eapply Forall_impl; [|exact F]. intros p (_ & Hnd & Hf). split; assumption.
Qed.

Lemma updatePage_IdInv id updates st w :
  IdInv st w ->
  match PartialPage.blocks updates with
  | Some bs => ids_ok w bs
  | None => True
  end ->
  IdInv (fst (updatePage id updates st w)) (snd (updatePage id updates st w)).
Proof.
  intros (G & F) Hb.
  destruct (updatePage_spec id updates st w) as (R & _ & _ & L & _).
  split; [eapply fresh_gen_le; eauto|].
  eapply Forall2_Forall_r; [| exact F | exact R].
  intros p p' Hp Hr. unfold upd_rel in Hr.
  destruct (Page.id p =? id).
  - destruct Hr as [now ->]. unfold updated_page; simpl.
    destruct (PartialPage.blocks updates); simpl; eapply ids_ok_le; eauto.
  - subst p'. eapply ids_ok_le; eauto.
Qed.

Lemma find_page_ids_ok id st w page :
  IdInv st w -> find_page id (pages st) = Some page -> ids_ok w (Page.blocks page).
Proof.
  intros (_ & F) Hf. apply find_page_In in Hf.
  rewrite Forall_forall in F. apply F, Hf.
Qed.

Lemma addBlock_ids_ok w start bs :
  fresh_gen w -> ids_ok w bs ->
  ids_ok (draw w)
    (splice_insert start (Block.mk (idgen w (drawn w)) (kind text) (VStr "") VUndefined) bs).
Proof.
  intros G (Hnd & Hf).
  set (nb := Block.mk _ _ _ _).
  assert (P : Permutation (block_ids (nb :: bs)) (block_ids (splice_insert start nb bs)))
    by (apply Permutation_map, splice_insert_perm).
  split.
  - eapply Permutation_NoDup; [exact P|]. simpl. constructor; [|exact Hnd].
    apply Hf. lia.
  - intros i Hi Hin. simpl in Hi.
    eapply Permutation_in in Hin; [|apply Permutation_sym, P].
    simpl in Hin. destruct Hin as [E|Hin].
    + apply G in E; lia.
    + revert Hin. apply Hf. lia.
Qed.

Lemma deleteBlock_ids_ok w blockId bs :
  ids_ok w bs -> ids_ok w (filter (fun b => negb (Block.id b =? blockId)) bs).
Proof.
  intros (Hnd & Hf). split.
  - apply NoDup_block_ids_filter, Hnd.
  - intros i Hi Hin. apply (Hf i Hi). eapply block_ids_filter_incl, Hin.
Qed.

Lemma updateBlock_ids_ok w blockId updates bs :
  PartialBlock.id updates = None -> ids_ok w bs ->
  ids_ok w
    (map (fun b => if Block.id b =? blockId then spread_block b updates else b) bs).
Proof.
  intros Hid (Hnd & Hf). unfold ids_ok, block_ids.
  rewrite map_id_spread by exact Hid. split; assumption.
Qed.

(** Blocks whose identifiers are the [k] drawn from [drawn w] on, in any
    order, can follow the blocks of a page. *)
Lemma drawn_ids_ok w k bs generated :
  fresh_gen w -> ids_ok w bs ->
  Permutation (block_ids generated) (map (idgen w) (seq (drawn w) k)) ->
  ids_ok (draws k w) (bs ++ generated).
Proof.
  intros G (Hnd & Hf) P. split.
  - rewrite block_ids_app. apply NoDup_app; [exact Hnd | |].
    + eapply Permutation_NoDup; [apply Permutation_sym, P|].
      apply fresh_gen_NoDup, G.
    + intros a Ha Hin. eapply Permutation_in in Hin; [|exact P].
      apply in_map_iff in Hin as (j & <- & Hj). apply in_seq in Hj.
      revert Ha. apply Hf. lia.
  - intros i Hi. simpl in Hi. change (idgen (draws k w)) with (idgen w).
    rewrite block_ids_app, in_app_iff. intros [Hin|Hin].
    + revert Hin. apply Hf. lia.
    + eapply Permutation_in in Hin; [|exact P].
      apply in_map_iff in Hin as (j & E & Hj). apply in_seq in Hj.
      apply G in E; lia.
Qed.

Lemma handleAiBreakdown_IdInv key sel reply st w :
  IdInv st w ->
  (forall sp, sel = Some sp -> ids_ok w (Page.blocks sp)) ->
  IdInv (fst (fst (handleAiBreakdown key sel reply st w)))
        (snd (handleAiBreakdown key sel reply st w)).
Proof.
  intros I Hsel. destruct sel as [sp|]; [|exact I].
  specialize (Hsel sp eq_refl). pose proof (proj1 I) as G.
  assert (Hset : forall k generated,
             Permutation (block_ids generated) (map (idgen w) (seq (drawn w) k)) ->
             IdInv (setIsGenerating false
                      (fst (updatePage (Page.id sp)
                              (PartialPage.of_blocks (Page.blocks sp ++ generated))
                              (setIsGenerating true st) (draws k w))))
                   (snd (updatePage (Page.id sp)
                           (PartialPage.of_blocks (Page.blocks sp ++ generated))
                           (setIsGenerating true st) (draws k w)))).
  { intros k generated P. eapply IdInv_pages; [reflexivity|].
    apply updatePage_IdInv.
    - eapply IdInv_pages; [reflexivity|]. eapply IdInv_le; [apply world_le_draws | exact I].
    - simpl. apply drawn_ids_ok; assumption. }
  destruct (generatePageBreakdown_shape key
              (if Page.title sp =? "" then "Untitled" else Page.title sp)
              "General project breakdown" reply w)
    as [(_ & E) | [(_ & l & _ & E) | (_ & _ & k & E)]];
    rewrite (handleAiBreakdown_eq key sp reply st w _ _ E); simpl fst; simpl snd.
  - apply Hset. apply Permutation_refl.
  - apply Hset. rewrite breakdown_blocks_ids. apply Permutation_refl.
  - eapply IdInv_pages; [reflexivity|].
    apply updatePage_IdInv.
    + eapply IdInv_pages; [reflexivity|]. eapply IdInv_le; [apply world_le_draws | exact I].
    + simpl. destruct Hsel as (Hnd & Hf). split.
      * rewrite block_ids_app. apply NoDup_app; [exact Hnd | |].
        -- constructor; [intros []|constructor].
        -- intros a Ha [<-|[]]. revert Ha. apply Hf. lia.
      * intros i Hi. simpl in Hi. change (idgen (draws (S k) w)) with (idgen w).
        rewrite block_ids_app, in_app_iff. intros [Hin|[E'|[]]].
        -- revert Hin. apply Hf. lia.
        -- apply G in E'; lia.
Qed.

Lemma handleAiSuggest_IdInv key sel reply st w :
  IdInv st w ->
  (forall sp, sel = Some sp -> ids_ok w (Page.blocks sp)) ->
  IdInv (fst (fst (handleAiSuggest key sel reply st w)))
        (snd (handleAiSuggest key sel reply st w)).
Proof.
  intros I Hsel. destruct sel as [sp|]; [|exact I].
  specialize (Hsel sp eq_refl). pose proof (proj1 I) as G.
  destruct (suggestNextSteps_shape key (Page.blocks sp) reply w)
    as [(_ & _ & l & _ & E) | [(_ & k & E) | (_ & _ & E)]];
    [rewrite (handleAiSuggest_eq key sp reply st w _ _ E)
    |rewrite (handleAiSuggest_eq key sp reply st w _ _ E)
    |rewrite (handleAiSuggest_throw key sp reply st w _ E)].
  - destruct (suggestion_blocks (idgen w) (drawn w) l) as [|s r] eqn:S.
    + simpl. eapply IdInv_pages; [reflexivity|].
      eapply IdInv_le; [apply world_le_draws | exact I].
    + cbv zeta. simpl fst; simpl snd. rewrite <- S.
      eapply IdInv_pages; [reflexivity|].
      apply updatePage_IdInv.
      * eapply IdInv_pages; [reflexivity|]. eapply IdInv_le; [|exact I].
        eapply world_le_trans; [apply world_le_draws | apply world_le_draw].
      * simpl. rewrite draw_draws.
        apply drawn_ids_ok; [exact G | exact Hsel |].
        simpl block_ids. rewrite suggestion_blocks_ids.
        rewrite seq_S, map_app. simpl.
        apply Permutation_cons_append.
  - simpl. eapply IdInv_pages; [reflexivity|].
    eapply IdInv_le; [apply world_le_draws | exact I].
  - simpl. eapply IdInv_pages; [reflexivity | exact I].
Qed.

Lemma createPage_IdInv type st w : IdInv st w ->
  IdInv (fst (createPage type st w)) (snd (createPage type st w)).
Proof.
  intros (G & F). unfold IdInv. simpl.
  set (w' := mkWorld _ _ _ _).
  assert (L : world_le w w') by (unfold world_le, w'; simpl; repeat split; lia).
  split; [eapply fresh_gen_le; eauto|].
  constructor.
  - simpl. split.
    + constructor; [intros []|constructor].
    + intros i Hi [E|[]]. simpl in Hi. apply G in E; lia.
  - eapply Forall_impl; [|exact F]. intro p. apply ids_ok_le, L.
Qed.

Lemma deletePage_IdInv id st w : IdInv st w ->
  IdInv (fst (deletePage id st w)) (snd (deletePage id st w)).
Proof.
  intros (G & F). unfold deletePage, ret. simpl.
  assert (F' : Forall (fun p => ids_ok w (Page.blocks p))
                      (filter (fun p => negb (Page.id p =? id)) (pages st))).
  { rewrite Forall_forall in *. intros p Hp. apply filter_In in Hp. apply F, Hp. }
  split; [exact G|].
  destruct (selectedPageId st) as [sel|]; [destruct (sel =? id)|]; exact F'.
Qed.

Lemma selectedPage_ids_ok st w sp :
  IdInv st w -> selectedPage st = Some sp -> ids_ok w (Page.blocks sp).
Proof.
  unfold selectedPage. destruct (selectedPageId st) as [id|]; [|discriminate].
  intros I Hf. eapply find_page_ids_ok; eauto.
Qed.

Lemma step_IdInv key op st w :
  IdInv st w -> op_ids_ok w op ->
  IdInv (fst (step key op st w)) (snd (step key op st w)).
Proof.
  intros I Hop. destruct op; simpl step.
  - apply createPage_IdInv, I.
  - apply updatePage_IdInv; assumption.
  - apply deletePage_IdInv, I.
  - exact I.
  - unfold updateBlock. destruct (find_page pageId (pages st)) as [page|] eqn:Hf; [|exact I].
    apply updatePage_IdInv; [exact I|]. simpl.
    apply updateBlock_ids_ok; [exact Hop|]. eapply find_page_ids_ok; eauto.
  - unfold addBlock. destruct (find_page pageId (pages st)) as [page|] eqn:Hf; [|exact I].
    unfold bind, generateId. fold (draw w).
    apply updatePage_IdInv; [eapply IdInv_le; [apply world_le_draw | exact I]|]. simpl.
    apply addBlock_ids_ok; [apply I|]. eapply find_page_ids_ok; eauto.
  - unfold deleteBlock. destruct (find_page pageId (pages st)) as [page|] eqn:Hf; [|exact I].
    destruct (List.length (Page.blocks page) <=? 1)%nat; [exact I|].
    apply updatePage_IdInv; [exact I|]. simpl.
    apply deleteBlock_ids_ok. eapply find_page_ids_ok; eauto.
  - unfold bind.
    pose proof (handleAiBreakdown_IdInv key (selectedPage st) reply st w I
                  (fun sp => selectedPage_ids_ok st w sp I)) as H.
    destruct (handleAiBreakdown key (selectedPage st) reply st w); exact H.
  - unfold bind.
    pose proof (handleAiSuggest_IdInv key (selectedPage st) reply st w I
                  (fun sp => selectedPage_ids_ok st w sp I)) as H.
    destruct (handleAiSuggest key (selectedPage st) reply st w); exact H.
Qed.

Lemma run_IdInv key ops st w :
  IdInv st w -> ops_ids_ok key ops st w ->
  IdInv (fst (run key ops st w)) (snd (run key ops st w)).
Proof.
  revert st w; induction ops as [|op rest IH]; intros st w I Hok; [exact I|].
  destruct Hok as [Hop Hrest]. rewrite run_cons.
  apply IH; [apply step_IdInv; assumption | exact Hrest].
Qed.

(** X7.  Let the generator never repeat itself, let the block identifiers
    of each page be pairwise distinct and none of them still to be drawn,
    let every block list handed to [updatePage] have such identifiers (the
    list may be empty), and let [updateBlock] be handed no [id].  Then every
    sequence of events leaves the block identifiers of each page pairwise
    distinct.  Pages without blocks are allowed throughout. *)
Theorem block_ids_stay_distinct
    (key : option string) (ops : list Op) (st : Store) (w : World) :
  fresh_gen w ->
  Forall (fun p => NoDup (block_ids (Page.blocks p)) /\
                   forall i, drawn w <= i -> ~ In (idgen w i) (block_ids (Page.blocks p)))
         (pages st) ->
  ops_ids_ok key ops st w ->
  Forall (fun p => NoDup (block_ids (Page.blocks p)))
         (pages (fst (run key ops st w))).
Proof.
  intros G F0 Hok. destruct (run_IdInv key ops st w (conj G F0) Hok) as (_ & F).
  eapply Forall_impl; [|exact F]. intros p (Hnd & _). exact Hnd.
Qed.

(** The first mock page is emptied and refilled; suggestions, a breakdown
    and new blocks on the second. *)
Definition busy_ops : list Op :=
  [ OpUpdatePage "1" (PartialPage.of_blocks []);
    OpAddBlock "1" "b1";
    OpSelect (Some "2");
    OpAiSuggest (Parsed (VArr [ VObj [("content", VStr "Stretch")];
                                VObj [("content", VStr "Read")] ]));
    OpAiBreakdown (Parsed (VArr [ VObj [("type", VStr "h2"); ("content", VStr "Plan")];
                                  VObj [("type", VStr "todo"); ("content", VStr "Draft")] ]));
    OpAddBlock "2" "l1"; OpAddBlock "2" "l1"; OpAddBlock "2" "g0";
    OpDeleteBlock "2" "l2";
    OpCreatePage paper ].

Lemma block_ids_stay_distinct_witness :
  Forall (fun p => NoDup (block_ids (Page.blocks p)))
         (pages (fst (run (Some "key") busy_ops store0 world1))).
Proof.
  destruct (Inv_IdInv store0 world1 Inv_store0) as (G & F).
  refine (block_ids_stay_distinct (Some "key") busy_ops store0 world1 G F _).
  unfold busy_ops. split.
  - split; [constructor | intros i _ []].
  - repeat (split; [exact I|]). exact I.
Defined.

(** ** More on the progress *)

Lemma updatePage_progress_value id updates bs st w x :
  PartialPage.blocks updates = Some bs ->
  0 < todo_count bs ->
  percent (completed_count bs) (todo_count bs) = x ->
  Forall2 (fun p p' => if Page.id p =? id then Page.progress p' = x else p' = p)
          (pages st) (pages (fst (updatePage id updates st w))).
Proof.
  intros Hb Ht Hx. destruct (updatePage_spec id updates st w) as (F & _).
  eapply Forall2_impl; [|exact F]. intros p p'. unfold upd_rel.
  destruct (Page.id p =? id); [|auto]. intros [now ->].
  rewrite (updated_page_progress p updates bs now Hb Ht). exact Hx.
Qed.

(** X8.  When the new block list has to-dos (and is no longer than an
    array can be), the stored progress is exactly [100] if every to-do is
    checked and exactly [0] if none is. *)
Theorem progress_all_or_none_checked
    (id : string) (updates : PartialPage.t) (bs : list Block.t)
    (st : Store) (w : World) :
  PartialPage.blocks updates = Some bs ->
  0 < todo_count bs ->
  (Z.of_nat (List.length bs) < 2 ^ 32)%Z ->
  (completed_count bs = todo_count bs ->
   Forall2 (fun p p' =>
              if Page.id p =? id then Page.progress p' = Num.of_Z 100 else p' = p)
           (pages st) (pages (fst (updatePage id updates st w)))) /\
  (completed_count bs = 0 ->
   Forall2 (fun p p' =>
              if Page.id p =? id then Page.progress p' = Num.of_Z 0 else p' = p)
           (pages st) (pages (fst (updatePage id updates st w)))).
Proof.
  intros Hb Ht Hlen.
  assert (Htl : todo_count bs <= List.length bs) by apply filter_length_le.
  set (t := Z.of_nat (todo_count bs)).
  assert (Htpos : (0 < t)%Z) by (unfold t; lia).
  split; intro Hc; apply (updatePage_progress_value id updates bs st w _ Hb Ht);
    rewrite Hc.
  - destruct (percent_spec (todo_count bs) (todo_count bs) Ht (le_n _) ltac:(lia))
      as (k & Ek & _ & Hnt & _).
    fold t in Hnt. rewrite Ek. f_equal. rewrite Hnt.
    + unfold Binary64.exact_percent.
      replace (200 * t + t)%Z with (t + 100 * (2 * t))%Z by lia.
      rewrite Z.div_add by lia. rewrite Z.div_small by lia. reflexivity.
    + unfold Binary64.tie.
      replace (200 * t + t)%Z with (t + 100 * (2 * t))%Z by lia.
      rewrite Z.mod_add by lia. rewrite Z.mod_small by lia.
      apply Z.eqb_neq. lia.
  - destruct (percent_spec 0 (todo_count bs) Ht ltac:(lia) ltac:(lia))
      as (k & Ek & _ & Hnt & _).
    fold t in Hnt. simpl Z.of_nat in Hnt. rewrite Ek. f_equal. rewrite Hnt.
    + unfold Binary64.exact_percent.
      replace (200 * 0 + t)%Z with t by lia. apply Z.div_small. lia.
    + unfold Binary64.tie.
      replace (200 * 0 + t)%Z with t by lia.
      rewrite Z.mod_small by lia. apply Z.eqb_neq. lia.
Qed.

Lemma progress_all_or_none_checked_witness :
  Forall2 (fun p p' =>
             if Page.id p =? "2" then Page.progress p' = Num.of_Z 100 else p' = p)
          (pages store0)
          (pages (fst (updatePage "2"
                         (PartialPage.of_blocks (Page.blocks (mock_page2 1002 1003)))
                         store0 world1))).
Proof.
  assert (Ht : 0 < todo_count (Page.blocks (mock_page2 1002 1003)))
    by (unfold todo_count; simpl; lia).
  assert (Hl : (Z.of_nat (List.length (Page.blocks (mock_page2 1002 1003))) < 2 ^ 32)%Z)
    by (simpl; lia).
  exact (proj1 (progress_all_or_none_checked "2"
                  (PartialPage.of_blocks (Page.blocks (mock_page2 1002 1003)))
                  (Page.blocks (mock_page2 1002 1003)) store0 world1 eq_refl Ht Hl)
               eq_refl).
Defined.

Lemma Permutation_filter_length {A} (f : A -> bool) l l' :
  Permutation l l' -> List.length (filter f l) = List.length (filter f l').
Proof.
  intro P; induction P as [|x l l' P IH|x y l|l l' l'' P1 IH1 P2 IH2]; simpl.
  - reflexivity.
  - destruct (f x); simpl; congruence.
  - destruct (f x), (f y); reflexivity.
  - congruence.
Qed.

Lemma updated_page_progress_now p updates now now' :
  Page.progress (updated_page p updates now) = Page.progress (updated_page p updates now').
Proof. reflexivity. Qed.

Lemma mapM_update_one_progress id updates ps w :
  map Page.progress (fst (mapM (update_one id updates) ps w)) =
  map (fun p => if Page.id p =? id
                then Page.progress (updated_page p updates 0)
                else Page.progress p) ps.
Proof.
  revert w; induction ps as [|p ps IH]; intro w; [reflexivity|].
  rewrite mapM_cons, update_one_eq. simpl map. rewrite IH.
  destruct (Page.id p =? id); reflexivity.
Qed.

(** X9.  The progress an update stores depends on the new block list only
    through its to-dos: two block lists whose to-dos are the same up to
    their order (blocks moved, other blocks added, edited or removed) give
    every page the same progress, whenever the two updates are made. *)
Theorem progress_depends_on_todos_only
    (id : string) (bs bs' : list Block.t) (st : Store) (w w' : World) :
  Permutation (filter is_todo bs) (filter is_todo bs') ->
  map Page.progress (pages (fst (updatePage id (PartialPage.of_blocks bs) st w))) =
  map Page.progress (pages (fst (updatePage id (PartialPage.of_blocks bs') st w'))).
Proof.
  intro P.
  assert (E : forall u ww,
             map Page.progress (pages (fst (updatePage id u st ww))) =
             map Page.progress (fst (mapM (update_one id u) (pages st) ww))).
  { intros u ww. unfold updatePage, bind.
    destruct (mapM (update_one id u) (pages st) ww); reflexivity. }
  rewrite !E, !mapM_update_one_progress.
  apply map_ext. intro p. destruct (Page.id p =? id); [|reflexivity].
  unfold updated_page; simpl.
  rewrite (Permutation_length P), (Permutation_filter_length is_checked _ _ P).
  reflexivity.
Qed.

Lemma progress_depends_on_todos_only_witness :
  map Page.progress
      (pages (fst (updatePage "1" (PartialPage.of_blocks three_todos) store0 world1))) =
  map Page.progress
      (pages (fst (updatePage "1"
                     (PartialPage.of_blocks
                        (Block.mk "n" (kind text) (VStr "note") VUndefined
                         :: rev three_todos))
                     store0 world0))).
Proof.
  apply progress_depends_on_todos_only. simpl.
  apply Permutation_rev.
Defined.

(** * The page list of the sidebar (App.tsx, [filteredPages]) *)

From Stdlib Require Import Sorting.Sorted.

Definition PageType_eqb (a b : PageType) : bool :=
  match a, b with
  | project, project | work, work | paper, paper | daily_log, daily_log => true
  | _, _ => false
  end.

(** [activeTab]: a page kind, or [None] for ['all']. *)
Definition Tab := option PageType.

Definition in_tab (activeTab : Tab) (p : Page.t) : bool :=
  match activeTab with
  | None => true
  | Some t => PageType_eqb (Page.type p) t
  end.

(** The comparator [(a, b) => b.updatedAt - a.updatedAt]. *)
Definition by_updatedAt_desc (a b : Page.t) : Z := (Page.updatedAt b - Page.updatedAt a)%Z.

(** [xs.sort(cmp)] on a fresh array.  With a consistent comparator the
    result is fixed by the language: sorted by [cmp] and stable.  [x] is put
    in front of the first element it need not follow. *)
Fixpoint sort_insert {A} (cmp : A -> A -> Z) (x : A) (l : list A) : list A :=
  match l with
  | [] => [x]
  | y :: r => if (cmp x y <=? 0)%Z then x :: y :: r else y :: sort_insert cmp x r
  end.

Fixpoint Array_sort {A} (cmp : A -> A -> Z) (l : list A) : list A :=
  match l with
  | [] => []
  | x :: r => sort_insert cmp x (Array_sort cmp r)
  end.

Definition filteredPages (activeTab : Tab) (pages : list Page.t) : list Page.t :=
  Array_sort by_updatedAt_desc (filter (in_tab activeTab) pages).

Definition newer_or_same (a b : Page.t) : Prop := (Page.updatedAt b <= Page.updatedAt a)%Z.

Lemma sort_insert_perm {A} (cmp : A -> A -> Z) x l :
  Permutation (x :: l) (sort_insert cmp x l).
Proof.
  induction l as [|y r IH]; simpl; [apply Permutation_refl|].
  destruct (cmp x y <=? 0)%Z; [apply Permutation_refl|].
  eapply Permutation_trans; [apply perm_swap|]. apply perm_skip, IH.
Qed.

Lemma Array_sort_perm {A} (cmp : A -> A -> Z) l : Permutation l (Array_sort cmp l).
Proof.
  induction l as [|x r IH]; simpl; [constructor|].
  eapply Permutation_trans; [apply perm_skip, IH | apply sort_insert_perm].
Qed.

Lemma sort_insert_sorted x l :
  StronglySorted newer_or_same l ->
  StronglySorted newer_or_same (sort_insert by_updatedAt_desc x l).
Proof.
  induction l as [|y r IH]; simpl; intro S.
  - constructor; constructor.
  - inversion S as [|? ? Sr Fy]; subst.
    unfold by_updatedAt_desc at 1.
    destruct (Z.leb_spec (Page.updatedAt y - Page.updatedAt x) 0) as [H|H].
    + constructor; [exact S|]. constructor; [unfold newer_or_same; lia|].
      eapply Forall_impl; [|exact Fy]. unfold newer_or_same. intros; lia.
    + constructor; [apply IH, Sr|].
      eapply Permutation_Forall; [apply sort_insert_perm|].
      constructor; [unfold newer_or_same; lia | exact Fy].
Qed.

Lemma Array_sort_sorted l :
  StronglySorted newer_or_same (Array_sort by_updatedAt_desc l).
Proof.
  induction l as [|x r IH]; simpl; [constructor | apply sort_insert_sorted, IH].
Qed.

Lemma sort_insert_stable t x l :
  filter (fun p => (Page.updatedAt p =? t)%Z) (sort_insert by_updatedAt_desc x l) =
  filter (fun p => (Page.updatedAt p =? t)%Z) (x :: l).
Proof.
  induction l as [|y r IH]; [reflexivity|]. cbn [sort_insert].
  unfold by_updatedAt_desc at 1.
  destruct (Z.leb_spec (Page.updatedAt y - Page.updatedAt x) 0) as [H|H]; [reflexivity|].
  cbn [filter] in *. rewrite IH.
  destruct (Z.eqb_spec (Page.updatedAt x) t), (Z.eqb_spec (Page.updatedAt y) t);
    try reflexivity. lia.
Qed.

Lemma Array_sort_stable t l :
  filter (fun p => (Page.updatedAt p =? t)%Z) (Array_sort by_updatedAt_desc l) =
  filter (fun p => (Page.updatedAt p =? t)%Z) l.
Proof.
  induction l as [|x r IH]; [reflexivity|]. cbn [Array_sort].
  rewrite sort_insert_stable. cbn [filter]. rewrite IH. reflexivity.
Qed.

(** X10.  The sidebar lists exactly the pages of the active tab (all pages
    on the ['all'] tab), each as often as the store holds it, most recently
    updated first, and pages with the same [updatedAt] in the order the
    store has them. *)
Theorem filteredPages_spec (activeTab : Tab) (ps : list Page.t) :
  Permutation (filter (in_tab activeTab) ps) (filteredPages activeTab ps) /\
  StronglySorted newer_or_same (filteredPages activeTab ps) /\
  (forall p, In p (filteredPages activeTab ps) <-> In p ps /\ in_tab activeTab p = true) /\
  (forall t,
      filter (fun p => (Page.updatedAt p =? t)%Z) (filteredPages activeTab ps) =
      filter (fun p => (Page.updatedAt p =? t)%Z) (filter (in_tab activeTab) ps)).
Proof.
  unfold filteredPages. split; [apply Array_sort_perm|].
  split; [apply Array_sort_sorted|]. split; [|intro t; apply Array_sort_stable].
  intro p. rewrite <- filter_In. split; intro H.
  - eapply Permutation_in; [apply Permutation_sym, Array_sort_perm | exact H].
  - eapply Permutation_in; [apply Array_sort_perm | exact H].
Qed.

Lemma sort_insert_front x l :
  Forall (fun p => (Page.updatedAt p <= Page.updatedAt x)%Z) l ->
  sort_insert by_updatedAt_desc x l = x :: l.
Proof.
  destruct l as [|y r]; [reflexivity|]. intro F. inversion F; subst. simpl.
  unfold by_updatedAt_desc.
  destruct (Z.leb_spec (Page.updatedAt y - Page.updatedAt x) 0); [reflexivity | lia].
Qed.

(** X11.  If no stored page has an [updatedAt] later than the second clock
    reading of [createPage], the new page heads the sidebar list on the
    ['all'] tab and on the tab of its kind, with the former list behind it;
    on every other tab the list is the former one. *)
Theorem created_page_is_listed_first
    (type : PageType) (activeTab : Tab) (st : Store) (w : World) :
  (forall p, In p (pages st) -> (Page.updatedAt p <= clock w (S (ticks w)))%Z) ->
  exists newPage,
    pages (fst (createPage type st w)) = newPage :: pages st /\
    Page.type newPage = type /\
    filteredPages activeTab (pages (fst (createPage type st w))) =
      if in_tab activeTab newPage
      then newPage :: filteredPages activeTab (pages st)
      else filteredPages activeTab (pages st).
Proof.
  intros Hold. simpl pages. eexists. split; [reflexivity|]. split; [reflexivity|].
  unfold filteredPages. cbn [filter].
  destruct (in_tab activeTab _) eqn:E; [|reflexivity].
  cbn [Array_sort]. apply sort_insert_front.
  eapply Permutation_Forall; [apply Array_sort_perm|].
  apply Forall_forall. intros p Hp. apply filter_In in Hp. simpl. apply Hold, Hp.
Qed.

Lemma created_page_is_listed_first_witness :
  map Page.id (filteredPages (Some work) (pages (fst (createPage work store0 world1))))
  = ["g0"] /\
  map Page.id (filteredPages None (pages (fst (createPage work store0 world1))))
  = ["g0"; "2"; "1"].
Proof.
  assert (H : forall p, In p (pages store0) ->
                        (Page.updatedAt p <= clock world1 (S (ticks world1)))%Z).
  { intros p [<-|[<-|[]]]; simpl; lia. }
  split.
  - destruct (created_page_is_listed_first work (Some work) store0 world1 H)
      as (newPage & Hp & _ & E).
    rewrite E. simpl in Hp. injection Hp as <-. reflexivity.
  - destruct (created_page_is_listed_first work None store0 world1 H)
      as (newPage & Hp & _ & E).
    rewrite E. simpl in Hp. injection Hp as <-. reflexivity.
Defined.

(** * components/BlockEditor.tsx: what a key press or a click asks for *)

Module KeyboardEvent.
Record t := mk {
  key : string;
  shiftKey : bool;
  metaKey : bool;
  ctrlKey : bool
}.
End KeyboardEvent.

(** The three callbacks of [BlockEditorProps], as the calls made. *)
Inductive Callback :=
| onEnter (id : string)
| onDelete (id : string)
| onChange (id : string) (updates : PartialBlock.t).

(** [const types: BlockType[] = ['text', 'todo', 'h1', 'h2', 'bullet']] *)
Definition types : list BlockType := [text; todo; h1; h2; bullet].

(** [xs.indexOf(v)], by strict equality, [-1] when [v] is not there. *)
Fixpoint indexOf (v : JsVal) (xs : list BlockType) : Z :=
  match xs with
  | [] => -1
  | t :: r =>
      if strict_eq_str v (BlockType_str t) then 0
      else let i := indexOf v r in
           if (i <? 0)%Z then -1 else (i + 1)%Z
  end.

(** [types[(types.indexOf(block.type) + 1) % types.length]] *)
Definition next_type (v : JsVal) : JsVal :=
  let nextIndex := Z.rem (indexOf v types + 1) (Z.of_nat (List.length types)) in
  match nth_error types (Z.to_nat nextIndex) with
  | Some t => kind t
  | None => VUndefined
  end.

Definition handleKeyDown (block : Block.t) (e : KeyboardEvent.t) : list Callback :=
  ((if (KeyboardEvent.key e =? "Enter") && negb (KeyboardEvent.shiftKey e)
    then [onEnter (Block.id block)] else [])
   ++
   (if (KeyboardEvent.key e =? "Backspace") && strict_eq_str (Block.content block) ""
    then [onDelete (Block.id block)] else [])
   ++
   (if (KeyboardEvent.metaKey e || KeyboardEvent.ctrlKey e)
       && (KeyboardEvent.key e =? "/")
    then [onChange (Block.id block)
            (PartialBlock.mk None (Some (next_type (Block.type block))) None None)]
    else []))%list.

(** The click on the check box, which only a [todo] block shows. *)
Definition handleCheckClick (block : Block.t) : list Callback :=
  if is_todo block
  then [onChange (Block.id block)
          (PartialBlock.mk None None None
             (Some (VBool (negb (truthy (Block.checked block))))))]
  else [].

(** App.tsx hands the callbacks to the block handlers with the selected
    page's identifier; editors are only rendered while a page is selected. *)
Definition dispatch (cb : Callback) (st : Store) : M Store :=
  match selectedPageId st with
  | None => ret st
  | Some pageId =>
      match cb with
      | onChange id updates => updateBlock pageId id updates st
      | onEnter id => addBlock pageId id st
      | onDelete id => deleteBlock pageId id st
      end
  end.

Definition next_type5 (v : JsVal) : JsVal :=
  next_type (next_type (next_type (next_type (next_type v)))).

(** X12.  The kind the shortcut [Ctrl+/] (or [Cmd+/]) asks for is always
    one of the five block kinds: a block whose kind is none of them (one
    copied from a reply, say) is turned into a [text] block, and on the five
    kinds the shortcut is a cycle of length five. *)
Theorem next_type_spec (v : JsVal) :
  is_BlockType (next_type v) = true /\
  (is_BlockType v = false -> next_type v = kind text) /\
  (is_BlockType v = true -> next_type5 v = v /\ next_type v <> v).
Proof.
  assert (Hlit : forall t : BlockType,
             is_BlockType (next_type (kind t)) = true /\
             (is_BlockType (kind t) = false -> next_type (kind t) = kind text) /\
             (is_BlockType (kind t) = true ->
              next_type5 (kind t) = kind t /\ next_type (kind t) <> kind t)).
  { intro t. destruct t; (split; [vm_compute; reflexivity|]);
      (split; [intro H; vm_compute in H; discriminate H|]);
      intros _; (split; [vm_compute; reflexivity | vm_compute; discriminate]). }
  destruct v as [| |b|x|s|l|fs];
    try (split; [reflexivity|]; split; [reflexivity | discriminate]).
  destruct (String.eqb_spec s "text") as [->|N1]; [exact (Hlit text)|].
  destruct (String.eqb_spec s "todo") as [->|N2]; [exact (Hlit todo)|].
  destruct (String.eqb_spec s "h1") as [->|N3]; [exact (Hlit h1)|].
  destruct (String.eqb_spec s "h2") as [->|N4]; [exact (Hlit h2)|].
  destruct (String.eqb_spec s "bullet") as [->|N5]; [exact (Hlit bullet)|].
  apply String.eqb_neq in N1, N2, N3, N4, N5.
  unfold next_type, is_BlockType, indexOf, types, strict_eq_str.
  cbn [BlockType_str]. rewrite N1, N2, N3, N4, N5.
  split; [vm_compute; reflexivity|]. split; [reflexivity | discriminate].
Qed.

(** X13.  A key press asks for at most one thing, and always about the
    block it was typed in: [Enter] without [Shift] for a new block,
    [Backspace] in a block whose content is the empty string for its
    deletion, [/] with [Ctrl] or [Cmd] for a change of kind that names
    nothing but the kind; any other key asks for nothing. *)
Theorem handleKeyDown_spec (block : Block.t) (e : KeyboardEvent.t) :
  List.length (handleKeyDown block e) <= 1 /\
  handleKeyDown block e =
    (if KeyboardEvent.key e =? "Enter" then
       if KeyboardEvent.shiftKey e then [] else [onEnter (Block.id block)]
     else if KeyboardEvent.key e =? "Backspace" then
       if strict_eq_str (Block.content block) ""
       then [onDelete (Block.id block)] else []
     else if KeyboardEvent.key e =? "/" then
       if KeyboardEvent.metaKey e || KeyboardEvent.ctrlKey e
       then [onChange (Block.id block)
               (PartialBlock.mk None (Some (next_type (Block.type block))) None None)]
       else []
     else []).
Proof.
  destruct e as [k sh me ct]. unfold handleKeyDown.
  cbn [KeyboardEvent.key KeyboardEvent.shiftKey KeyboardEvent.metaKey
       KeyboardEvent.ctrlKey].
  destruct (String.eqb_spec k "Enter") as [->|N1].
  { change ("Enter" =? "Backspace") with false. change ("Enter" =? "/") with false.
    rewrite andb_false_r. destruct sh; simpl; split; auto. }
  destruct (String.eqb_spec k "Backspace") as [->|N2].
  { change ("Backspace" =? "/") with false. rewrite andb_false_r.
    destruct (strict_eq_str (Block.content block) ""); simpl; split; auto. }
  destruct (String.eqb_spec k "/") as [->|N3].
  { rewrite andb_true_r. destruct (me || ct); simpl; split; auto. }
  rewrite andb_false_r. simpl. split; auto.
Qed.

(** The callbacks of one event, handed to the store one after the other. *)
Fixpoint dispatch_all (cbs : list Callback) (st : Store) : M Store :=
  match cbs with
  | [] => ret st
  | cb :: rest => st' <- dispatch cb st ;; dispatch_all rest st'
  end.

Lemma count_app bs cs :
  todo_count (bs ++ cs) = todo_count bs + todo_count cs /\
  completed_count (bs ++ cs) = completed_count bs + completed_count cs.
Proof.
  unfold todo_count, completed_count. rewrite !filter_app, !length_app. auto.
Qed.

(** X14.  A click on the check box of a to-do of the selected page (block
    identifiers pairwise distinct) flips that block's [checked] to the
    opposite boolean, leaves the other blocks alone, and stores the progress
    for one completed to-do more, or one less, out of the same total. *)
Theorem check_click_moves_progress_by_one
    (pageId : string) (st : Store) (w : World)
    (page : Page.t) (l1 l2 : list Block.t) (b : Block.t) :
  selectedPageId st = Some pageId ->
  find_page pageId (pages st) = Some page ->
  Page.blocks page = (l1 ++ b :: l2)%list ->
  NoDup (block_ids (Page.blocks page)) ->
  is_todo b = true ->
  let c := completed_count (Page.blocks page) in
  let t := todo_count (Page.blocks page) in
  exists page',
    find_page pageId (pages (fst (dispatch_all (handleCheckClick b) st w))) = Some page' /\
    Page.blocks page' =
      (l1 ++ Block.mk (Block.id b) (Block.type b) (Block.content b)
                      (VBool (negb (is_checked b))) :: l2)%list /\
    Page.progress page' = percent (if is_checked b then c - 1 else c + 1) t.
Proof.
  intros Hsel Hf Hb Hnd Htodo c t.
  unfold handleCheckClick. rewrite Htodo. cbn [dispatch_all]. unfold dispatch, bind.
  rewrite Hsel.
  set (u := PartialBlock.mk None None None (Some (VBool (negb (truthy (Block.checked b)))))).
  pose proof (updateBlock_on_block pageId u st w page l1 l2 b Hf Hb Hnd) as H.
  destruct (updateBlock pageId (Block.id b) u st w) as [st' w'] eqn:E. simpl in H |- *.
  eexists. split; [exact H|]. split; [reflexivity|].
  set (b' := spread_block b u).
  assert (Htodo' : is_todo b' = true) by exact Htodo.
  assert (Hchk' : is_checked b' = negb (is_checked b)) by reflexivity.
  assert (Hcount : forall x, todo_count (l1 ++ x :: l2) =
                             todo_count l1 + (if is_todo x then 1 else 0) + todo_count l2
                             /\ completed_count (l1 ++ x :: l2) =
                                completed_count l1
                                + (if is_todo x then if is_checked x then 1 else 0 else 0)
                                + completed_count l2).
  { intro x. change (x :: l2) with ([x] ++ l2)%list.
    destruct (count_app l1 ([x] ++ l2)) as [-> ->].
    destruct (count_app [x] l2) as [-> ->].
    unfold todo_count, completed_count. simpl.
    destruct (is_todo x); simpl; [destruct (is_checked x)|]; simpl; lia. }
  rewrite (updated_page_progress page (PartialPage.of_blocks (l1 ++ b' :: l2))
             (l1 ++ b' :: l2) _ eq_refl).
  - subst c t. rewrite Hb.
    destruct (Hcount b) as [-> ->]. destruct (Hcount b') as [-> ->].
    rewrite Htodo, Htodo', Hchk'.
    destruct (is_checked b); simpl; f_equal; lia.
  - destruct (Hcount b') as [-> _]. rewrite Htodo'. lia.
Qed.

Lemma check_click_moves_progress_by_one_witness :
  exists page',
    find_page "1"
      (pages (fst (dispatch_all
                     (handleCheckClick
                        (Block.mk "b5" (kind todo) (VStr "Draft wireframes") (VBool false)))
                     (setSelectedPageId (Some "1") store0) world1))) = Some page' /\
    Page.progress page' = Num.of_Z 100.
Proof.
  destruct (check_click_moves_progress_by_one "1"
              (setSelectedPageId (Some "1") store0) world1 (mock_page1 1000 1001)
              (firstn 4 (Page.blocks (mock_page1 1000 1001))) []
              (Block.mk "b5" (kind todo) (VStr "Draft wireframes") (VBool false))
              eq_refl eq_refl eq_refl)
    as (page' & Hf & _ & Hp).
  - apply NoDup_by_eqb. reflexivity.
  - reflexivity.
  - exists page'. split; [exact Hf|]. rewrite Hp. reflexivity.
Defined.

(** * components/ProgressBar.tsx *)

(** [Math.max(x, y)]: NaN if either is, the larger otherwise, [+0] over
    [-0]. *)
Definition Math_max (x y : Num.Number) : Num.Number :=
  match SFcompare x y with
  | None => S754_nan
  | Some Lt => y
  | Some Gt => x
  | Some Eq => match x, y with
               | S754_zero true, S754_zero false => y
               | _, _ => x
               end
  end.

(** [Math.min(x, y)]: NaN if either is, the smaller otherwise, [-0] under
    [+0]. *)
Definition Math_min (x y : Num.Number) : Num.Number :=
  match SFcompare x y with
  | None => S754_nan
  | Some Lt => x
  | Some Gt => y
  | Some Eq => match x, y with
               | S754_zero false, S754_zero true => y
               | _, _ => x
               end
  end.

(** [const clamped = Math.min(100, Math.max(0, progress))] *)
Definition clamped (progress : Num.Number) : Num.Number :=
  Math_min (Num.of_Z 100) (Math_max (Num.of_Z 0) progress).

(** [x < y] on numbers. *)
Definition Number_lt (x y : Num.Number) : bool := SFltb x y.

Definition getColor (p : Num.Number) : string :=
  if Number_lt p (Num.of_Z 30) then "bg-gray-400"
  else if Number_lt p (Num.of_Z 70) then "bg-gray-600"
  else "bg-green-600".

Lemma SFcompare_pos_antisym m1 e1 m2 e2 :
  SFcompare (S754_finite false m1 e1) (S754_finite false m2 e2) =
  match SFcompare (S754_finite false m2 e2) (S754_finite false m1 e1) with
  | Some c => Some (CompOpp c)
  | None => None
  end.
Proof.
  simpl. rewrite (Z.compare_antisym e1 e2).
  destruct (e1 ?= e2)%Z; simpl; try reflexivity.
  rewrite !Pos.compare_cont_spec. simpl.
  rewrite (Pos.compare_antisym m1 m2). destruct (m1 ?= m2)%positive; reflexivity.
Qed.

Lemma SFcompare_pos_eq m1 e1 m2 e2 :
  SFcompare (S754_finite false m1 e1) (S754_finite false m2 e2) = Some Eq ->
  m1 = m2 /\ e1 = e2.
Proof.
  simpl. destruct (Z.compare_spec e1 e2) as [He|He|He]; try discriminate.
  rewrite Pos.compare_cont_spec. simpl. intros [= Hm].
  destruct (Pos.compare_spec m1 m2) as [Hc|Hc|Hc]; try discriminate.
  auto.
Qed.

(** X15.  The width the bar is given lies between [0] and [100] for every
    progress that is a number; for a progress already in that range it is
    the progress itself ([-0] shown as [0]); a NaN progress gives a NaN
    width. *)
Theorem clamped_spec (progress : Num.Number) :
  match progress with
  | S754_nan => clamped progress = S754_nan
  | _ =>
      SFleb (Num.of_Z 0) (clamped progress) = true /\
      SFleb (clamped progress) (Num.of_Z 100) = true /\
      (SFleb (Num.of_Z 0) progress = true ->
       SFleb progress (Num.of_Z 100) = true ->
       clamped progress = progress \/
       (progress = S754_zero true /\ clamped progress = S754_zero false))
  end.
Proof.
  destruct progress as [s|s| |s m e]; try reflexivity.
  - destruct s; repeat split; auto.
  - destruct s; repeat split; try reflexivity; discriminate.
  - destruct s.
    + repeat split; try reflexivity. discriminate.
    + unfold clamped. change (Math_max (Num.of_Z 0) (S754_finite false m e))
        with (S754_finite false m e).
      change (Num.of_Z 100) with (S754_finite false 7036874417766400 (-46)).
      unfold Math_min, SFleb.
      pose proof (SFcompare_pos_antisym m e 7036874417766400 (-46)) as Hanti.
      destruct (SFcompare (S754_finite false 7036874417766400 (-46))
                          (S754_finite false m e)) as [[| |]|] eqn:C.
      * apply SFcompare_pos_eq in C as [<- <-].
        repeat split; try reflexivity. intros _ _. left; reflexivity.
      * repeat split; try reflexivity. rewrite Hanti. discriminate.
      * rewrite Hanti. repeat split; try reflexivity. intros _ _. left; reflexivity.
      * discriminate C.
Qed.

Definition Number_eqb (x y : Num.Number) : bool :=
  match x, y with
  | S754_zero a, S754_zero b | S754_infinity a, S754_infinity b => Bool.eqb a b
  | S754_nan, S754_nan => true
  | S754_finite s m e, S754_finite s' m' e' =>
      Bool.eqb s s' && Pos.eqb m m' && Z.eqb e e'
  | _, _ => false
  end.

Lemma Number_eqb_eq x y : Number_eqb x y = true -> x = y.
Proof.
  destruct x, y; simpl; try discriminate; try reflexivity.
  - intro H. apply Bool.eqb_prop in H. congruence.
  - intro H. apply Bool.eqb_prop in H. congruence.
  - intro H. apply andb_prop in H as [H He]. apply andb_prop in H as [Hs Hm].
    apply Bool.eqb_prop in Hs. apply Pos.eqb_eq in Hm. apply Z.eqb_eq in He.
    congruence.
Qed.

Definition shown_asb (k : Z) : bool :=
  Number_eqb (clamped (Num.of_Z k)) (Num.of_Z k)
  && (getColor (clamped (Num.of_Z k)) =?
        (if (k <? 30)%Z then "bg-gray-400"
         else if (k <? 70)%Z then "bg-gray-600" else "bg-green-600")).

Lemma shown_as_upto_100 : forallb shown_asb (map Z.of_nat (seq 0 101)) = true.
Proof. vm_compute. reflexivity. Qed.

(** X16.  For every integer progress of [0..100] (what the updater stores
    when a page has to-dos) the bar's width is that progress, and its colour
    is the light grey below 30, the dark grey below 70 and green from 70
    on. *)
Theorem ProgressBar_shows_stored_progress (k : Z) :
  (0 <= k <= 100)%Z ->
  clamped (Num.of_Z k) = Num.of_Z k /\
  getColor (clamped (Num.of_Z k)) =
    (if (k <? 30)%Z then "bg-gray-400"
     else if (k <? 70)%Z then "bg-gray-600" else "bg-green-600").
Proof.
  intro Hk. pose proof shown_as_upto_100 as F. rewrite forallb_forall in F.
  assert (Hin : In k (map Z.of_nat (seq 0 101))).
  { rewrite <- (Z2Nat.id k) by lia. apply in_map, in_seq. lia. }
  apply F in Hin. unfold shown_asb in Hin. apply andb_prop in Hin as [H1 H2].
  split; [apply Number_eqb_eq, H1 | apply String.eqb_eq, H2].
Qed.

Lemma ProgressBar_shows_stored_progress_witness :
  clamped (Num.of_Z 67) = Num.of_Z 67 /\
  getColor (clamped (Num.of_Z 67)) = "bg-gray-600".
Proof. apply (ProgressBar_shows_stored_progress 67). lia. Defined.

(** * Timestamps *)

(** The clock never goes back. *)
Definition monotone_clock (w : World) : Prop :=
  forall i j, i <= j -> (clock w i <= clock w j)%Z.

(** A page whose [createdAt] is not after its [updatedAt], and whose
    [updatedAt] is not after the next reading of the clock. *)
Definition timed (w : World) (p : Page.t) : Prop :=
  (Page.createdAt p <= Page.updatedAt p)%Z /\
  (Page.updatedAt p <= clock w (ticks w))%Z.

Definition TInv (st : Store) (w : World) : Prop :=
  monotone_clock w /\ Forall (timed w) (pages st).

(** An event that hands [updatePage] no [createdAt]. *)
Definition keeps_createdAt (op : Op) : bool :=
  match op with
  | OpUpdatePage _ updates =>
      match PartialPage.createdAt updates with None => true | Some _ => false end
  | _ => true
  end.

Lemma updated_page_createdAt p u now :
  Page.createdAt (updated_page p u now) = over (PartialPage.createdAt u) (Page.createdAt p).
Proof. reflexivity. Qed.

Lemma updated_page_updatedAt p u now : Page.updatedAt (updated_page p u now) = now.
Proof. reflexivity. Qed.

Lemma monotone_clock_le w w' : world_le w w' -> monotone_clock w -> monotone_clock w'.
Proof. intros (Hc & _) H i j Hij. rewrite Hc. apply H, Hij. Qed.

Lemma timed_le w w' p : world_le w w' -> monotone_clock w -> timed w p -> timed w' p.
Proof.
  intros (Hc & _ & Ht & _) Hm (H1 & H2). split; [exact H1|].
  rewrite Hc. specialize (Hm _ _ Ht). lia.
Qed.

Lemma TInv_le st w w' : world_le w w' -> TInv st w -> TInv st w'.
Proof.
  intros L (Hm & F). split; [eapply monotone_clock_le; eauto|].
  eapply Forall_impl; [|exact F]. intro p. apply timed_le; assumption.
Qed.

Lemma TInv_pages st st' w : pages st' = pages st -> TInv st w -> TInv st' w.
Proof. unfold TInv. intros ->. auto. Qed.

Lemma mapM_update_one_timed id updates ps w :
  monotone_clock w -> PartialPage.createdAt updates = None ->
  Forall (timed w) ps ->
  Forall (timed (snd (mapM (update_one id updates) ps w)))
         (fst (mapM (update_one id updates) ps w)).
Proof.
  intros Hm Hc. revert w Hm. induction ps as [|p ps IH]; intros w Hm F.
  - constructor.
  - inversion F as [|? ? Hp Fps]; subst.
    rewrite mapM_cons, update_one_eq.
    destruct (Page.id p =? id); simpl fst; simpl snd.
    + destruct (mapM_update_one id updates ps (tick w)) as (_ & L & _).
      constructor.
      * destruct Hp as (H1 & H2). destruct L as (Lc & _ & Lt & _).
        unfold timed. rewrite updated_page_createdAt, updated_page_updatedAt, Hc.
        simpl over. split; [lia|].
        rewrite Lc. simpl clock. apply Hm. simpl in Lt. lia.
      * apply IH; [eapply monotone_clock_le; [apply world_le_tick | exact Hm]|].
        eapply Forall_impl; [|exact Fps]. intro q.
        apply timed_le; [apply world_le_tick | exact Hm].
    + destruct (mapM_update_one id updates ps w) as (_ & L & _).
      constructor; [eapply timed_le; eauto | apply IH; assumption].
Qed.

Lemma updatePage_TInv id updates st w :
  TInv st w -> PartialPage.createdAt updates = None ->
  TInv (fst (updatePage id updates st w)) (snd (updatePage id updates st w)).
Proof.
  intros (Hm & F) Hc. split.
  - destruct (updatePage_spec id updates st w) as (_ & _ & _ & L & _).
    eapply monotone_clock_le; eauto.
  - unfold updatePage, bind.
    pose proof (mapM_update_one_timed id updates (pages st) w Hm Hc F) as H.
    destruct (mapM (update_one id updates) (pages st) w); exact H.
Qed.

Lemma createPage_TInv type st w :
  TInv st w -> TInv (fst (createPage type st w)) (snd (createPage type st w)).
Proof.
  intros (Hm & F). unfold TInv. simpl.
  set (w' := mkWorld _ _ _ _).
  assert (L : world_le w w') by (unfold world_le, w'; simpl; repeat split; lia).
  split; [eapply monotone_clock_le; eauto|].
  constructor.
  - unfold timed. simpl. split; apply Hm; lia.
  - eapply Forall_impl; [|exact F]. intro p. apply timed_le; assumption.
Qed.

Lemma deletePage_TInv id st w :
  TInv st w -> TInv (fst (deletePage id st w)) (snd (deletePage id st w)).
Proof.
  intros (Hm & F). unfold deletePage, ret. simpl.
  assert (F' : Forall (timed w) (filter (fun p => negb (Page.id p =? id)) (pages st))).
  { rewrite Forall_forall in *. intros p Hp. apply filter_In in Hp. apply F, Hp. }
  split; [exact Hm|].
  destruct (selectedPageId st) as [sel|]; [destruct (sel =? id)|]; exact F'.
Qed.

Lemma handleAiBreakdown_TInv key sel reply st w :
  TInv st w ->
  TInv (fst (fst (handleAiBreakdown key sel reply st w)))
       (snd (handleAiBreakdown key sel reply st w)).
Proof.
  intros T. destruct sel as [sp|]; [|exact T].
  destruct (generatePageBreakdown_total key
              (if Page.title sp =? "" then "Untitled" else Page.title sp)
              "General project breakdown" reply w) as (generated & k & E).
  rewrite (handleAiBreakdown_eq key sp reply st w _ _ E). simpl fst; simpl snd.
  eapply TInv_pages; [reflexivity|].
  apply updatePage_TInv; [|reflexivity].
  eapply TInv_pages; [reflexivity|]. eapply TInv_le; [apply world_le_draws | exact T].
Qed.

Lemma handleAiSuggest_TInv key sel reply st w :
  TInv st w ->
  TInv (fst (fst (handleAiSuggest key sel reply st w)))
       (snd (handleAiSuggest key sel reply st w)).
Proof.
  intros T. destruct sel as [sp|]; [|exact T].
  destruct (suggestNextSteps_cases key (Page.blocks sp) reply w)
    as [(suggestions & k & E) | E].
  2:{ rewrite (handleAiSuggest_throw key sp reply st w _ E). simpl.
      eapply TInv_pages; [reflexivity | exact T]. }
  rewrite (handleAiSuggest_eq key sp reply st w _ _ E).
  destruct suggestions as [|s r].
  - simpl. eapply TInv_pages; [reflexivity|].
    eapply TInv_le; [apply world_le_draws | exact T].
  - cbv zeta. simpl fst; simpl snd.
    eapply TInv_pages; [reflexivity|].
    apply updatePage_TInv; [|reflexivity].
    eapply TInv_pages; [reflexivity|].
    eapply TInv_le; [|exact T].
    eapply world_le_trans; [apply world_le_draws | apply world_le_draw].
Qed.

Lemma step_TInv key op st w :
  TInv st w -> keeps_createdAt op = true ->
  TInv (fst (step key op st w)) (snd (step key op st w)).
Proof.
  intros T Hop. destruct op; simpl step.
  - apply createPage_TInv, T.
  - apply updatePage_TInv; [exact T|].
    simpl in Hop. destruct (PartialPage.createdAt updates); [discriminate | reflexivity].
  - apply deletePage_TInv, T.
  - exact T.
  - unfold updateBlock. destruct (find_page pageId (pages st)); [|exact T].
    apply updatePage_TInv; [exact T | reflexivity].
  - unfold addBlock. destruct (find_page pageId (pages st)); [|exact T].
    unfold bind, generateId. fold (draw w).
    apply updatePage_TInv; [eapply TInv_le; [apply world_le_draw | exact T] | reflexivity].
  - unfold deleteBlock. destruct (find_page pageId (pages st)) as [page|]; [|exact T].
    destruct (List.length (Page.blocks page) <=? 1)%nat; [exact T|].
    apply updatePage_TInv; [exact T | reflexivity].
  - unfold bind.
    pose proof (handleAiBreakdown_TInv key (selectedPage st) reply st w T) as H.
    destruct (handleAiBreakdown key (selectedPage st) reply st w); exact H.
  - unfold bind.
    pose proof (handleAiSuggest_TInv key (selectedPage st) reply st w T) as H.
    destruct (handleAiSuggest key (selectedPage st) reply st w); exact H.
Qed.

Lemma run_TInv key ops st w :
  TInv st w -> forallb keeps_createdAt ops = true ->
  TInv (fst (run key ops st w)) (snd (run key ops st w)).
Proof.
  revert st w; induction ops as [|op rest IH]; intros st w T Hok; [exact T|].
  simpl in Hok. apply andb_prop in Hok as [Hop Hrest]. rewrite run_cons.
  apply IH; [apply step_TInv; assumption | exact Hrest].
Qed.

Lemma monotone_world1 : monotone_clock world1.
Proof.
  intros i j Hij. change (1000 + Z.of_nat i <= 1000 + Z.of_nat j)%Z. lia.
Qed.

Lemma timed_store0 : Forall (timed world1) (pages store0).
Proof. repeat constructor; simpl; lia. Qed.

(** X17.  With a clock that never goes back, every sequence of events
    that hands [updatePage] no [createdAt] keeps, on every page, [createdAt]
    at or before [updatedAt], and [updatedAt] at or before the next reading
    of the clock. *)
Theorem timestamps_stay_ordered
    (key : option string) (ops : list Op) (st : Store) (w : World) :
  monotone_clock w ->
  Forall (timed w) (pages st) ->
  forallb keeps_createdAt ops = true ->
  let w' := snd (run key ops st w) in
  Forall (fun p => (Page.createdAt p <= Page.updatedAt p)%Z /\
                   (Page.updatedAt p <= clock w' (ticks w'))%Z)
         (pages (fst (run key ops st w))).
Proof.
  intros Hm F Hok. exact (proj2 (run_TInv key ops st w (conj Hm F) Hok)).
Qed.

(** Retitling, editing, generating, deleting and creating. *)
Definition timed_ops : list Op :=
  [ OpUpdatePage "1" (PartialPage.of_title "Redesign");
    OpSelect (Some "1");
    OpAiBreakdown Rejected;
    OpAddBlock "2" "l1";
    OpUpdateBlock "2" "l3" (PartialBlock.mk None None None (Some (VBool false)));
    OpCreatePage work;
    OpDeletePage "2";
    OpUpdatePage "1" (PartialPage.mk None None None None None (Some 0%Z) None None) ].

Lemma timestamps_stay_ordered_witness :
  Forall (fun p => (Page.createdAt p <= Page.updatedAt p)%Z /\
                   (Page.updatedAt p <= 1011)%Z)
         (pages (fst (run (Some "key") timed_ops store0 world1))).
Proof.
  pose proof (timestamps_stay_ordered (Some "key") timed_ops store0 world1
                monotone_world1 timed_store0 eq_refl) as H.
  exact H.
Defined.

(** * The buttons of App.tsx that wrap a handler *)

(** [New Page]: [createPage(activeTab === 'all' ? 'project' : activeTab)] *)
Definition handleNewPage (activeTab : Tab) (st : Store) : M Store :=
  createPage (match activeTab with None => project | Some t => t end) st.

(** [Click to add a block...]:
    [if (selectedPage && selectedPage.blocks.length > 0)
       addBlock(selectedPageId, selectedPage.blocks[selectedPage.blocks.length - 1].id)].
    The element read is there whenever the length test passes. *)
Definition handleClickToAdd (st : Store) : M Store :=
  match selectedPageId st, selectedPage st with
  | Some pageId, Some sp =>
      if (0 <? List.length (Page.blocks sp))%nat then
        match nth_error (Page.blocks sp) (List.length (Page.blocks sp) - 1) with
        | Some b => addBlock pageId (Block.id b) st
        | None => ret st
        end
      else ret st
  | _, _ => ret st
  end.

Lemma PageType_eqb_refl t : PageType_eqb t t = true.
Proof. destruct t; reflexivity. Qed.

(** X18.  In every state reached, under a clock that never goes back, by
    events that hand [updatePage] no [createdAt], the [New Page] button
    makes a page of the active tab's kind ([project] on the ['all'] tab),
    selects it, and the sidebar of the active tab shows it first with the
    former list behind it. *)
Theorem new_page_heads_the_active_tab
    (key : option string) (ops : list Op) (activeTab : Tab) (st : Store) (w : World) :
  monotone_clock w ->
  Forall (timed w) (pages st) ->
  forallb keeps_createdAt ops = true ->
  let st1 := fst (run key ops st w) in
  let w1 := snd (run key ops st w) in
  exists newPage,
    selectedPage (fst (handleNewPage activeTab st1 w1)) = Some newPage /\
    Page.type newPage = (match activeTab with None => project | Some t => t end) /\
    filteredPages activeTab (pages (fst (handleNewPage activeTab st1 w1))) =
      newPage :: filteredPages activeTab (pages st1).
Proof.
  intros Hm F Hok st1 w1.
  destruct (run_TInv key ops st w (conj Hm F) Hok) as (Hm1 & F1).
  fold st1 in F1. fold w1 in Hm1, F1.
  unfold handleNewPage. simpl pages. eexists. split.
  { unfold selectedPage, find_page. simpl. rewrite String.eqb_refl. reflexivity. }
  split; [reflexivity|].
  - unfold filteredPages. cbn [filter].
    assert (E : forall p, Page.type p = (match activeTab with None => project | Some t => t end) ->
                          in_tab activeTab p = true).
    { intros p Hp. unfold in_tab. destruct activeTab as [t|]; [|reflexivity].
      rewrite Hp. apply PageType_eqb_refl. }
    rewrite E by reflexivity.
    cbn [Array_sort]. apply sort_insert_front.
    eapply Permutation_Forall; [apply Array_sort_perm|].
    apply Forall_forall. intros p Hp. apply filter_In in Hp as [Hp _].
    rewrite Forall_forall in F1. destruct (F1 p Hp) as (_ & H2). simpl.
    specialize (Hm1 (ticks w1) (S (ticks w1)) ltac:(lia)). lia.
Qed.

Lemma new_page_heads_the_active_tab_witness :
  exists newPage,
    Page.type newPage = work /\
    map Page.id
      (filteredPages (Some work)
         (pages (fst (handleNewPage (Some work)
                        (fst (run (Some "key") timed_ops store0 world1))
                        (snd (run (Some "key") timed_ops store0 world1))))))
    = Page.id newPage :: ["g2"].
Proof.
  destruct (new_page_heads_the_active_tab (Some "key") timed_ops (Some work) store0 world1
              monotone_world1 timed_store0 eq_refl) as (newPage & _ & Ht & E).
  exists newPage. split; [exact Ht|]. rewrite E. reflexivity.
Defined.

(** X19.  [Click to add a block...] on a selected page whose block
    identifiers are pairwise distinct puts one new empty [text] block behind
    the last block and keeps the others in place. *)
Theorem click_to_add_appends
    (pageId : string) (st : Store) (w : World)
    (page : Page.t) (l : list Block.t) (b : Block.t) :
  selectedPageId st = Some pageId ->
  find_page pageId (pages st) = Some page ->
  Page.blocks page = (l ++ [b])%list ->
  NoDup (block_ids (Page.blocks page)) ->
  exists page',
    find_page pageId (pages (fst (handleClickToAdd st w))) = Some page' /\
    Page.blocks page' =
      (l ++ [b; Block.mk (idgen w (drawn w)) (kind text) (VStr "") VUndefined])%list.
Proof.
  intros Hsel Hf Hb Hnd. unfold handleClickToAdd, selectedPage. rewrite Hsel, Hf, Hb.
  rewrite length_app. change (List.length [b]) with 1.
  replace (0 <? List.length l + 1)%nat with true by (symmetry; apply Nat.ltb_lt; lia).
  replace (List.length l + 1 - 1)%nat with (List.length l) by lia.
  rewrite nth_error_app2, Nat.sub_diag by lia.
  change (nth_error [b] 0) with (Some b). cbv iota.
  unfold addBlock. rewrite Hf. unfold bind, generateId. cbv beta iota. rewrite Hb.
  rewrite Hb in Hnd.
  rewrite (findIndex_first (Block.id b) l b [] eq_refl)
    by (intros x Hx; apply (NoDup_ids_split l b [] Hnd); rewrite app_nil_r; exact Hx).
  rewrite splice_insert_after.
  eexists. split.
  - apply find_page_updatePage; [exact Hf | reflexivity].
  - reflexivity.
Qed.

Lemma click_to_add_appends_witness :
  exists page',
    find_page "2" (pages (fst (handleClickToAdd (setSelectedPageId (Some "2") store0) world1)))
      = Some page' /\
    block_ids (Page.blocks page') = ["l1"; "l2"; "l3"; "g0"].
Proof.
  destruct (click_to_add_appends "2" (setSelectedPageId (Some "2") store0) world1
              (mock_page2 1002 1003)
              (firstn 2 (Page.blocks (mock_page2 1002 1003)))
              (Block.mk "l3" (kind todo) (VStr "Gym session") (VBool true))
              eq_refl eq_refl eq_refl)
    as (page' & Hf & Hb).
  - apply NoDup_by_eqb. reflexivity.
  - exists page'. split; [exact Hf|]. rewrite Hb. reflexivity.
Defined.

(** * The generation handlers on every way out *)

(** X20.  Whatever the key, the reply and the state, [handleAiBreakdown]
    ends normally.  [handleAiSuggest] ends normally too, unless there is a
    key and the page it was started on holds a block whose type or content
    does not convert to a string: then it rejects, having changed no page
    and drawn no identifier.  On every way out, with a page selected both
    leave [isGenerating] [false] (the [finally] clause), and without one
    they do nothing at all.  Neither changes the selection or the number of
    pages. *)
Theorem generation_handlers_always_finish
    (key : option string) (sel : option Page.t) (reply : Reply) (st : Store) (w : World) :
  let rb := handleAiBreakdown key sel reply st w in
  let rs := handleAiSuggest key sel reply st w in
  snd (fst rb) = Normal tt /\
  snd (fst rs) =
    (match sel with
     | Some sp =>
         if has_key key && negb (context_ok (Page.blocks sp)) then Throw else Normal tt
     | None => Normal tt
     end) /\
  (snd (fst rs) = Throw -> pages (fst (fst rs)) = pages st /\ snd rs = w) /\
  isGenerating (fst (fst rb)) = (match sel with Some _ => false | None => isGenerating st end) /\
  isGenerating (fst (fst rs)) = (match sel with Some _ => false | None => isGenerating st end) /\
  selectedPageId (fst (fst rb)) = selectedPageId st /\
  selectedPageId (fst (fst rs)) = selectedPageId st /\
  List.length (pages (fst (fst rb))) = List.length (pages st) /\
  List.length (pages (fst (fst rs))) = List.length (pages st) /\
  (sel = None -> rb = ((st, Normal tt), w) /\ rs = ((st, Normal tt), w)).
Proof.
  intros rb rs. subst rb rs. destruct sel as [sp|].
  2:{ simpl. repeat split; try reflexivity; try discriminate. }
  destruct (generatePageBreakdown_total key
              (if Page.title sp =? "" then "Untitled" else Page.title sp)
              "General project breakdown" reply w) as (generated & k & E).
  rewrite (handleAiBreakdown_eq key sp reply st w _ _ E).
  assert (U : forall bs ww,
             selectedPageId (fst (updatePage (Page.id sp) (PartialPage.of_blocks bs)
                                    (setIsGenerating true st) ww)) = selectedPageId st /\
             List.length (pages (fst (updatePage (Page.id sp) (PartialPage.of_blocks bs)
                                        (setIsGenerating true st) ww)))
             = List.length (pages st)).
  { intros bs ww.
    destruct (updatePage_spec (Page.id sp) (PartialPage.of_blocks bs)
                (setIsGenerating true st) ww) as (F2 & S & _).
    split; [exact S|]. symmetry. apply (Forall2_length F2). }
  assert (C : (has_key key && negb (context_ok (Page.blocks sp)) = false /\
               exists suggestions w1,
                 suggestNextSteps key (Page.blocks sp) reply w = (Normal suggestions, w1)) \/
              (has_key key && negb (context_ok (Page.blocks sp)) = true /\
               suggestNextSteps key (Page.blocks sp) reply w = (Throw, w))).
  { destruct (suggestNextSteps_shape key (Page.blocks sp) reply w)
      as [(_ & Hc & l & _ & E') | [([K | (Hc & _)] & k' & E') | (K & Hc & E')]].
    - left. rewrite Hc, andb_false_r. eauto.
    - left. rewrite K. eauto.
    - left. rewrite Hc, andb_false_r. eauto.
    - right. rewrite K, Hc. auto. }
  destruct C as [(-> & suggestions & w1 & E') | (-> & E')].
  - rewrite (handleAiSuggest_eq key sp reply st w _ _ E').
    destruct suggestions as [|s r]; cbv zeta; simpl fst; simpl snd;
      repeat split; try reflexivity; try apply U; try discriminate.
  - rewrite (handleAiSuggest_throw key sp reply st w _ E'). simpl fst; simpl snd.
    repeat split; try reflexivity; try apply U; try discriminate.
Qed.

(** X21.  Without an API key ([process.env.API_KEY] undefined or the empty
    string) the reply plays no part: [generatePageBreakdown] resolves to the
    one [text] block that says the key is missing, having drawn one
    identifier, [suggestNextSteps] resolves to the empty list having drawn
    none, and [handleAiSuggest] leaves the pages and the world as they
    were. *)
Theorem missing_key_ignores_reply
    (key : option string) (title context : string) (currentBlocks : list Block.t)
    (reply : Reply) (w : World) :
  key = None \/ key = Some "" ->
  generatePageBreakdown key title context reply w =
    (Normal [ Block.mk (idgen w (drawn w)) (kind text)
                (VStr "API Key missing. Please configure your environment.")
                VUndefined ],
     draw w) /\
  suggestNextSteps key currentBlocks reply w = (Normal [], w) /\
  (forall sp st,
      pages (fst (fst (handleAiSuggest key (Some sp) reply st w))) = pages st /\
      snd (handleAiSuggest key (Some sp) reply st w) = w).
Proof.
  intros K.
  assert (Hk : has_key key = false) by (destruct K as [-> | ->]; reflexivity).
  assert (Hs : forall cur, suggestNextSteps key cur reply w = (Normal [], w)).
  { intro cur. unfold suggestNextSteps. rewrite Hk. reflexivity. }
  split; [|split].
  - unfold generatePageBreakdown. rewrite Hk. reflexivity.
  - apply Hs.
  - intros sp st. rewrite (handleAiSuggest_eq key sp reply st w _ _ (Hs _)).
    split; reflexivity.
Qed.

Lemma missing_key_ignores_reply_witness :
  suggestNextSteps (Some "") []
    (Parsed (VArr [VObj [("content", VStr "Stretch")]])) world1 = (Normal [], world1).
Proof.
  exact (proj1 (proj2 (missing_key_ignores_reply (Some "") "t" "c" []
                         (Parsed (VArr [VObj [("content", VStr "Stretch")]])) world1
                         (or_intror eq_refl)))).
Defined.

(** * A key press, from the editor to the store *)

Lemma addBlock_on_block pageId st w page l1 l2 a :
  find_page pageId (pages st) = Some page ->
  Page.blocks page = (l1 ++ a :: l2)%list ->
  NoDup (block_ids (Page.blocks page)) ->
  exists now,
    find_page pageId (pages (fst (addBlock pageId (Block.id a) st w))) =
    Some (updated_page page
            (PartialPage.of_blocks
               (l1 ++ a :: Block.mk (idgen w (drawn w)) (kind text) (VStr "") VUndefined
                   :: l2))
            now).
Proof.
  intros Hf Hb Hnd. unfold addBlock. rewrite Hf.
  unfold bind, generateId. cbv beta iota. rewrite Hb. rewrite Hb in Hnd.
  rewrite (findIndex_first (Block.id a) l1 a l2 eq_refl)
    by (intros x Hx; apply (NoDup_ids_split l1 a l2 Hnd); apply in_or_app; auto).
  rewrite splice_insert_after.
  eexists. apply find_page_updatePage; [exact Hf | reflexivity].
Qed.

Lemma deleteBlock_on_block pageId st w page l1 l2 b :
  find_page pageId (pages st) = Some page ->
  Page.blocks page = (l1 ++ b :: l2)%list ->
  NoDup (block_ids (Page.blocks page)) ->
  (l1 ++ l2)%list <> [] ->
  exists now,
    find_page pageId (pages (fst (deleteBlock pageId (Block.id b) st w))) =
    Some (updated_page page (PartialPage.of_blocks (l1 ++ l2)) now).
Proof.
  intros Hf Hb Hnd Hne. unfold deleteBlock. rewrite Hf, Hb. rewrite Hb in Hnd.
  assert (Hlen : (List.length (l1 ++ b :: l2) <=? 1)%nat = false).
  { apply Nat.leb_gt. rewrite length_app. simpl.
    destruct l1, l2; simpl in *; try lia. congruence. }
  rewrite Hlen.
  assert (Hfil : filter (fun x => negb (Block.id x =? Block.id b)) (l1 ++ b :: l2)
                 = (l1 ++ l2)%list).
  { rewrite filter_app. simpl. rewrite String.eqb_refl. simpl.
    rewrite <- filter_app. apply filter_absent.
    apply (NoDup_ids_split _ _ _ Hnd). }
  rewrite Hfil. eexists. apply find_page_updatePage; [exact Hf | reflexivity].
Qed.

(** X22.  A key typed in a block of the selected page (block identifiers
    pairwise distinct) reaches the store as follows: [Enter] without [Shift]
    puts a new empty [text] block right below the block; [Backspace] in a
    block whose content is the empty string removes the block, unless it is
    the page's only block, which stays; [/] with [Ctrl] or [Cmd] gives the
    block the next kind and changes nothing else of it. *)
Theorem key_press_edits_the_page
    (pageId : string) (st : Store) (w : World)
    (page : Page.t) (l1 l2 : list Block.t) (b : Block.t) (e : KeyboardEvent.t) :
  selectedPageId st = Some pageId ->
  find_page pageId (pages st) = Some page ->
  Page.blocks page = (l1 ++ b :: l2)%list ->
  NoDup (block_ids (Page.blocks page)) ->
  let st' := fst (dispatch_all (handleKeyDown b e) st w) in
  let blocks' := option_map Page.blocks (find_page pageId (pages st')) in
  (KeyboardEvent.key e = "Enter" -> KeyboardEvent.shiftKey e = false ->
   blocks' =
     Some (l1 ++ b :: Block.mk (idgen w (drawn w)) (kind text) (VStr "") VUndefined
              :: l2)%list) /\
  (KeyboardEvent.key e = "Backspace" -> strict_eq_str (Block.content b) "" = true ->
   blocks' = Some (match (l1 ++ l2)%list with [] => [b] | _ => (l1 ++ l2)%list end)) /\
  (KeyboardEvent.key e = "/" ->
   KeyboardEvent.metaKey e || KeyboardEvent.ctrlKey e = true ->
   blocks' =
     Some (l1 ++ Block.mk (Block.id b) (next_type (Block.type b)) (Block.content b)
                          (Block.checked b) :: l2)%list).
Proof.
  intros Hsel Hf Hb Hnd st' blocks'. subst st' blocks'.
  destruct e as [k sh me ct].
  cbn [KeyboardEvent.key KeyboardEvent.shiftKey KeyboardEvent.metaKey
       KeyboardEvent.ctrlKey].
  split; [|split].
  - intros -> ->. unfold handleKeyDown.
    cbn [KeyboardEvent.key KeyboardEvent.shiftKey KeyboardEvent.metaKey
         KeyboardEvent.ctrlKey].
    change ("Enter" =? "Enter") with true. change ("Enter" =? "Backspace") with false.
    change ("Enter" =? "/") with false. rewrite andb_false_r. cbn [andb negb app].
    cbn [dispatch_all]. unfold dispatch, bind. rewrite Hsel.
    destruct (addBlock_on_block pageId st w page l1 l2 b Hf Hb Hnd) as [now H].
    destruct (addBlock pageId (Block.id b) st w) as [st1 w1]. simpl in H |- *.
    rewrite H. reflexivity.
  - intros -> Hc. unfold handleKeyDown.
    cbn [KeyboardEvent.key KeyboardEvent.shiftKey KeyboardEvent.metaKey
         KeyboardEvent.ctrlKey].
    change ("Backspace" =? "Enter") with false.
    change ("Backspace" =? "Backspace") with true.
    change ("Backspace" =? "/") with false. rewrite Hc, andb_false_r. cbn [andb app].
    cbn [dispatch_all]. unfold dispatch, bind. rewrite Hsel.
    destruct (l1 ++ l2)%list as [|x r] eqn:El.
    + apply app_eq_nil in El as [-> ->]. simpl in Hb.
      unfold deleteBlock. rewrite Hf, Hb. simpl. rewrite Hf. simpl. rewrite Hb.
      reflexivity.
    + assert (Hne : (l1 ++ l2)%list <> []) by (rewrite El; discriminate).
      destruct (deleteBlock_on_block pageId st w page l1 l2 b Hf Hb Hnd Hne) as [now H].
      destruct (deleteBlock pageId (Block.id b) st w) as [st1 w1]. simpl in H |- *.
      rewrite H, El. reflexivity.
  - intros -> Hmc. unfold handleKeyDown.
    cbn [KeyboardEvent.key KeyboardEvent.shiftKey KeyboardEvent.metaKey
         KeyboardEvent.ctrlKey].
    change ("/" =? "Enter") with false. change ("/" =? "Backspace") with false.
    change ("/" =? "/") with true. rewrite Hmc. cbn [andb app].
    cbn [dispatch_all]. unfold dispatch, bind. rewrite Hsel.
    pose proof (updateBlock_on_block pageId
                  (PartialBlock.mk None (Some (next_type (Block.type b))) None None)
                  st w page l1 l2 b Hf Hb Hnd) as H.
    destruct (updateBlock pageId (Block.id b) _ st w) as [st1 w1]. simpl in H |- *.
    rewrite H. reflexivity.
Qed.

Lemma key_press_edits_the_page_witness :
  option_map (fun p => map Block.type (Page.blocks p))
    (find_page "2"
       (pages (fst (dispatch_all
                      (handleKeyDown
                         (Block.mk "l3" (kind todo) (VStr "Gym session") (VBool true))
                         (KeyboardEvent.mk "/" false false true))
                      (setSelectedPageId (Some "2") store0) world1))))
  = Some [kind h1; kind text; kind h1].
Proof.
  assert (Hnd : NoDup (block_ids (Page.blocks (mock_page2 1002 1003))))
    by (apply NoDup_by_eqb; reflexivity).
  pose proof (key_press_edits_the_page "2" (setSelectedPageId (Some "2") store0) world1
                (mock_page2 1002 1003)
                (firstn 2 (Page.blocks (mock_page2 1002 1003))) []
                (Block.mk "l3" (kind todo) (VStr "Gym session") (VBool true))
                (KeyboardEvent.mk "/" false false true)
                eq_refl eq_refl eq_refl Hnd) as (_ & _ & H).
  specialize (H eq_refl eq_refl).
  destruct (find_page "2" _) as [p|]; [|discriminate H].
  simpl in H. injection H as H. simpl. rewrite H. reflexivity.
Defined.
